(** * KIF (Kompakt Icon Format): a shallow embedding of [kif.h]

    The codec of [src/kif.h] is embedded function by function:
    [_read16bit], [_read32bit], [_in_palette], [_generate_palette],
    [kif_encode] and [kif_decode] keep their names, and each loop of the
    source is a recursive function of the same shape.

    Conventions of the embedding.
    - [int] is 32 bits; the host is little-endian (the encoder copies the
      packed header struct and the palette array with [memcpy], and views
      the pixel buffer as [uint32_t] words).
    - A byte is a [Byte.byte]; [u8] gives its value, [uchar] is the
      conversion of an integer to [unsigned char].
    - A pointer argument is the list of the elements that can be read
      through it, or [None] when it is NULL.  The codec receives no length:
      the list of a pixel buffer may be longer than the Width x Height
      pixels of the image, and the list of a file longer than the size its
      header declares.
    - An access outside of the list, a signed overflow, or the use of a NULL
      pointer leaves the behaviour of the C program undefined: the embedding
      then gives [Undefined].  The shift [buffer[3] << 24] of [_read32bit]
      is taken as compilers implement it, also when it reaches the sign
      bit: it gives the bit pattern, which the conversion to
      [unsigned int] keeps.
    - [malloc] is an oracle of the environment telling whether an
      allocation of a given size succeeds.
    - The file helpers [kif_write] and [kif_read] run over a file system
      that maps a file name to the bytes of the file; opening a file may
      fail, reading and writing an open file do not. *)

From Stdlib Require Import ZArith List Lia Bool.
From Stdlib Require Import Strings.Byte.
From Stdlib Require Strings.String.
From Equations Require Import Equations.
Import ListNotations.
Local Open Scope Z_scope.

(** ** Outcomes of a call *)

Inductive outcome (A : Type) : Type :=
| Ret (a : A)
| Null
| Undefined.

Arguments Ret {A} a.
Arguments Null {A}.
Arguments Undefined {A}.

Definition bind {A B : Type} (c : outcome A) (k : A -> outcome B) : outcome B :=
  match c with
  | Ret a => k a
  | Null => Null
  | Undefined => Undefined
  end.

Notation "x <- c ;; k" := (bind c (fun x => k))
  (at level 61, c at next level, right associativity).
Notation "' p <- c ;; k" := (bind c (fun x => let p := x in k))
  (at level 61, p pattern, c at next level, right associativity).

(** ** Machine integers and bytes *)

Definition INT_MAX : Z := 2147483647.

Definition u8 (b : byte) : Z := Z.of_N (Byte.to_N b).

Definition uchar (z : Z) : byte :=
  match Byte.of_N (Z.to_N (z mod 256)) with
  | Some b => b
  | None => x00
  end.

Definition uint16 (z : Z) : Z := z mod 65536.
Definition uint32 (z : Z) : Z := z mod 4294967296.

(** [buffer[k]]: reading outside of the buffer is undefined. *)
Definition load {A : Type} (buffer : list A) (k : Z) : outcome A :=
  if k <? 0 then Undefined
  else match nth_error buffer (Z.to_nat k) with
       | Some x => Ret x
       | None => Undefined
       end.

(** ** The data model of [kif.h] *)

Record KIFHeader : Type := mkHeader {
  Magic : Z;
  BPP : Z;
  Compressed : Z;
  palEntries : Z;
  Width : Z;
  Height : Z;
  RLEEntries : Z
}.

(** The fields of a header hold values of their C types. *)
Definition header_in_range (h : KIFHeader) : Prop :=
  0 <= Magic h < 4294967296 /\ 0 <= BPP h < 256 /\ 0 <= Compressed h < 256 /\
  0 <= palEntries h < 65536 /\ 0 <= Width h < 65536 /\ 0 <= Height h < 65536 /\
  0 <= RLEEntries h < 4294967296.

Definition sizeof_KIFHeader : Z := 16.

(** The signature 'kif1'. *)
Definition kif1 : Z := 0x6B696631.

Record kif_rgba_t : Type := mkRGBA { r : byte; g : byte; b : byte; a : byte }.

(** The [v] member of the union: the four bytes as one 32-bit word. *)
Definition v (c : kif_rgba_t) : Z :=
  Z.lor (Z.lor (Z.lor (u8 (r c)) (Z.shiftl (u8 (g c)) 8)) (Z.shiftl (u8 (b c)) 16))
        (Z.shiftl (u8 (a c)) 24).

Definition black : kif_rgba_t := mkRGBA x00 x00 x00 x00.

Record kif_rle_t : Type := mkRLE { pID : byte; rle : byte }.

(** ** Little-endian readers *)

Definition _read16bit (buffer : list byte) (off : Z) : outcome Z :=
  b1 <- load buffer (off + 1);;
  b0 <- load buffer off;;
  Ret (uint16 (Z.lor (Z.shiftl (u8 b1) 8) (u8 b0))).

Definition _read32bit (buffer : list byte) (off : Z) : outcome Z :=
  b3 <- load buffer (off + 3);;
  b2 <- load buffer (off + 2);;
  b1 <- load buffer (off + 1);;
  b0 <- load buffer off;;
  Ret (uint32 (Z.lor (Z.lor (Z.lor (Z.shiftl (u8 b3) 24) (Z.shiftl (u8 b2) 16))
                            (Z.shiftl (u8 b1) 8)) (u8 b0))).

(** ** Memory images written by [memcpy] on the little-endian host *)

Definition le16 (z : Z) : list byte :=
  [uchar z; uchar (Z.shiftr z 8)].

Definition le32 (z : Z) : list byte :=
  [uchar z; uchar (Z.shiftr z 8); uchar (Z.shiftr z 16); uchar (Z.shiftr z 24)].

Definition header_bytes (h : KIFHeader) : list byte :=
  le32 (Magic h) ++ [uchar (BPP h); uchar (Compressed h)] ++
  le16 (palEntries h) ++ le16 (Width h) ++ le16 (Height h) ++ le32 (RLEEntries h).

Definition rgba_bytes (c : kif_rgba_t) : list byte := [r c; g c; b c; a c].
Definition rgb_bytes (c : kif_rgba_t) : list byte := [r c; g c; b c].
Definition rle_bytes (e : kif_rle_t) : list byte := [pID e; rle e].

Definition palette_bytes (Palette : list kif_rgba_t) : list byte :=
  flat_map rgba_bytes Palette.

Definition encoded_bytes (Encoded : list kif_rle_t) : list byte :=
  flat_map rle_bytes Encoded.

(** ** [_in_palette] *)

Fixpoint in_palette_from (Color : kif_rgba_t) (Palette : list kif_rgba_t) (Index : Z) : Z :=
  match Palette with
  | [] => -1
  | p :: rest =>
      if v p =? v Color then Index else in_palette_from Color rest (Index + 1)
  end.

(** [Palette] lists the first [*NumberOfColors] entries of the array. *)
Definition _in_palette (Color : kif_rgba_t) (Palette : list kif_rgba_t) : Z :=
  in_palette_from Color Palette 0.

(** ** [_generate_palette] *)

(** The inner search loop: the value of [i] when the loop is left. *)
Fixpoint palette_search (Palette : list kif_rgba_t) (c : kif_rgba_t) (i : Z) : Z :=
  match Palette with
  | [] => i
  | p :: rest => if v p =? v c then i else palette_search rest c (i + 1)
  end.

Definition palette_add (Palette : list kif_rgba_t) (c : kif_rgba_t) : list kif_rgba_t :=
  let NumberOfColors := Z.of_nat (length Palette) in
  let i := palette_search Palette c 0 in
  if i =? NumberOfColors then
    if NumberOfColors <? 65536 then Palette ++ [c] else Palette
  else Palette.

(** The loop over [Pos], with [n] iterations left. *)
Fixpoint palette_loop (PaletteData : list kif_rgba_t) (n : nat) (Pos : Z)
    (Palette : list kif_rgba_t) : outcome (list kif_rgba_t) :=
  match n with
  | O => Ret Palette
  | S n' =>
      c <- load PaletteData Pos;;
      palette_loop PaletteData n' (Pos + 1) (palette_add Palette c)
  end.

(** [_generate_palette] as [kif_encode] calls it, with [*NumberOfColors = 0]
    on entry; the result lists [Palette[0 .. *NumberOfColors - 1]]. *)
Definition _generate_palette (Data : list kif_rgba_t) (Header : KIFHeader)
    : outcome (list kif_rgba_t) :=
  let Palette := [black] in
  if INT_MAX <? Width Header * Height Header then Undefined
  else
    let PaletteDataLength := Width Header * Height Header in
    palette_loop Data (Z.to_nat PaletteDataLength) 0 Palette.

(** ** The run-length loops of [kif_encode] *)

(** The loop over [Count], with [n] iterations left: returns [i] and [rl]. *)
Fixpoint run_scan (px_data : list kif_rgba_t) (Color : kif_rgba_t) (n : nat)
    (i rl : Z) : outcome (Z * Z) :=
  match n with
  | O => Ret (i, rl)
  | S n' =>
      p <- load px_data i;;
      if v Color =? v p then
        if INT_MAX <=? i then Undefined
        else run_scan px_data Color n' (i + 1) (rl + 1)
      else Ret (i, rl)
  end.

Lemma run_scan_advances px_data Color n :
  forall i rl i' rl', run_scan px_data Color n i rl = Ret (i', rl') ->
    i <= i' /\ i' - i = rl' - rl /\ rl' - rl <= Z.of_nat n.
Proof.
  induction n as [|n IH]; intros i rl i' rl' H; simpl in H.
  - inversion H; subst. lia.
  - destruct (load px_data i) as [p| |]; simpl in H; try discriminate.
    destruct (v Color =? v p).
    + destruct (INT_MAX <=? i); [discriminate|].
      apply IH in H. lia.
    + inversion H; subst. lia.
Qed.

Lemma run_scan_first px_data Color n i i' rl' :
  load px_data i = Ret Color ->
  run_scan px_data Color (S n) i 0 = Ret (i', rl') -> i < i'.
Proof.
  intros Hl H. simpl in H. rewrite Hl in H. simpl in H.
  rewrite Z.eqb_refl in H.
  destruct (INT_MAX <=? i); [discriminate|].
  apply run_scan_advances in H. lia.
Qed.

(** One iteration of the loop over [i]: the entry written to [Encoded] and
    the value of [i] after [i--]. *)
Definition rle_entry (px_data Palette : list kif_rgba_t) (i : Z)
    : outcome (Z * kif_rle_t) :=
  Color <- load px_data i;;
  let pID := uchar (_in_palette Color Palette) in
  ir <- run_scan px_data Color 255 i 0;;
  Ret (fst ir - 1, mkRLE pID (uchar (snd ir))).

Lemma rle_entry_advances px_data Palette i j e :
  rle_entry px_data Palette i = Ret (j, e) -> i <= j.
Proof.
  unfold rle_entry. intros H.
  destruct (load px_data i) as [Color| |] eqn:Hl; try discriminate.
  unfold bind at 1 in H.
  destruct (run_scan px_data Color 255 i 0) as [[i' rl]| |] eqn:Hs; try discriminate.
  apply (run_scan_first px_data Color 254) in Hs; [|exact Hl].
  simpl in H. inversion H; subst. lia.
Qed.

Definition inspect {A : Type} (x : A) : {y : A | x = y} := exist _ x eq_refl.

Equations? rle_loop (px_data Palette : list kif_rgba_t) (DataLen : Z) (i : Z)
    (Encoded : list kif_rle_t) : outcome (list kif_rle_t)
    by wf (Z.to_nat (DataLen - i)) lt :=
  rle_loop px_data Palette DataLen i Encoded with Z_lt_dec i DataLen := {
    | right _ => Ret Encoded
    | left _ with inspect (rle_entry px_data Palette i) := {
        | exist _ (Ret (j, e)) _ =>
            rle_loop px_data Palette DataLen (j + 1) (Encoded ++ [e])
        | exist _ _ _ => Undefined } }.
Proof.
  assert (i <= j) by (eapply rle_entry_advances; eauto). lia.
Qed.

Section Codec.

(** [malloc size] tells whether the allocation of [size] bytes succeeds. *)
Variable malloc : Z -> bool.

(** ** [kif_encode] *)

Record encoded : Type := mkEncoded {
  OutputBuffer : list byte;       (* the bytes of the returned buffer *)
  OutputLength : Z;               (* the value stored in [*OutputLength] *)
  HeaderOut : KIFHeader           (* the caller's header after the call *)
}.

Definition sizeof_kif_rgba_t : Z := 4.
Definition sizeof_kif_rle_t : Z := 2.

(** [Data], [Header] and [OutputLength] are [None] for a NULL pointer. *)
Definition kif_encode (Data : option (list kif_rgba_t)) (Header : option KIFHeader)
    (OutputLength : option Z) : outcome encoded :=
  match Data, Header, OutputLength with
  | Some px_data, Some Header, Some _ =>
      Palette <- _generate_palette px_data Header;;
      let NumberOfColors := Z.of_nat (length Palette) in
      let palEntries' := uint16 NumberOfColors in
      if negb (malloc (Width Header * Height Header * sizeof_kif_rle_t)) then Null
      else
        let DataLen := Width Header * Height Header in
        Encoded <- rle_loop px_data Palette DataLen 0 [];;
        let num_rle_entries := Z.of_nat (length Encoded) in
        let EncodedIndex := Z.of_nat (length Encoded) in
        let Header' :=
          mkHeader kif1 4 0 palEntries' (Width Header) (Height Header)
                   (uint32 num_rle_entries) in
        let TotalSize :=
          sizeof_KIFHeader + sizeof_kif_rgba_t * NumberOfColors
          + EncodedIndex * sizeof_kif_rle_t in
        if INT_MAX <? TotalSize then Undefined
        else if negb (malloc TotalSize) then Undefined
        else
          Ret (mkEncoded
                 (header_bytes Header' ++ palette_bytes Palette ++ encoded_bytes Encoded)
                 TotalSize Header')
  | _, _, _ => Null
  end.

(** ** [kif_decode] *)

(** The palette loop, with [n] iterations left. *)
Fixpoint read_palette (data_bytes : list byte) (n : nat) (i : Z)
    : outcome (list kif_rgba_t) :=
  match n with
  | O => Ret []
  | S n' =>
      r <- load data_bytes (sizeof_KIFHeader + i * 4);;
      g <- load data_bytes (sizeof_KIFHeader + i * 4 + 1);;
      b <- load data_bytes (sizeof_KIFHeader + i * 4 + 2);;
      a <- load data_bytes (sizeof_KIFHeader + i * 4 + 3);;
      rest <- read_palette data_bytes n' (i + 1);;
      Ret (mkRGBA r g b a :: rest)
  end.

(** [Decoded[DecodedIndex++] = x]: [Decoded] lists the bytes written so far,
    [capacity] is the size of the allocation and [ok] tells whether the
    pointer is not NULL. *)
Definition store (ok : bool) (capacity : Z) (Decoded : list byte) (x : byte)
    : outcome (list byte) :=
  if ok && (Z.of_nat (length Decoded) <? capacity) then Ret (Decoded ++ [x])
  else Undefined.

(** The loop over [j], with [n] iterations left. *)
Fixpoint emit_run (Palette : list kif_rgba_t) (OutputBPP : Z) (ok : bool)
    (capacity : Z) (index : Z) (n : nat) (Decoded : list byte)
    : outcome (list byte) :=
  match n with
  | O => Ret Decoded
  | S n' =>
      c <- load Palette index;;
      Decoded <- store ok capacity Decoded (r c);;
      Decoded <- store ok capacity Decoded (g c);;
      Decoded <- store ok capacity Decoded (b c);;
      Decoded <- (if OutputBPP =? 32 then store ok capacity Decoded (a c)
                  else Ret Decoded);;
      emit_run Palette OutputBPP ok capacity index n' Decoded
  end.

(** The loop over the run-length entries, with [n] iterations left. *)
Fixpoint decode_runs (data_bytes : list byte) (Palette : list kif_rgba_t)
    (pal : Z) (OutputBPP : Z) (ok : bool) (capacity : Z) (n : nat) (i : Z)
    (Decoded : list byte) : outcome (list byte) :=
  match n with
  | O => Ret Decoded
  | S n' =>
      if INT_MAX <? i * 2 then Undefined
      else
        index <- load data_bytes (sizeof_KIFHeader + pal * 4 + i * 2);;
        RunLength <- load data_bytes (sizeof_KIFHeader + pal * 4 + i * 2 + 1);;
        Decoded <- emit_run Palette OutputBPP ok capacity (u8 index)
                     (Z.to_nat (u8 RunLength)) Decoded;;
        decode_runs data_bytes Palette pal OutputBPP ok capacity n' (i + 1) Decoded
  end.

Definition read_header (data_bytes : list byte) : outcome KIFHeader :=
  Magic <- _read32bit data_bytes 0;;
  BPP <- load data_bytes 4;;
  Compressed <- load data_bytes 5;;
  palEntries <- _read16bit data_bytes 6;;
  Width <- _read16bit data_bytes 8;;
  Height <- _read16bit data_bytes 10;;
  RLEEntries <- _read32bit data_bytes 12;;
  Ret (mkHeader Magic (u8 BPP) (u8 Compressed) palEntries Width Height RLEEntries).

Record decoded : Type := mkDecoded {
  Pixels : list byte;             (* the bytes written to the returned buffer *)
  HeaderRead : KIFHeader          (* the caller's header after the call *)
}.

(** [Data] and [Header] are [None] for a NULL pointer. *)
Definition kif_decode (Data : option (list byte)) (Header : option KIFHeader)
    (OutputBPP : Z) : outcome decoded :=
  match Data, Header with
  | Some data_bytes, Some _ =>
      if negb (OutputBPP =? 24) && negb (OutputBPP =? 32) then Null
      else
        Header <- read_header data_bytes;;
        let Palette_ok := malloc (palEntries Header * sizeof_kif_rgba_t) in
        if negb Palette_ok && (0 <? palEntries Header) then Undefined
        else
          Palette <- read_palette data_bytes (Z.to_nat (palEntries Header)) 0;;
          if INT_MAX <? Width Header * Height Header * 4 then Undefined
          else
            let capacity := Width Header * Height Header * 4 in
            let Decoded_ok := malloc capacity in
            Decoded <- decode_runs data_bytes Palette (palEntries Header)
                         OutputBPP Decoded_ok capacity
                         (Z.to_nat (RLEEntries Header)) 0 [];;
            if Decoded_ok then Ret (mkDecoded Decoded Header) else Null
  | _, _ => Null
  end.

End Codec.


(** ** The file helpers [kif_write] and [kif_read] *)

(** The files of the environment: [fs name] is the content of the file
    [name] when it exists and [fopen(name, "rb")] succeeds. *)
Definition file_system : Type := String.string -> option (list byte).

(** The file system once [content] has been written to [Filename]. *)
Definition fs_store (fs : file_system) (Filename : String.string)
    (content : list byte) : file_system :=
  fun name => if String.eqb name Filename then Some content else fs name.

(** The conversion to [int] of the [long] that [ftell] returns. *)
Definition int_of_long (z : Z) : Z :=
  (z + 2147483648) mod 4294967296 - 2147483648.

Section Files.

Variable malloc : Z -> bool.

(** [fopen_wb name] tells whether [fopen(name, "wb")] succeeds. *)
Variable fopen_wb : String.string -> bool.

Record written : Type := mkWritten {
  Returned : Z;                   (* the value [kif_write] returns *)
  FilesAfter : file_system        (* the files after the call *)
}.

(** [fopen] with "wb" creates the file or empties it; [fwrite] then writes
    the first [Size] bytes of [Encoded].  The code does not look at what
    [fwrite] returns: the write is taken to be complete. *)
Definition kif_write (fs : file_system) (Filename : String.string)
    (Data : option (list kif_rgba_t)) (Header : option KIFHeader) : outcome written :=
  if negb (fopen_wb Filename) then Ret (mkWritten 0 fs)
  else
    let opened := fs_store fs Filename [] in
    match kif_encode malloc Data Header (Some 0) with
    | Undefined => Undefined
    | Null => Ret (mkWritten 0 opened)
    | Ret Encoded =>
        let Size := OutputLength Encoded in
        Ret (mkWritten Size
               (fs_store opened Filename (firstn (Z.to_nat Size) (OutputBuffer Encoded))))
    end.

(** [ftell] gives the length of the file and [fread] fills [Data] with its
    first [Size] bytes; the code does not look at [BytesRead].  [Data] is an
    allocation of [Size] bytes, so [kif_decode] may read exactly those. *)
Definition kif_read (fs : file_system) (Filename : String.string)
    (Header : option KIFHeader) (OutputBPP : Z) : outcome decoded :=
  match fs Filename with
  | None => Null
  | Some content =>
      let Size := int_of_long (Z.of_nat (length content)) in
      if Size <=? 0 then Null
      else if negb (malloc Size) then Null
      else
        let Data := firstn (Z.to_nat Size) content in
        kif_decode malloc (Some Data) Header OutputBPP
  end.

End Files.
(** * Specification-level definitions *)

(** Two buffers hold the same bytes from offset [lo] on. *)
Definition loads_agree_from (lo : Z) (d1 d2 : list byte) : Prop :=
  forall k, lo <= k -> load d1 k = load d2 k.

(** Two headers with the same fields, [Magic] apart. *)
Definition same_but_Magic (h1 h2 : KIFHeader) : Prop :=
  BPP h1 = BPP h2 /\ Compressed h1 = Compressed h2 /\
  palEntries h1 = palEntries h2 /\ Width h1 = Width h2 /\
  Height h1 = Height h2 /\ RLEEntries h1 = RLEEntries h2.

Definition decode_agree (o1 o2 : outcome decoded) : Prop :=
  match o1, o2 with
  | Ret x1, Ret x2 =>
      Pixels x1 = Pixels x2 /\ same_but_Magic (HeaderRead x1) (HeaderRead x2)
  | Null, Null => True
  | Undefined, Undefined => True
  | _, _ => False
  end.

(** The bytes the decoder writes for one pixel. *)
Definition pixel_bytes (OutputBPP : Z) (c : kif_rgba_t) : list byte :=
  if OutputBPP =? 32 then rgba_bytes c else rgb_bytes c.

(** The pixels a run-length entry stands for. *)
Definition entry_pixels (Palette : list kif_rgba_t) (e : kif_rle_t) : list kif_rgba_t :=
  repeat (nth (Z.to_nat (u8 (pID e))) Palette black) (Z.to_nat (u8 (rle e))).

Definition expand (Palette : list kif_rgba_t) (Encoded : list kif_rle_t)
    : list kif_rgba_t :=
  flat_map (entry_pixels Palette) Encoded.

Definition image_bytes (OutputBPP : Z) (pixels : list kif_rgba_t) : list byte :=
  flat_map (pixel_bytes OutputBPP) pixels.

(** Every entry names a palette entry that exists. *)
Definition indices_valid (Palette : list kif_rgba_t) (Encoded : list kif_rle_t) : Prop :=
  Forall (fun e => u8 (rle e) = 0 \/ u8 (pID e) < Z.of_nat (length Palette)) Encoded.

(** The sum of the run-length bytes of a list of entries. *)
Definition rle_total (Encoded : list kif_rle_t) : Z :=
  fold_right (fun e s => u8 (rle e) + s) 0 Encoded.

(** A file as the format lays it out: header, palette, run-length entries
    (and whatever follows), with the counts of the header, and entries that
    have a run length of at least 1, name existing palette colours and
    stand for Width x Height pixels in all. *)
Definition well_formed_file (d : list byte) : Prop :=
  exists h Palette Encoded rest,
    d = header_bytes h ++ palette_bytes Palette ++ encoded_bytes Encoded ++ rest /\
    header_in_range h /\
    Z.of_nat (length Palette) = palEntries h /\
    Z.of_nat (length Encoded) = RLEEntries h /\
    Forall (fun e => 1 <= u8 (rle e) /\ u8 (pID e) < Z.of_nat (length Palette)) Encoded /\
    rle_total Encoded = Width h * Height h.

(** The palette as the specification words it: scan the pixels in order,
    search the palette so far for the same RGBA value, and append the colour
    when it is absent and fewer than 65536 entries exist; entry 0 is
    transparent black from the start. *)
Definition colour_in (c : kif_rgba_t) (Palette : list kif_rgba_t) : bool :=
  existsb (fun p => v p =? v c) Palette.

Definition first_seen_step (Palette : list kif_rgba_t) (c : kif_rgba_t)
    : list kif_rgba_t :=
  if negb (colour_in c Palette) && (Z.of_nat (length Palette) <? 65536)
  then Palette ++ [c] else Palette.

Definition first_seen_palette (pixels : list kif_rgba_t) : list kif_rgba_t :=
  fold_left first_seen_step pixels [black].

(** The image: the first Width * Height pixels of the buffer. *)
Definition image (Data : list kif_rgba_t) (Header : KIFHeader) : list kif_rgba_t :=
  firstn (Z.to_nat (Width Header * Height Header)) Data.

(** What every iteration keeps: entry 0, distinct values, the capacity. *)
Definition palette_inv (Palette : list kif_rgba_t) : Prop :=
  nth_error Palette 0 = Some black /\ NoDup (map v Palette) /\
  Z.of_nat (length Palette) <= 65536.

(** A run of the encoder: a colour and the number of pixels it covers. *)
Definition run : Type := (kif_rgba_t * Z)%type.

Definition run_entry (Palette : list kif_rgba_t) (rn : run) : kif_rle_t :=
  mkRLE (uchar (_in_palette (fst rn) Palette)) (uchar (snd rn)).

Definition run_pixels (rn : run) : list kif_rgba_t :=
  repeat (fst rn) (Z.to_nat (snd rn)).

Definition runs_pixels (runs : list run) : list kif_rgba_t :=
  flat_map run_pixels runs.

Definition run_total (runs : list run) : Z :=
  fold_right (fun rn s => snd rn + s) 0 runs.

(** The word that follows the image in the buffer differs from its last
    pixel, so that no run can extend past the image. *)
Definition sentinel (px_data : list kif_rgba_t) (DataLen : Z) : Prop :=
  exists p q, load px_data (DataLen - 1) = Ret p /\ load px_data DataLen = Ret q /\ p <> q.

(** The header [kif_encode] leaves behind for a palette of [NumberOfColors]
    colours and [num_rle_entries] run-length entries. *)
Definition encoded_header (Header : KIFHeader) (NumberOfColors num_rle_entries : Z)
    : KIFHeader :=
  mkHeader kif1 4 0 (uint16 NumberOfColors) (Width Header) (Height Header)
           (uint32 num_rle_entries).

Definition kif_rgba_eq_dec (c d : kif_rgba_t) : {c = d} + {c <> d}.
Proof.
  decide equality; apply Byte.byte_eq_dec.
Defined.

(** The number of distinct colours of an image, the reserved transparent
    black included. *)
Definition distinct_colours (pixels : list kif_rgba_t) : Z :=
  Z.of_nat (length (nodup kif_rgba_eq_dec (black :: pixels))).

(** ** Sample inputs *)

(** An allocator that never fails. *)
Definition always (size : Z) : bool := true.

(** The colour (10, 20, 30, 255). *)
Definition solid : kif_rgba_t := mkRGBA x0a x14 x1e xff.

(** The colour whose 32-bit value is [z]. *)
Definition colour_of (z : Z) : kif_rgba_t :=
  mkRGBA (uchar z) (uchar (Z.shiftr z 8)) (uchar (Z.shiftr z 16)) (uchar (Z.shiftr z 24)).

Definition header_1x1 : KIFHeader := mkHeader 0 0 0 0 1 1 0.
Definition header_3x1 : KIFHeader := mkHeader 0 0 0 0 3 1 0.
Definition header_2x2 : KIFHeader := mkHeader 0 0 0 0 2 2 0.

(** Three pixels of [solid], a fourth word of the same value, a black word. *)
Definition solid_row : list kif_rgba_t := [solid; solid; solid; solid; black].

(** A 2 x 2 image of two colours, followed by a black word. *)
Definition checker : list kif_rgba_t :=
  [solid; colour_of 255; colour_of 255; solid; black].

(** [n] pixels of the distinct colours 1, 2, ..., n. *)
Definition ramp (n : Z) : list kif_rgba_t :=
  map (fun k => colour_of (Z.of_nat k)) (seq 1 (Z.to_nat n)).

Definition header_65535x1 : KIFHeader := mkHeader 0 0 0 0 65535 1 0.
Definition header_256x256 : KIFHeader := mkHeader 0 0 0 0 256 256 0.

(** The file of the 1 x 1 image of [solid], its header, and the same file
    with another magic number. *)
Definition header_solid : KIFHeader := mkHeader kif1 4 0 2 1 1 1.

Definition sample_file : list byte :=
  header_bytes header_solid ++ palette_bytes [black; solid] ++ encoded_bytes [mkRLE x01 x01].

Definition sample_file_other_magic : list byte :=
  header_bytes (mkHeader 0x12345678 4 0 2 1 1 1) ++ palette_bytes [black; solid] ++
  encoded_bytes [mkRLE x01 x01].

Definition encoded_solid : encoded := mkEncoded sample_file 26 header_solid.

(** A header that declares 2 palette entries and 1 run-length entry, with
    nothing after it. *)
Definition short_file : list byte := header_bytes header_solid.

(** ** Definitions for the properties beyond the specification's sentences *)

(** The colour the decoder gives back for a colour [c] of the image: the
    encoder stores the index [_in_palette] finds in one byte, and the decoder
    looks that byte up in the palette. *)
Definition palette_alias (Palette : list kif_rgba_t) (c : kif_rgba_t) : kif_rgba_t :=
  nth (Z.to_nat (_in_palette c Palette mod 256)) Palette black.

(** Runs as a greedy scan leaves them: a run is followed by a run of another
    colour unless it has reached the cap of 255 pixels. *)
Fixpoint greedy (runs : list run) : Prop :=
  match runs with
  | rn :: (rn' :: _) as rest => (snd rn = 255 \/ fst rn <> fst rn') /\ greedy rest
  | _ => True
  end.

(** A pixel buffer of 255 pixels of one colour, with nothing after it. *)
Definition solid_255 : list kif_rgba_t := repeat solid 255.

Definition header_255x1 : KIFHeader := mkHeader 0 0 0 0 255 1 0.

Definition encoded_255 : encoded :=
  mkEncoded
    (header_bytes (mkHeader kif1 4 0 2 255 1 1) ++ palette_bytes [black; solid] ++
     encoded_bytes [mkRLE x01 xff])
    26 (mkHeader kif1 4 0 2 255 1 1).

(** What decoding [sample_file] at depth 32 returns. *)
Definition decoded_solid : decoded := mkDecoded (rgba_bytes solid) header_solid.


(** The palette of [checker], and what [kif_encode] returns for it. *)
Definition checker_palette : list kif_rgba_t := [black; solid; colour_of 255].

Definition header_checker : KIFHeader := mkHeader kif1 4 0 3 2 2 3.

Definition encoded_checker : encoded :=
  mkEncoded
    (header_bytes header_checker ++ palette_bytes checker_palette ++
     encoded_bytes [mkRLE x01 x01; mkRLE x02 x02; mkRLE x01 x01])
    34 header_checker.

(** 300 pixels of 300 colours, followed by a black word. *)
Definition ramp_300 : list kif_rgba_t := ramp 300 ++ [black].

Definition header_300x1 : KIFHeader := mkHeader 0 0 0 0 300 1 0.

(** A header alone, for an image of 32768 x 32768 pixels. *)
Definition huge_file : list byte := header_bytes (mkHeader kif1 4 0 0 32768 32768 0).

(** No file at all, a file name, and an [fopen] that succeeds. *)
Definition no_files : file_system := fun _ => None.

Module FileNames.
Import Strings.String.
Definition icon : string := "icon.kif"%string.
End FileNames.

Definition icon_kif : String.string := FileNames.icon.

Definition opens (name : String.string) : bool := true.

(** What [kif_write] leaves after writing the 1 x 1 image of [solid]. *)
Definition written_solid : written :=
  mkWritten 26 (fs_store (fs_store no_files icon_kif []) icon_kif sample_file).

(** The well-formed file of the image of 0 x 0 pixels, and an allocator that
    returns NULL for a request of 0 bytes, as the C standard allows. *)
Definition header_0x0 : KIFHeader := mkHeader kif1 4 0 1 0 0 0.

Definition empty_file : list byte := header_bytes header_0x0 ++ palette_bytes [black].

Definition no_empty_block (size : Z) : bool := 0 <? size.

(** A header alone, for a 1 x 1 image without palette and entries, and an
    allocator that has run out of memory. *)
Definition header_only_file : list byte := header_bytes (mkHeader kif1 4 0 0 1 1 0).

Definition out_of_memory (size : Z) : bool := false.
(** * Properties *)

Lemma Ret_inj {A} (x y : A) : Ret x = Ret y -> x = y.
Proof. intros H; injection H; auto. Qed.

(** ** Bytes and words *)

Lemma u8_range x : 0 <= u8 x < 256.
Proof.
  unfold u8. pose proof (Byte.to_N_bounded x). lia.
Qed.

Lemma uchar_u8 x : uchar (u8 x) = x.
Proof.
  unfold uchar. rewrite Z.mod_small by apply u8_range.
  unfold u8. rewrite N2Z.id, Byte.of_to_N. reflexivity.
Qed.

Lemma u8_uchar z : u8 (uchar z) = z mod 256.
Proof.
  unfold uchar, u8.
  pose proof (Z.mod_pos_bound z 256 ltac:(lia)) as Hb.
  destruct (Byte.of_N (Z.to_N (z mod 256))) as [y|] eqn:E.
  - apply Byte.to_of_N in E. rewrite E. lia.
  - apply Byte.of_N_None_iff in E. lia.
Qed.

Lemma u8_inj x y : u8 x = u8 y -> x = y.
Proof.
  intros H. rewrite <- (uchar_u8 x), <- (uchar_u8 y), H. reflexivity.
Qed.

Lemma lor_shiftl_add x y n :
  0 <= n -> 0 <= x < 2 ^ n -> Z.lor x (Z.shiftl y n) = x + y * 2 ^ n.
Proof.
  intros Hn Hx.
  assert (Hland : Z.land x (Z.shiftl y n) = 0).
  { apply Z.bits_inj'. intros k Hk. rewrite Z.land_spec, Z.bits_0.
    destruct (Z.lt_ge_cases k n) as [Hlt|Hge].
    - rewrite Z.shiftl_spec_low by assumption. apply andb_false_r.
    - rewrite <- (Z.mod_small x (2 ^ n)) by assumption.
      rewrite Z.mod_pow2_bits_high by lia. reflexivity. }
  rewrite <- Z.lxor_lor by assumption.
  rewrite <- Z.add_nocarry_lxor by assumption.
  rewrite Z.shiftl_mul_pow2 by assumption. reflexivity.
Qed.

Lemma v_sum c :
  v c = u8 (r c) + u8 (g c) * 256 + u8 (b c) * 65536 + u8 (a c) * 16777216.
Proof.
  unfold v.
  pose proof (u8_range (r c)). pose proof (u8_range (g c)).
  pose proof (u8_range (b c)). pose proof (u8_range (a c)).
  rewrite (lor_shiftl_add (u8 (r c)) (u8 (g c)) 8) by lia.
  rewrite (lor_shiftl_add _ (u8 (b c)) 16) by lia.
  rewrite (lor_shiftl_add _ (u8 (a c)) 24) by lia.
  reflexivity.
Qed.

Lemma v_range c : 0 <= v c < 4294967296.
Proof.
  rewrite v_sum.
  pose proof (u8_range (r c)). pose proof (u8_range (g c)).
  pose proof (u8_range (b c)). pose proof (u8_range (a c)). lia.
Qed.

Lemma v_inj c d : v c = v d -> c = d.
Proof.
  rewrite !v_sum. intros H.
  pose proof (u8_range (r c)). pose proof (u8_range (g c)).
  pose proof (u8_range (b c)). pose proof (u8_range (a c)).
  pose proof (u8_range (r d)). pose proof (u8_range (g d)).
  pose proof (u8_range (b d)). pose proof (u8_range (a d)).
  destruct c as [r1 g1 b1 a1], d as [r2 g2 b2 a2]; simpl in *.
  f_equal; apply u8_inj; lia.
Qed.

Lemma v_eqb_eq c d : (v c =? v d) = true <-> c = d.
Proof.
  rewrite Z.eqb_eq. split; [apply v_inj | intros ->; reflexivity].
Qed.

Lemma v_black : v black = 0.
Proof. reflexivity. Qed.

(** ** Reading buffers *)

Lemma load_nth {A} (buffer : list A) (k : nat) :
  load buffer (Z.of_nat k) =
  match nth_error buffer k with Some x => Ret x | None => Undefined end.
Proof.
  unfold load. destruct (Z.ltb_spec (Z.of_nat k) 0); [lia|].
  rewrite Nat2Z.id. reflexivity.
Qed.

Lemma load_Ret_inv {A} (buffer : list A) k x :
  load buffer k = Ret x -> 0 <= k < Z.of_nat (length buffer) /\
                           nth_error buffer (Z.to_nat k) = Some x.
Proof.
  unfold load. destruct (Z.ltb_spec k 0); [discriminate|].
  destruct (nth_error buffer (Z.to_nat k)) eqn:E; [|discriminate].
  intros H0; inversion H0; subst.
  assert (Z.to_nat k < length buffer)%nat by (apply nth_error_Some; congruence).
  split; [lia | reflexivity].
Qed.

Lemma load_outside {A} (buffer : list A) k :
  Z.of_nat (length buffer) <= k -> load buffer k = Undefined.
Proof.
  intros H. unfold load. destruct (Z.ltb_spec k 0); [reflexivity|].
  assert (E : nth_error buffer (Z.to_nat k) = None) by (apply nth_error_None; lia).
  rewrite E. reflexivity.
Qed.

Lemma load_not_Null {A} (buffer : list A) k : load buffer k <> Null.
Proof.
  unfold load. destruct (k <? 0); [discriminate|].
  destruct (nth_error buffer (Z.to_nat k)); discriminate.
Qed.

Lemma load_app_l {A} (l1 l2 : list A) k :
  0 <= k < Z.of_nat (length l1) -> load (l1 ++ l2) k = load l1 k.
Proof.
  intros H. unfold load. destruct (Z.ltb_spec k 0); [reflexivity|].
  rewrite nth_error_app1 by lia. reflexivity.
Qed.

Lemma load_app_r {A} (l1 l2 : list A) k :
  Z.of_nat (length l1) <= k -> load (l1 ++ l2) k = load l2 (k - Z.of_nat (length l1)).
Proof.
  intros H. unfold load.
  destruct (Z.ltb_spec k 0); [lia|].
  destruct (Z.ltb_spec (k - Z.of_nat (length l1)) 0); [lia|].
  rewrite nth_error_app2 by lia.
  replace (Z.to_nat (k - Z.of_nat (length l1))) with (Z.to_nat k - length l1)%nat by lia.
  reflexivity.
Qed.

(** ** The decoder never looks at the magic number *)

Ltac bind_cases :=
  match goal with
  | |- bind ?c _ = bind ?c _ => destruct c; cbn [bind]; try reflexivity
  end.

Ltac load_cases d :=
  repeat match goal with
  | |- context [bind (load d ?k) _] =>
      let E := fresh "E" in
      destruct (load d k) as [?| |] eqn:E; cbn [bind];
      [ | exfalso; exact (load_not_Null _ _ E) | ]
  end.

Lemma skipn_loads_agree (d1 d2 : list byte) :
  skipn 4 d1 = skipn 4 d2 -> loads_agree_from 4 d1 d2.
Proof.
  intros Hs k Hk. unfold load.
  destruct (Z.ltb_spec k 0); [lia|].
  replace (Z.to_nat k) with (4 + (Z.to_nat k - 4))%nat by lia.
  rewrite <- !nth_error_skipn, Hs. reflexivity.
Qed.

Lemma read_palette_agree d1 d2 n :
  loads_agree_from 4 d1 d2 ->
  forall i, 0 <= i -> read_palette d1 n i = read_palette d2 n i.
Proof.
  intros Hag. induction n as [|n IH]; intros i Hi; cbn [read_palette]; [reflexivity|].
  unfold sizeof_KIFHeader.
  rewrite !(Hag (16 + i * 4)), !(Hag (16 + i * 4 + 1)), !(Hag (16 + i * 4 + 2)),
    !(Hag (16 + i * 4 + 3)) by lia.
  rewrite IH by lia. reflexivity.
Qed.

Lemma decode_runs_agree d1 d2 Palette pal bpp ok cap n :
  loads_agree_from 4 d1 d2 -> 0 <= pal ->
  forall i Decoded, 0 <= i ->
    decode_runs d1 Palette pal bpp ok cap n i Decoded =
    decode_runs d2 Palette pal bpp ok cap n i Decoded.
Proof.
  intros Hag Hpal. induction n as [|n IH]; intros i Decoded Hi; cbn [decode_runs]; [reflexivity|].
  unfold sizeof_KIFHeader.
  rewrite !(Hag (16 + pal * 4 + i * 2)), !(Hag (16 + pal * 4 + i * 2 + 1)) by lia.
  destruct (INT_MAX <? i * 2); [reflexivity|].
  do 3 bind_cases. apply IH. lia.
Qed.

Lemma read32_short d off :
  0 <= off -> Z.of_nat (length d) <= off + 3 -> _read32bit d off = Undefined.
Proof.
  intros H0 H. unfold _read32bit. rewrite (load_outside d (off + 3)) by lia.
  reflexivity.
Qed.

Lemma read32_long d off :
  0 <= off -> off + 3 < Z.of_nat (length d) -> exists z, _read32bit d off = Ret z.
Proof.
  intros H0 H. unfold _read32bit.
  assert (Hl : forall k, 0 <= k <= off + 3 -> exists x, load d k = Ret x).
  { intros k Hk. unfold load. destruct (Z.ltb_spec k 0); [lia|].
    destruct (nth_error d (Z.to_nat k)) eqn:E; [eauto|].
    apply nth_error_None in E. lia. }
  destruct (Hl (off + 3)) as [x3 ->]; [lia|].
  destruct (Hl (off + 2)) as [x2 ->]; [lia|].
  destruct (Hl (off + 1)) as [x1 ->]; [lia|].
  destruct (Hl off) as [x0 ->]; [lia|].
  cbn [bind]. eauto.
Qed.

Lemma uint16_nonneg z : 0 <= uint16 z.
Proof. unfold uint16. pose proof (Z.mod_pos_bound z 65536). lia. Qed.

Lemma read16_nonneg d off z : _read16bit d off = Ret z -> 0 <= z < 65536.
Proof.
  unfold _read16bit. intros H.
  destruct (load d (off + 1)); try discriminate.
  destruct (load d off); try discriminate.
  cbn [bind] in H. inversion H. unfold uint16.
  apply Z.mod_pos_bound. lia.
Qed.

Lemma read_header_agree d1 d2 :
  length d1 = length d2 -> loads_agree_from 4 d1 d2 ->
  match read_header d1, read_header d2 with
  | Ret h1, Ret h2 => same_but_Magic h1 h2 /\ 0 <= palEntries h1
  | Undefined, Undefined => True
  | _, _ => False
  end.
Proof.
  intros Hlen Hag. unfold read_header.
  destruct (Z.le_gt_cases (Z.of_nat (length d1)) 3) as [Hs|Hl].
  - rewrite (read32_short d1 0), (read32_short d2 0) by lia. exact I.
  - destruct (read32_long d1 0) as [m1 ->]; [lia|lia|].
    destruct (read32_long d2 0) as [m2 ->]; [lia|lia|].
    cbn [bind]. unfold _read32bit, _read16bit.
    rewrite !(Hag 4), !(Hag 5), !(Hag (6 + 1)), !(Hag 6), !(Hag (8 + 1)), !(Hag 8),
      !(Hag (10 + 1)), !(Hag 10), !(Hag (12 + 3)), !(Hag (12 + 2)), !(Hag (12 + 1)),
      !(Hag 12) by lia.
    load_cases d2; try exact I.
    unfold same_but_Magic; cbn. repeat split; try reflexivity.
    apply uint16_nonneg.
Qed.

Lemma read_header_Magic d h : read_header d = Ret h -> _read32bit d 0 = Ret (Magic h).
Proof.
  unfold read_header.
  destruct (_read32bit d 0) as [m| |]; cbn [bind]; try discriminate.
  destruct (load d 4); cbn [bind]; try discriminate.
  destruct (load d 5); cbn [bind]; try discriminate.
  destruct (_read16bit d 6); cbn [bind]; try discriminate.
  destruct (_read16bit d 8); cbn [bind]; try discriminate.
  destruct (_read16bit d 10); cbn [bind]; try discriminate.
  destruct (_read32bit d 12); cbn [bind]; try discriminate.
  intros H; inversion H. reflexivity.
Qed.

(** C9. [kif_decode] does not validate the magic number: on two input
    buffers that differ only in bytes 0 to 3 it succeeds or fails alike,
    returns the same pixels, and the headers it fills differ at most in
    [Magic], which holds the first four bytes of each buffer. *)
Theorem kif_decode_ignores_magic malloc (d1 d2 : list byte) (Header : option KIFHeader)
    (OutputBPP : Z) :
  length d1 = length d2 -> skipn 4 d1 = skipn 4 d2 ->
  decode_agree (kif_decode malloc (Some d1) Header OutputBPP)
               (kif_decode malloc (Some d2) Header OutputBPP) /\
  (forall x1, kif_decode malloc (Some d1) Header OutputBPP = Ret x1 ->
     _read32bit d1 0 = Ret (Magic (HeaderRead x1))).
Proof.
  intros Hlen Hskip.
  pose proof (skipn_loads_agree d1 d2 Hskip) as Hag.
  split.
  - unfold kif_decode. destruct Header as [h0|]; [|exact I].
    destruct (negb (OutputBPP =? 24) && negb (OutputBPP =? 32)); [exact I|].
    pose proof (read_header_agree d1 d2 Hlen Hag) as Hh.
    destruct (read_header d1) as [h1| |], (read_header d2) as [h2| |];
      try contradiction; cbn [bind]; try exact I.
    destruct Hh as [Hsame Hpal].
    destruct Hsame as (HB & HC & HP & HW & HH & HR).
    rewrite <- HP, <- HW, <- HH, <- HR.
    destruct (negb (malloc (palEntries h1 * sizeof_kif_rgba_t)) && (0 <? palEntries h1));
      [exact I|].
    rewrite (read_palette_agree d1 d2 _ Hag 0) by lia.
    destruct (read_palette d2 (Z.to_nat (palEntries h1)) 0) as [Palette| |];
      cbn [bind]; try exact I.
    destruct (INT_MAX <? Width h1 * Height h1 * 4); [exact I|].
    rewrite (decode_runs_agree d1 d2 Palette (palEntries h1) OutputBPP _ _ _ Hag Hpal 0 [])
      by lia.
    destruct (decode_runs d2 _ _ _ _ _ _ _ _) as [Decoded| |]; cbn [bind]; try exact I.
    destruct (malloc (Width h1 * Height h1 * 4)); [|exact I].
    cbn. repeat split; assumption.
  - intros x1. unfold kif_decode. destruct Header as [h0|]; [|discriminate].
    destruct (negb (OutputBPP =? 24) && negb (OutputBPP =? 32)); [discriminate|].
    destruct (read_header d1) as [h1| |] eqn:Hh; cbn [bind]; try discriminate.
    apply read_header_Magic in Hh. intros H.
    repeat match type of H with
    | bind ?c _ = _ => destruct c; cbn [bind] in H; try discriminate
    | (if ?c then _ else _) = _ => destruct c; try discriminate
    end.
    inversion H. exact Hh.
Qed.

(** ** What the decoder reads *)

Lemma read16_not_Null d off : _read16bit d off <> Null.
Proof.
  unfold _read16bit. load_cases d; discriminate.
Qed.

Lemma read32_not_Null d off : _read32bit d off <> Null.
Proof.
  unfold _read32bit. load_cases d; discriminate.
Qed.

Lemma read16_Ret_inv d off z :
  0 <= off -> _read16bit d off = Ret z -> off + 1 < Z.of_nat (length d).
Proof.
  intros Hoff. unfold _read16bit.
  destruct (load d (off + 1)) eqn:E; cbn [bind]; try discriminate.
  apply load_Ret_inv in E. lia.
Qed.

Lemma read32_Ret_inv d off z :
  0 <= off -> _read32bit d off = Ret z ->
  off + 3 < Z.of_nat (length d) /\ 0 <= z < 4294967296.
Proof.
  intros Hoff. unfold _read32bit.
  destruct (load d (off + 3)) eqn:E; cbn [bind]; try discriminate.
  apply load_Ret_inv in E.
  destruct (load d (off + 2)); cbn [bind]; try discriminate.
  destruct (load d (off + 1)); cbn [bind]; try discriminate.
  destruct (load d off); cbn [bind]; try discriminate.
  intros H; inversion H. split; [lia|]. unfold uint32. apply Z.mod_pos_bound. lia.
Qed.

Lemma read_header_not_Null d : read_header d <> Null.
Proof.
  unfold read_header.
  destruct (_read32bit d 0) eqn:E0; cbn [bind];
    [ | exfalso; exact (read32_not_Null _ _ E0) | discriminate ].
  load_cases d; try discriminate.
  destruct (_read16bit d 6) eqn:E6; cbn [bind];
    [ | exfalso; exact (read16_not_Null _ _ E6) | discriminate ].
  destruct (_read16bit d 8) eqn:E8; cbn [bind];
    [ | exfalso; exact (read16_not_Null _ _ E8) | discriminate ].
  destruct (_read16bit d 10) eqn:E10; cbn [bind];
    [ | exfalso; exact (read16_not_Null _ _ E10) | discriminate ].
  destruct (_read32bit d 12) eqn:E12; cbn [bind];
    [ | exfalso; exact (read32_not_Null _ _ E12) | discriminate ].
  discriminate.
Qed.

Lemma read_header_Ret_inv d h :
  read_header d = Ret h -> 16 <= Z.of_nat (length d) /\ header_in_range h.
Proof.
  unfold read_header.
  destruct (_read32bit d 0) as [m| |] eqn:E0; cbn [bind]; try discriminate.
  destruct (load d 4) as [x4| |]; cbn [bind]; try discriminate.
  destruct (load d 5) as [x5| |]; cbn [bind]; try discriminate.
  destruct (_read16bit d 6) as [p| |] eqn:E6; cbn [bind]; try discriminate.
  destruct (_read16bit d 8) as [w| |] eqn:E8; cbn [bind]; try discriminate.
  destruct (_read16bit d 10) as [h'| |] eqn:E10; cbn [bind]; try discriminate.
  destruct (_read32bit d 12) as [n| |] eqn:E12; cbn [bind]; try discriminate.
  intros H; inversion H; subst h.
  apply read32_Ret_inv in E0, E12; try lia.
  apply read16_nonneg in E6, E8, E10.
  pose proof (u8_range x4). pose proof (u8_range x5).
  unfold header_in_range; cbn. lia.
Qed.

Lemma read_header_short d :
  Z.of_nat (length d) < 16 -> read_header d = Undefined.
Proof.
  intros Hs. destruct (read_header d) as [h| |] eqn:E.
  - apply read_header_Ret_inv in E. lia.
  - exfalso. exact (read_header_not_Null _ E).
  - reflexivity.
Qed.

Lemma read_palette_not_Null d n : forall i, read_palette d n i <> Null.
Proof.
  induction n as [|n IH]; intros i; cbn [read_palette]; [discriminate|].
  load_cases d; try discriminate.
  destruct (read_palette d n (i + 1)) eqn:Er; cbn [bind]; try discriminate.
  exfalso. exact (IH _ Er).
Qed.

Lemma read_palette_length d n :
  forall i Palette, read_palette d n i = Ret Palette -> length Palette = n.
Proof.
  induction n as [|n IH]; intros i Palette; cbn [read_palette].
  - intros H; inversion H. reflexivity.
  - load_cases d; try discriminate.
    destruct (read_palette d n (i + 1)) eqn:Er; cbn [bind]; try discriminate.
    intros H; inversion H. simpl. f_equal. eapply IH; eauto.
Qed.

Lemma read_palette_short d n :
  forall i, 0 <= i -> (0 < n)%nat ->
    Z.of_nat (length d) < 16 + 4 * (i + Z.of_nat n) ->
    read_palette d n i = Undefined.
Proof.
  induction n as [|n IH]; intros i Hi Hn Hlen; [lia|].
  cbn [read_palette]. unfold sizeof_KIFHeader.
  destruct n as [|n].
  - rewrite (load_outside d (16 + i * 4 + 3)) by lia.
    load_cases d; reflexivity.
  - rewrite (IH (i + 1)) by lia.
    load_cases d; reflexivity.
Qed.

Lemma store_not_Null ok cap Decoded x : store ok cap Decoded x <> Null.
Proof.
  unfold store. destruct (ok && _); discriminate.
Qed.

Lemma emit_run_not_Null Palette bpp ok cap index n :
  forall Decoded, emit_run Palette bpp ok cap index n Decoded <> Null.
Proof.
  induction n as [|n IH]; intros Decoded; cbn [emit_run]; [discriminate|].
  destruct (load Palette index) as [c| |] eqn:E; cbn [bind];
    [ | exfalso; exact (load_not_Null _ _ E) | discriminate ].
  unfold store.
  repeat match goal with
  | |- context [if ?c then _ else _] => destruct c; cbn [bind]; try discriminate
  end; apply IH.
Qed.

Lemma decode_runs_not_Null d Palette pal bpp ok cap n :
  forall i Decoded, decode_runs d Palette pal bpp ok cap n i Decoded <> Null.
Proof.
  induction n as [|n IH]; intros i Decoded; cbn [decode_runs]; [discriminate|].
  destruct (INT_MAX <? i * 2); [discriminate|].
  load_cases d; try discriminate.
  destruct (emit_run _ _ _ _ _ _ _) eqn:Er; cbn [bind]; try discriminate.
  - apply IH.
  - exfalso. exact (emit_run_not_Null _ _ _ _ _ _ _ Er).
Qed.

Lemma decode_runs_short d Palette pal bpp ok cap n :
  0 <= pal ->
  forall i Decoded, 0 <= i -> (0 < n)%nat ->
    Z.of_nat (length d) < 16 + 4 * pal + 2 * (i + Z.of_nat n) ->
    decode_runs d Palette pal bpp ok cap n i Decoded = Undefined.
Proof.
  intros Hpal. induction n as [|n IH]; intros i Decoded Hi Hn Hlen; [lia|].
  cbn [decode_runs]. unfold sizeof_KIFHeader.
  destruct (INT_MAX <? i * 2); [reflexivity|].
  destruct n as [|n].
  - rewrite (load_outside d (16 + pal * 4 + i * 2 + 1)) by lia.
    load_cases d; reflexivity.
  - load_cases d; try reflexivity.
    destruct (emit_run _ _ _ _ _ _ _) eqn:Er; cbn [bind]; try reflexivity.
    + apply IH; lia.
    + exfalso. exact (emit_run_not_Null _ _ _ _ _ _ _ Er).
Qed.

(** C5, as the code has it.  [kif_decode] receives no buffer length and
    has no malformed-input result: on a buffer shorter than its header
    declares (or shorter than a header), a call with valid arguments reads
    past the end of the buffer, whatever the allocator does. *)
Theorem kif_decode_short_buffer_undefined malloc (d : list byte) (Header : KIFHeader)
    (OutputBPP : Z) :
  OutputBPP = 24 \/ OutputBPP = 32 ->
  (Z.of_nat (length d) < 16 \/
   exists h, read_header d = Ret h /\
     Z.of_nat (length d) < 16 + 4 * palEntries h + 2 * RLEEntries h) ->
  kif_decode malloc (Some d) (Some Header) OutputBPP = Undefined.
Proof.
  intros Hbpp Hshort. unfold kif_decode.
  assert (Hg : negb (OutputBPP =? 24) && negb (OutputBPP =? 32) = false).
  { destruct Hbpp; subst; reflexivity. }
  rewrite Hg. clear Hg.
  destruct Hshort as [Hs | (h & Hh & Hs)].
  - rewrite read_header_short by assumption. reflexivity.
  - rewrite Hh. cbn [bind].
    apply read_header_Ret_inv in Hh. destruct Hh as [H16 Hr].
    destruct Hr as (_ & _ & _ & Hp & _ & _ & Hn).
    destruct (negb (malloc _) && _); [reflexivity|].
    destruct (Z.lt_ge_cases (Z.of_nat (length d)) (16 + 4 * palEntries h)) as [Hlt|Hge].
    + rewrite read_palette_short by lia. reflexivity.
    + destruct (read_palette d (Z.to_nat (palEntries h)) 0) as [Palette| |] eqn:E;
        cbn [bind]; [ | exfalso; exact (read_palette_not_Null _ _ _ E) | reflexivity ].
      destruct (INT_MAX <? Width h * Height h * 4); [reflexivity|].
      rewrite decode_runs_short by lia. reflexivity.
Qed.

(** X14.  The decoder computes the size of its allocation in [int]: an image of
    more than [INT_MAX / 4] pixels overflows it. *)
Lemma kif_decode_size_overflow malloc d Header OutputBPP h :
  OutputBPP = 24 \/ OutputBPP = 32 ->
  read_header d = Ret h -> INT_MAX < Width h * Height h * 4 ->
  kif_decode malloc (Some d) (Some Header) OutputBPP = Undefined.
Proof.
  intros Hbpp Hh Hbig. unfold kif_decode.
  assert (Hg : negb (OutputBPP =? 24) && negb (OutputBPP =? 32) = false)
    by (destruct Hbpp; subst; reflexivity).
  rewrite Hg, Hh. cbn [bind].
  destruct (negb (malloc _) && _); [reflexivity|].
  destruct (read_palette d (Z.to_nat (palEntries h)) 0) as [Palette| |] eqn:E;
    cbn [bind]; [ | exfalso; exact (read_palette_not_Null _ _ _ E) | reflexivity ].
  destruct (Z.ltb_spec INT_MAX (Width h * Height h * 4)); [reflexivity | lia].
Qed.

(** ** Reading back what [memcpy] wrote *)

Lemma lor_mul_add k y n :
  0 <= n -> 0 <= y < 2 ^ n -> Z.lor (k * 2 ^ n) y = k * 2 ^ n + y.
Proof.
  intros Hn Hy. rewrite Z.lor_comm, <- Z.shiftl_mul_pow2 by assumption.
  rewrite lor_shiftl_add by assumption. rewrite Z.shiftl_mul_pow2 by assumption. lia.
Qed.

Lemma word16_of_bytes z :
  0 <= z < 65536 ->
  uint16 (Z.lor (Z.shiftl (u8 (uchar (Z.shiftr z 8))) 8) (u8 (uchar z))) = z.
Proof.
  intros Hz. rewrite !u8_uchar, Z.shiftr_div_pow2, Z.shiftl_mul_pow2 by lia.
  rewrite lor_mul_add by (try apply Z.mod_pos_bound; lia).
  unfold uint16. change (2 ^ 8) with 256.
  pose proof (Z.div_mod z 256 ltac:(lia)). pose proof (Z.mod_pos_bound z 256 ltac:(lia)).
  rewrite (Z.mod_small (z / 256)) by lia. rewrite Z.mod_small by lia. lia.
Qed.

Lemma word32_of_bytes z :
  0 <= z < 4294967296 ->
  uint32 (Z.lor (Z.lor (Z.lor (Z.shiftl (u8 (uchar (Z.shiftr z 24))) 24)
                              (Z.shiftl (u8 (uchar (Z.shiftr z 16))) 16))
                       (Z.shiftl (u8 (uchar (Z.shiftr z 8))) 8))
                (u8 (uchar z))) = z.
Proof.
  intros Hz. rewrite !u8_uchar, !Z.shiftr_div_pow2, !Z.shiftl_mul_pow2 by lia.
  change (2 ^ 8) with 256. change (2 ^ 16) with 65536. change (2 ^ 24) with 16777216.
  set (b0 := z mod 256). set (b1 := (z / 256) mod 256).
  set (b2 := (z / 65536) mod 256). set (b3 := (z / 16777216) mod 256).
  assert (0 <= b0 < 256 /\ 0 <= b1 < 256 /\ 0 <= b2 < 256 /\ 0 <= b3 < 256)
    as (H0 & H1 & H2 & H3)
    by (subst b0 b1 b2 b3; repeat split; apply Z.mod_pos_bound; lia).
  assert (Hsum : b3 * 16777216 + b2 * 65536 + b1 * 256 + b0 = z).
  { subst b0 b1 b2 b3.
    replace (z / 65536) with (z / 256 / 256) by (rewrite Z.div_div by lia; reflexivity).
    replace (z / 16777216) with (z / 256 / 256 / 256)
      by (rewrite !Z.div_div by lia; reflexivity).
    Z.div_mod_to_equations. lia. }
  replace (b3 * 16777216) with ((b3 * 256) * 2 ^ 16) by lia.
  replace (b2 * 65536) with (b2 * 2 ^ 16) by lia.
  rewrite <- !Z.shiftl_mul_pow2, <- Z.shiftl_lor by lia.
  rewrite Z.shiftl_mul_pow2 by lia.
  replace (b3 * 256) with (b3 * 2 ^ 8) by lia.
  rewrite (lor_mul_add b3 b2 8) by lia.
  replace ((b3 * 2 ^ 8 + b2) * 2 ^ 16) with (((b3 * 2 ^ 8 + b2) * 256) * 2 ^ 8) by lia.
  replace (b1 * 256) with (b1 * 2 ^ 8) by lia.
  rewrite <- !Z.shiftl_mul_pow2, <- Z.shiftl_lor by lia.
  rewrite !Z.shiftl_mul_pow2 by lia.
  replace ((b3 * 2 ^ 8 + b2) * 256) with ((b3 * 2 ^ 8 + b2) * 2 ^ 8) by lia.
  rewrite (lor_mul_add _ b1 8) by lia.
  rewrite (lor_mul_add _ b0 8) by lia.
  unfold uint32. change (2 ^ 8) with 256. rewrite Z.mod_small; lia.
Qed.

Lemma load_at {A} (pre : list A) (x : A) (rest : list A) k :
  k = Z.of_nat (length pre) -> load (pre ++ x :: rest) k = Ret x.
Proof.
  intros ->. rewrite load_nth, nth_error_app2 by lia.
  rewrite Nat.sub_diag. reflexivity.
Qed.

Lemma load_app_off {A} (pre mid : list A) k (j : nat) :
  k = Z.of_nat (length pre) + Z.of_nat j ->
  load (pre ++ mid) k =
  match nth_error mid j with Some x => Ret x | None => Undefined end.
Proof.
  intros ->. rewrite load_app_r by lia. rewrite <- load_nth. f_equal. lia.
Qed.

Lemma header_bytes_length h : length (header_bytes h) = 16%nat.
Proof. reflexivity. Qed.

Lemma read_header_header_bytes h rest :
  header_in_range h -> read_header (header_bytes h ++ rest) = Ret h.
Proof.
  intros (HM & HB & HC & HP & HW & HH & HR).
  unfold read_header, _read32bit, _read16bit, header_bytes, le32, le16.
  cbn [app].
  repeat match goal with
  | |- context [load (?x0 :: ?l) ?k] =>
      let k' := eval cbv in k in
      let n := eval cbv in (Z.to_nat k') in
      change (load (x0 :: l) k) with (load (x0 :: l) (Z.of_nat n));
      rewrite (load_nth (x0 :: l) n); cbn [nth_error bind]
  end.
  rewrite word32_of_bytes, !word16_of_bytes, word32_of_bytes by assumption.
  rewrite !u8_uchar, !Z.mod_small by assumption.
  destruct h; reflexivity.
Qed.

Lemma palette_bytes_length Palette :
  length (palette_bytes Palette) = (4 * length Palette)%nat.
Proof.
  unfold palette_bytes. induction Palette as [|c l IH]; [reflexivity|].
  cbn [flat_map]. rewrite length_app, IH. simpl. lia.
Qed.

Lemma encoded_bytes_length Encoded :
  length (encoded_bytes Encoded) = (2 * length Encoded)%nat.
Proof.
  unfold encoded_bytes. induction Encoded as [|c l IH]; [reflexivity|].
  cbn [flat_map]. rewrite length_app, IH. simpl. lia.
Qed.

Lemma read_palette_palette_bytes Palette :
  forall pre rest i, 0 <= i ->
    Z.of_nat (length pre) = 16 + 4 * i ->
    read_palette (pre ++ palette_bytes Palette ++ rest) (length Palette) i = Ret Palette.
Proof.
  induction Palette as [|c l IH]; intros pre rest i Hi Hpre; [reflexivity|].
  cbn [length read_palette]. unfold sizeof_KIFHeader, palette_bytes.
  cbn [flat_map rgba_bytes app].
  rewrite (load_app_off pre _ _ 0), (load_app_off pre _ _ 1),
    (load_app_off pre _ _ 2), (load_app_off pre _ _ 3) by lia.
  cbn [nth_error bind].
  specialize (IH (pre ++ [r c; g c; b c; a c]) rest (i + 1)).
  unfold palette_bytes in IH. rewrite <- app_assoc in IH. cbn [app] in IH.
  rewrite IH by (try rewrite length_app; cbn [length]; lia).
  cbn [bind]. destruct c; reflexivity.
Qed.

Lemma store_ok cap Decoded x :
  Z.of_nat (length Decoded) < cap -> store true cap Decoded x = Ret (Decoded ++ [x]).
Proof.
  intros H. unfold store. destruct (Z.ltb_spec (Z.of_nat (length Decoded)) cap); [|lia].
  reflexivity.
Qed.

Lemma pixel_bytes_length bpp c : (length (pixel_bytes bpp c) <= 4)%nat.
Proof.
  unfold pixel_bytes. destruct (bpp =? 32); simpl; lia.
Qed.

Lemma emit_pixel_ok bpp cap c Decoded :
  Z.of_nat (length Decoded) + Z.of_nat (length (pixel_bytes bpp c)) <= cap ->
  (Decoded <- store true cap Decoded (r c);;
   Decoded <- store true cap Decoded (g c);;
   Decoded <- store true cap Decoded (b c);;
   (if bpp =? 32 then store true cap Decoded (a c) else Ret Decoded))
  = Ret (Decoded ++ pixel_bytes bpp c).
Proof.
  unfold pixel_bytes. intros H.
  destruct (bpp =? 32); simpl in H.
  - rewrite store_ok by lia. cbn [bind].
    rewrite store_ok by (rewrite length_app; simpl; lia). cbn [bind].
    rewrite store_ok by (rewrite !length_app; simpl; lia). cbn [bind].
    rewrite store_ok by (rewrite !length_app; simpl; lia).
    rewrite <- !app_assoc. reflexivity.
  - rewrite store_ok by lia. cbn [bind].
    rewrite store_ok by (rewrite length_app; simpl; lia). cbn [bind].
    rewrite store_ok by (rewrite !length_app; simpl; lia). cbn [bind].
    rewrite <- !app_assoc. reflexivity.
Qed.

Lemma image_bytes_length_le bpp pixels :
  (length (image_bytes bpp pixels) <= 4 * length pixels)%nat.
Proof.
  unfold image_bytes. induction pixels as [|c l IH]; simpl; [lia|].
  rewrite length_app. pose proof (pixel_bytes_length bpp c). lia.
Qed.

Lemma image_bytes_length bpp pixels :
  bpp = 24 \/ bpp = 32 ->
  Z.of_nat (length (image_bytes bpp pixels)) = Z.of_nat (length pixels) * (bpp / 8).
Proof.
  intros Hb. unfold image_bytes, pixel_bytes.
  induction pixels as [|c l IH]; [reflexivity|].
  cbn [flat_map]. rewrite length_app. cbn [length].
  destruct Hb; subst; cbn in *; lia.
Qed.

Lemma image_bytes_app bpp l1 l2 :
  image_bytes bpp (l1 ++ l2) = image_bytes bpp l1 ++ image_bytes bpp l2.
Proof. unfold image_bytes. apply flat_map_app. Qed.

Lemma emit_run_ok Palette bpp cap index c n :
  load Palette index = Ret c ->
  forall Decoded,
    Z.of_nat (length Decoded) + Z.of_nat (length (image_bytes bpp (repeat c n))) <= cap ->
    emit_run Palette bpp true cap index n Decoded =
    Ret (Decoded ++ image_bytes bpp (repeat c n)).
Proof.
  intros Hl. induction n as [|n IH]; intros Decoded Hcap.
  - simpl. rewrite app_nil_r. reflexivity.
  - cbn [emit_run]. rewrite Hl. cbn [bind].
    cbn [repeat] in *. unfold image_bytes in *. cbn [flat_map] in *.
    rewrite length_app in Hcap.
    pose proof (emit_pixel_ok bpp cap c Decoded ltac:(lia)) as Hp.
    destruct (store true cap Decoded (r c)) as [D1| |]; cbn [bind] in *; try discriminate.
    destruct (store true cap D1 (g c)) as [D2| |]; cbn [bind] in *; try discriminate.
    destruct (store true cap D2 (b c)) as [D3| |]; cbn [bind] in *; try discriminate.
    rewrite Hp. cbn [bind].
    rewrite IH by (rewrite length_app; lia).
    rewrite <- app_assoc. reflexivity.
Qed.

Lemma emit_run_entry Palette bpp cap e Decoded :
  u8 (rle e) = 0 \/ u8 (pID e) < Z.of_nat (length Palette) ->
  Z.of_nat (length Decoded) + Z.of_nat (length (image_bytes bpp (entry_pixels Palette e)))
    <= cap ->
  emit_run Palette bpp true cap (u8 (pID e)) (Z.to_nat (u8 (rle e))) Decoded =
  Ret (Decoded ++ image_bytes bpp (entry_pixels Palette e)).
Proof.
  intros Hv Hcap. unfold entry_pixels in *.
  destruct Hv as [H0|Hlt].
  - rewrite H0. simpl. rewrite app_nil_r. reflexivity.
  - apply emit_run_ok; [|exact Hcap].
    pose proof (u8_range (pID e)).
    replace (u8 (pID e)) with (Z.of_nat (Z.to_nat (u8 (pID e)))) at 1 by lia.
    rewrite load_nth.
    destruct (nth_error Palette (Z.to_nat (u8 (pID e)))) eqn:E.
    + erewrite nth_error_nth by exact E. reflexivity.
    + apply nth_error_None in E. lia.
Qed.

Lemma decode_runs_encoded_bytes Palette pal bpp cap Encoded :
  forall pre rest i Decoded,
    0 <= i -> Z.of_nat (length pre) = 16 + 4 * pal + 2 * i ->
    (i + Z.of_nat (length Encoded)) * 2 <= INT_MAX + 2 ->
    indices_valid Palette Encoded ->
    Z.of_nat (length Decoded) + Z.of_nat (length (image_bytes bpp (expand Palette Encoded)))
      <= cap ->
    decode_runs (pre ++ encoded_bytes Encoded ++ rest) Palette pal bpp true cap
      (length Encoded) i Decoded =
    Ret (Decoded ++ image_bytes bpp (expand Palette Encoded)).
Proof.
  induction Encoded as [|e l IH]; intros pre rest i Decoded Hi Hpre Hmax Hv Hcap.
  - simpl. rewrite app_nil_r. reflexivity.
  - cbn [length decode_runs]. unfold sizeof_KIFHeader.
    cbn [length] in Hmax.
    destruct (Z.ltb_spec INT_MAX (i * 2)); [lia|].
    unfold encoded_bytes. cbn [flat_map rle_bytes app].
    rewrite (load_app_off pre _ _ 0), (load_app_off pre _ _ 1) by lia.
    cbn [nth_error bind].
    inversion Hv as [|? ? He Hl]; subst.
    unfold expand in *. cbn [flat_map] in *. rewrite image_bytes_app in *.
    rewrite length_app in Hcap.
    rewrite emit_run_entry by (assumption || lia). cbn [bind].
    specialize (IH (pre ++ [pID e; rle e]) rest (i + 1)
                  (Decoded ++ image_bytes bpp (entry_pixels Palette e))).
    unfold encoded_bytes in IH. rewrite <- app_assoc in IH. cbn [app] in IH.
    rewrite IH; try assumption; try lia.
    + rewrite <- app_assoc. reflexivity.
    + rewrite length_app. cbn [length]. lia.
    + rewrite length_app. lia.
Qed.

(** ** Decoding a well-formed file *)

Lemma kif_decode_serialized malloc h Palette Encoded rest Header bpp :
  (forall n, malloc n = true) ->
  bpp = 24 \/ bpp = 32 ->
  header_in_range h ->
  Z.of_nat (length Palette) = palEntries h ->
  Z.of_nat (length Encoded) = RLEEntries h ->
  indices_valid Palette Encoded ->
  Z.of_nat (length (expand Palette Encoded)) <= Width h * Height h ->
  Width h * Height h * 4 <= INT_MAX ->
  RLEEntries h * 2 <= INT_MAX ->
  kif_decode malloc
    (Some (header_bytes h ++ palette_bytes Palette ++ encoded_bytes Encoded ++ rest))
    (Some Header) bpp
  = Ret (mkDecoded (image_bytes bpp (expand Palette Encoded)) h).
Proof.
  intros Hm Hbpp Hr Hp He Hv Hpx Hcap Hrle. unfold kif_decode.
  assert (Hg : negb (bpp =? 24) && negb (bpp =? 32) = false)
    by (destruct Hbpp; subst; reflexivity).
  rewrite Hg, read_header_header_bytes by assumption. cbn [bind].
  rewrite !Hm. cbn [negb andb].
  replace (Z.to_nat (palEntries h)) with (length Palette) by lia.
  rewrite read_palette_palette_bytes by (rewrite ?header_bytes_length; lia).
  cbn [bind].
  destruct (Z.ltb_spec INT_MAX (Width h * Height h * 4)); [lia|].
  replace (Z.to_nat (RLEEntries h)) with (length Encoded) by lia.
  rewrite (app_assoc (header_bytes h)).
  pose proof (image_bytes_length_le bpp (expand Palette Encoded)) as Hlen.
  rewrite decode_runs_encoded_bytes; try assumption; try lia.
  - reflexivity.
  - rewrite length_app, header_bytes_length, palette_bytes_length. lia.
  - cbn [length]. lia.
Qed.

Lemma expand_length Palette Encoded :
  Z.of_nat (length (expand Palette Encoded)) = rle_total Encoded.
Proof.
  unfold expand, rle_total. induction Encoded as [|e l IH]; [reflexivity|].
  cbn [flat_map fold_right]. rewrite length_app, Nat2Z.inj_add, IH.
  unfold entry_pixels. rewrite repeat_length. pose proof (u8_range (rle e)). lia.
Qed.

Lemma rle_total_ge_length Encoded :
  Forall (fun e => 1 <= u8 (rle e)) Encoded ->
  Z.of_nat (length Encoded) <= rle_total Encoded.
Proof.
  induction 1 as [|e l He Hl IH]; [reflexivity|].
  unfold rle_total in *. cbn [fold_right length]. lia.
Qed.


(** ** The palette *)

Lemma palette_search_spec Palette c :
  forall i,
    if colour_in c Palette
    then i <= palette_search Palette c i < i + Z.of_nat (length Palette)
    else palette_search Palette c i = i + Z.of_nat (length Palette).
Proof.
  induction Palette as [|p l IH]; intros i; cbn [colour_in existsb palette_search length].
  - lia.
  - destruct (v p =? v c); cbn [orb].
    + lia.
    + specialize (IH (i + 1)). unfold colour_in in IH.
      destruct (existsb _ l); lia.
Qed.

Lemma palette_add_first_seen Palette c :
  palette_add Palette c = first_seen_step Palette c.
Proof.
  unfold palette_add, first_seen_step.
  pose proof (palette_search_spec Palette c 0) as H.
  destruct (colour_in c Palette); cbn [negb andb].
  - destruct (Z.eqb_spec (palette_search Palette c 0) (Z.of_nat (length Palette)));
      [lia | reflexivity].
  - rewrite H, Z.add_0_l, Z.eqb_refl. reflexivity.
Qed.

Lemma skipn_nth_error {A} (l : list A) k x :
  nth_error l k = Some x -> skipn k l = x :: skipn (S k) l.
Proof.
  revert l. induction k as [|k IH]; intros [|y l] H; try discriminate.
  - inversion H. reflexivity.
  - cbn [nth_error] in H. rewrite !skipn_cons. apply IH. exact H.
Qed.

Lemma load_skipn {A} (l : list A) k x :
  load l k = Ret x -> skipn (Z.to_nat k) l = x :: skipn (Z.to_nat (k + 1)) l.
Proof.
  intros H. apply load_Ret_inv in H. destruct H as [Hk Hn].
  replace (Z.to_nat (k + 1)) with (S (Z.to_nat k)) by lia.
  apply skipn_nth_error. exact Hn.
Qed.

Lemma load_inside {A} (l : list A) k :
  0 <= k < Z.of_nat (length l) -> exists x, load l k = Ret x.
Proof.
  intros H. unfold load. destruct (Z.ltb_spec k 0); [lia|].
  destruct (nth_error l (Z.to_nat k)) eqn:E; [eauto|].
  apply nth_error_None in E. lia.
Qed.

Lemma palette_loop_first_seen Data n :
  forall Pos Palette P,
    palette_loop Data n Pos Palette = Ret P ->
    P = fold_left first_seen_step (firstn n (skipn (Z.to_nat Pos) Data)) Palette.
Proof.
  induction n as [|n IH]; intros Pos Palette P H; cbn [palette_loop] in H.
  - inversion H. reflexivity.
  - destruct (load Data Pos) as [c| |] eqn:E; cbn [bind] in H; try discriminate.
    rewrite (load_skipn _ _ _ E). cbn [firstn fold_left].
    rewrite <- palette_add_first_seen. apply IH. exact H.
Qed.

Lemma palette_loop_returns Data n :
  forall Pos Palette,
    0 <= Pos -> Pos + Z.of_nat n <= Z.of_nat (length Data) ->
    exists P, palette_loop Data n Pos Palette = Ret P.
Proof.
  induction n as [|n IH]; intros Pos Palette HPos Hlen; cbn [palette_loop].
  - eauto.
  - destruct (load_inside Data Pos) as [c ->]; [lia|]. cbn [bind].
    apply IH; lia.
Qed.

Lemma colour_in_spec c Palette :
  colour_in c Palette = true <-> In (v c) (map v Palette).
Proof.
  unfold colour_in. rewrite existsb_exists, in_map_iff. split.
  - intros (p & Hin & E). apply Z.eqb_eq in E. eauto.
  - intros (p & E & Hin). exists p. split; [assumption|]. apply Z.eqb_eq. exact E.
Qed.

Lemma first_seen_step_inv Palette c :
  palette_inv Palette -> palette_inv (first_seen_step Palette c).
Proof.
  intros (H0 & Hnd & Hlen). unfold first_seen_step.
  destruct (colour_in c Palette) eqn:Ein; cbn [negb andb]; [repeat split; assumption|].
  destruct (Z.ltb_spec (Z.of_nat (length Palette)) 65536); [|repeat split; assumption].
  repeat split.
  - destruct Palette; [discriminate | exact H0].
  - rewrite map_app. apply NoDup_app; [assumption | repeat constructor; intros [] |].
    intros x Hx [<-|[]]. apply colour_in_spec in Hx. congruence.
  - rewrite length_app. cbn [length]. lia.
Qed.

Lemma fold_first_seen_inv pixels :
  forall Palette, palette_inv Palette ->
    palette_inv (fold_left first_seen_step pixels Palette).
Proof.
  induction pixels as [|c l IH]; intros Palette H; cbn [fold_left]; [assumption|].
  apply IH. apply first_seen_step_inv. assumption.
Qed.

Lemma palette_inv_initial : palette_inv [black].
Proof.
  repeat split; [repeat constructor; intros [] | cbn; lia].
Qed.

Lemma generate_palette_Ret Data Header P :
  _generate_palette Data Header = Ret P ->
  Width Header * Height Header <= INT_MAX /\ P = first_seen_palette (image Data Header).
Proof.
  unfold _generate_palette, first_seen_palette, image.
  destruct (Z.ltb_spec INT_MAX (Width Header * Height Header)); [discriminate|].
  intros H'. split; [assumption|].
  apply palette_loop_first_seen in H'. exact H'.
Qed.

Lemma generate_palette_returns Data Header :
  Width Header * Height Header <= INT_MAX ->
  Width Header * Height Header <= Z.of_nat (length Data) ->
  _generate_palette Data Header = Ret (first_seen_palette (image Data Header)).
Proof.
  intros Hmax Hlen. unfold _generate_palette.
  destruct (Z.ltb_spec INT_MAX (Width Header * Height Header)); [lia|].
  destruct (palette_loop_returns Data (Z.to_nat (Width Header * Height Header)) 0 [black])
    as [P HP]; [lia|lia|].
  rewrite HP. f_equal. apply generate_palette_Ret.
  unfold _generate_palette.
  destruct (Z.ltb_spec INT_MAX (Width Header * Height Header)); [lia|]. exact HP.
Qed.

Lemma colour_in_app c l1 l2 :
  colour_in c (l1 ++ l2) = colour_in c l1 || colour_in c l2.
Proof. unfold colour_in. apply existsb_app. Qed.

Lemma colour_in_In c Palette : colour_in c Palette = true <-> In c Palette.
Proof.
  rewrite colour_in_spec, in_map_iff. split.
  - intros (p & E & Hin). apply v_inj in E. subst p. exact Hin.
  - intros Hin. exists c. split; [reflexivity | exact Hin].
Qed.

Lemma first_seen_step_grows Palette c :
  (length Palette <= length (first_seen_step Palette c))%nat /\
  (forall d, colour_in d Palette = true -> colour_in d (first_seen_step Palette c) = true) /\
  (forall d, In d (first_seen_step Palette c) -> In d Palette \/ d = c) /\
  (Z.of_nat (length Palette) < 65536 -> colour_in c (first_seen_step Palette c) = true).
Proof.
  unfold first_seen_step.
  destruct (colour_in c Palette) eqn:Ein; cbn [negb andb].
  - repeat split; auto.
  - destruct (Z.ltb_spec (Z.of_nat (length Palette)) 65536).
    + split; [rewrite length_app; lia|]. split; [|split].
      * intros d Hd. rewrite colour_in_app, Hd. reflexivity.
      * intros d Hd. apply in_app_or in Hd. destruct Hd as [Hd|[Hd|[]]]; auto.
      * intros _. rewrite colour_in_app. cbn [colour_in existsb].
        rewrite Z.eqb_refl. apply orb_true_r.
    + split; [lia|]. split; [auto|]. split; [auto|]. lia.
Qed.

Lemma fold_first_seen_grows pixels :
  forall Palette,
    let P := fold_left first_seen_step pixels Palette in
    (length Palette <= length P)%nat /\
    (forall d, colour_in d Palette = true -> colour_in d P = true) /\
    (forall d, In d P -> In d Palette \/ In d pixels) /\
    (Z.of_nat (length P) < 65536 -> forall c, In c pixels -> colour_in c P = true).
Proof.
  induction pixels as [|c l IH]; intros Palette; cbn [fold_left In].
  - split; [lia|]. split; [auto|]. split; [auto|]. intros _ c [].
  - destruct (IH (first_seen_step Palette c)) as (Hlen & Hkeep & Hincl & Hall).
    destruct (first_seen_step_grows Palette c) as (Hlen1 & Hkeep1 & Hincl1 & Hc).
    split; [lia|]. split; [auto|]. split.
    + intros d Hd. apply Hincl in Hd. destruct Hd as [Hd|Hd]; [|auto].
      apply Hincl1 in Hd. destruct Hd as [Hd|Hd]; auto.
    + intros Hlt c' [<-|Hc']; [|auto].
      apply Hkeep, Hc. lia.
Qed.

Lemma first_seen_palette_complete pixels c :
  Z.of_nat (length (first_seen_palette pixels)) < 65536 ->
  In c pixels -> colour_in c (first_seen_palette pixels) = true.
Proof.
  intros Hlen. apply (fold_first_seen_grows pixels [black]). exact Hlen.
Qed.

Lemma first_seen_palette_length pixels :
  Z.of_nat (length (first_seen_palette pixels)) <= distinct_colours pixels.
Proof.
  unfold distinct_colours. apply inj_le. apply NoDup_incl_length.
  - pose proof (fold_first_seen_inv pixels [black] palette_inv_initial) as (_ & Hnd & _).
    apply NoDup_map_inv in Hnd. exact Hnd.
  - intros d Hd. apply nodup_In.
    apply (fold_first_seen_grows pixels [black]) in Hd.
    destruct Hd as [[<-|[]]|Hd]; [left; reflexivity | right; exact Hd].
Qed.

Lemma firstn_succ_nth {A} (l : list A) k x :
  nth_error l k = Some x -> firstn (S k) l = firstn k l ++ [x].
Proof.
  revert l. induction k as [|k IH]; intros [|y l] H; try discriminate.
  - inversion H. reflexivity.
  - cbn [nth_error] in H. cbn [firstn app]. f_equal. apply IH. exact H.
Qed.

Lemma first_seen_palette_snoc pixels c :
  let P := first_seen_palette pixels in
  (~ In c P -> Z.of_nat (length P) < 65536 -> first_seen_palette (pixels ++ [c]) = P ++ [c]) /\
  (In c P \/ 65536 <= Z.of_nat (length P) -> first_seen_palette (pixels ++ [c]) = P).
Proof.
  cbn zeta. unfold first_seen_palette. rewrite fold_left_app. cbn [fold_left].
  set (P := fold_left first_seen_step pixels [black]).
  unfold first_seen_step. split.
  - intros Hnot Hlt.
    destruct (colour_in c P) eqn:E; [apply colour_in_In in E; contradiction|].
    destruct (Z.ltb_spec (Z.of_nat (length P)) 65536); [reflexivity | lia].
  - intros [Hin|Hfull].
    + apply colour_in_In in Hin. rewrite Hin. reflexivity.
    + destruct (Z.ltb_spec (Z.of_nat (length P)) 65536); [lia|].
      rewrite andb_false_r. reflexivity.
Qed.

(** C3. The palette [_generate_palette] builds is the first-seen palette of
    the image: it is produced whenever the buffer holds the Width * Height
    pixels of the image, entry 0 is transparent black, no two entries have
    the same 32-bit value, there are at most 65536 entries, and the colours
    come in scan order: the palette after pixel [k] is the palette before it
    with the colour of the pixel appended exactly when that colour is absent
    from it and it has fewer than 65536 entries. *)
Theorem generate_palette_first_seen (Data : list kif_rgba_t) (Header : KIFHeader) :
  Width Header * Height Header <= INT_MAX ->
  Width Header * Height Header <= Z.of_nat (length Data) ->
  exists Palette,
    _generate_palette Data Header = Ret Palette /\
    nth_error Palette 0 = Some black /\
    NoDup (map v Palette) /\
    Z.of_nat (length Palette) <= 65536 /\
    Palette = first_seen_palette (image Data Header) /\
    (forall k c, nth_error (image Data Header) k = Some c ->
       let before := first_seen_palette (firstn k (image Data Header)) in
       let after := first_seen_palette (firstn (S k) (image Data Header)) in
       (~ In c before -> Z.of_nat (length before) < 65536 -> after = before ++ [c]) /\
       (In c before \/ 65536 <= Z.of_nat (length before) -> after = before)).
Proof.
  intros Hmax Hlen. exists (first_seen_palette (image Data Header)).
  pose proof (fold_first_seen_inv (image Data Header) [black] palette_inv_initial)
    as (H0 & Hnd & Hcap).
  split; [apply generate_palette_returns; assumption|].
  split; [exact H0|]. split; [exact Hnd|]. split; [exact Hcap|].
  split; [reflexivity|].
  intros k c Hk. cbn zeta. rewrite (firstn_succ_nth _ _ _ Hk).
  apply first_seen_palette_snoc.
Qed.

(** ** The run-length loops *)

Lemma rle_loop_eq px Palette DataLen i Encoded :
  rle_loop px Palette DataLen i Encoded =
  if i <? DataLen then
    match rle_entry px Palette i with
    | Ret (j, e) => rle_loop px Palette DataLen (j + 1) (Encoded ++ [e])
    | _ => Undefined
    end
  else Ret Encoded.
Proof.
  rewrite rle_loop_equation_1. unfold rle_loop_unfold_clause_1.
  destruct (Z_lt_dec i DataLen) as [H|H]; destruct (Z.ltb_spec i DataLen); try lia;
    [|reflexivity].
  assert (Hgen : forall o (e : rle_entry px Palette i = o),
    rle_loop_unfold_clause_1_clause_2 px Palette DataLen i (exist _ o e) H Encoded =
    match o with
    | Ret (j, e) => rle_loop px Palette DataLen (j + 1) (Encoded ++ [e])
    | _ => Undefined
    end).
  { intros o e. destruct o as [[j e']| |]; reflexivity. }
  apply Hgen.
Qed.

Lemma firstn_add {A} (l : list A) (n m : nat) :
  firstn (n + m) l = firstn n l ++ firstn m (skipn n l).
Proof.
  revert l. induction n as [|n IH]; intros [|x l]; cbn [Nat.add firstn skipn app];
    try reflexivity.
  - rewrite firstn_nil. reflexivity.
  - rewrite IH. reflexivity.
Qed.

Lemma run_scan_spec px Color n :
  forall i rl i' rl', 0 <= i ->
    run_scan px Color n i rl = Ret (i', rl') ->
    firstn (Z.to_nat (i' - i)) (skipn (Z.to_nat i) px) = repeat Color (Z.to_nat (i' - i)) /\
    (i' - i < Z.of_nat n -> exists p, load px i' = Ret p /\ p <> Color).
Proof.
  induction n as [|n IH]; intros i rl i' rl' Hi H; cbn [run_scan] in H.
  - inversion H; subst. rewrite Z.sub_diag. split; [reflexivity | lia].
  - destruct (load px i) as [p| |] eqn:El; cbn [bind] in H; try discriminate.
    destruct (Z.eqb_spec (v Color) (v p)) as [Ev|Ev].
    + destruct (INT_MAX <=? i); [discriminate|].
      apply v_inj in Ev. subst p.
      pose proof (run_scan_advances _ _ _ _ _ _ _ H) as Hadv.
      apply IH in H; [|lia]. destruct H as [Hpx Hnext].
      split.
      * replace (Z.to_nat (i' - i)) with (1 + Z.to_nat (i' - (i + 1)))%nat by lia.
        rewrite firstn_add, (load_skipn _ _ _ El). cbn [firstn skipn app repeat Nat.add].
        rewrite Hpx. reflexivity.
      * intros Hlt. apply Hnext. lia.
    + inversion H; subst. rewrite Z.sub_diag. split; [reflexivity|].
      intros _. exists p. split; [assumption | congruence].
Qed.

Lemma rle_entry_spec px Palette i j e :
  0 <= i -> rle_entry px Palette i = Ret (j, e) ->
  exists Color rl,
    load px i = Ret Color /\ 1 <= rl <= 255 /\ j + 1 = i + rl /\
    e = run_entry Palette (Color, rl) /\
    firstn (Z.to_nat rl) (skipn (Z.to_nat i) px) = repeat Color (Z.to_nat rl) /\
    (rl < 255 -> exists p, load px (i + rl) = Ret p /\ p <> Color).
Proof.
  intros Hi. unfold rle_entry.
  destruct (load px i) as [Color| |] eqn:El; cbn [bind]; try discriminate.
  destruct (run_scan px Color 255 i 0) as [[i' rl]| |] eqn:Es; cbn [bind fst snd];
    try discriminate.
  intros H; inversion H; subst j e. clear H.
  pose proof (run_scan_first px Color 254 i i' rl El Es) as Hfirst.
  pose proof (run_scan_advances _ _ _ _ _ _ _ Es) as Hadv.
  pose proof (run_scan_spec _ _ _ _ _ _ _ Hi Es) as [Hpx Hnext].
  assert (Erl : i' = i + rl) by lia. subst i'.
  replace (i + rl - i) with rl in * by lia.
  exists Color, rl.
  repeat split; try lia; try assumption.
Qed.

Lemma run_total_app runs1 runs2 :
  run_total (runs1 ++ runs2) = run_total runs1 + run_total runs2.
Proof.
  induction runs1 as [|rn l IH]; [reflexivity|].
  unfold run_total in *. cbn [app fold_right]. rewrite IH. lia.
Qed.

Lemma run_total_nonneg runs :
  Forall (fun rn : run => 1 <= snd rn <= 255) runs ->
  Z.of_nat (length runs) <= run_total runs.
Proof.
  induction 1 as [|rn l Hrn Hl IH]; [reflexivity|].
  unfold run_total in *. cbn [fold_right length]. lia.
Qed.

(** What the loop over [i] emits on any buffer, whenever it returns. *)
Lemma rle_loop_spec px Palette DataLen (m : nat) :
  forall i Encoded Out,
    (Z.to_nat (DataLen - i) <= m)%nat -> 0 <= i ->
    rle_loop px Palette DataLen i Encoded = Ret Out ->
    exists runs,
      Out = Encoded ++ map (run_entry Palette) runs /\
      Forall (fun rn : run => 1 <= snd rn <= 255) runs /\
      runs_pixels runs = firstn (Z.to_nat (run_total runs)) (skipn (Z.to_nat i) px) /\
      (i < DataLen -> runs <> [] /\ DataLen <= i + run_total runs) /\
      Z.of_nat (length runs) <= Z.max 0 (DataLen - i).
Proof.
  induction m as [|m IH]; intros i Encoded Out Hm Hi H; rewrite rle_loop_eq in H.
  - destruct (Z.ltb_spec i DataLen); [lia|]. inversion H; subst.
    exists []. rewrite app_nil_r.
    split; [reflexivity|]. split; [constructor|]. split; [reflexivity|].
    split; [intros; lia | cbn [length]; lia].
  - destruct (Z.ltb_spec i DataLen) as [Hlt|Hge].
    + destruct (rle_entry px Palette i) as [[j e]| |] eqn:Ee; try discriminate.
      apply rle_entry_spec in Ee; [|assumption].
      destruct Ee as (Color & rl & Hl & Hrl & Hj & He & Hpx & _).
      rewrite Hj in H. apply IH in H; [|lia|lia].
      destruct H as (runs & HOut & Hall & Hpxs & Hne & Hlen).
      exists ((Color, rl) :: runs).
      assert (Htot : 0 <= run_total runs)
        by (pose proof (run_total_nonneg runs Hall); lia).
      split; [|split; [|split; [|split]]].
      * rewrite HOut, <- app_assoc. cbn [map app]. rewrite He. reflexivity.
      * constructor; [cbn; lia | assumption].
      * cbn [runs_pixels flat_map run_total fold_right fst snd].
        fold (runs_pixels runs). fold (run_total runs).
        replace (Z.to_nat (rl + run_total runs))
          with (Z.to_nat rl + Z.to_nat (run_total runs))%nat by lia.
        rewrite firstn_add, Hpx, skipn_skipn, Hpxs. unfold run_pixels. cbn [fst snd].
        do 3 f_equal. lia.
      * intros _. split; [discriminate|].
        cbn [run_total fold_right snd]. fold (run_total runs).
        destruct (Z.lt_ge_cases (i + rl) DataLen) as [Hc|Hc]; [|lia].
        destruct (Hne Hc). lia.
      * cbn [length]. lia.
    + inversion H; subst. exists []. rewrite app_nil_r.
      split; [reflexivity|]. split; [constructor|]. split; [reflexivity|].
      split; [intros; lia | cbn [length]; lia].
Qed.

(** *** With a sentinel, no run leaves the image *)

Lemma run_scan_within px Color DataLen p q n :
  load px (DataLen - 1) = Ret p -> load px DataLen = Ret q -> p <> q ->
  DataLen <= INT_MAX ->
  forall i rl, 0 <= i <= DataLen -> (i = DataLen -> Color = p) ->
    exists i' rl', run_scan px Color n i rl = Ret (i', rl') /\ i' <= DataLen.
Proof.
  intros Hp Hq Hpq Hmax. induction n as [|n IH]; intros i rl Hi Hend; cbn [run_scan].
  - exists i, rl. split; [reflexivity | lia].
  - destruct (Z.eq_dec i DataLen) as [->|Hne].
    + rewrite Hq. cbn [bind]. rewrite (Hend eq_refl).
      destruct (Z.eqb_spec (v p) (v q)) as [Ev|Ev]; [apply v_inj in Ev; contradiction|].
      exists DataLen, rl. split; [reflexivity | lia].
    + pose proof (load_Ret_inv _ _ _ Hq) as [Hlen _].
      destruct (load_inside px i) as [c Hc]; [lia|]. rewrite Hc. cbn [bind].
      destruct (Z.eqb_spec (v Color) (v c)) as [Ev|Ev].
      * destruct (Z.leb_spec INT_MAX i); [lia|].
        apply IH; [lia|]. intros Hi1. apply v_inj in Ev. subst c.
        replace (DataLen - 1) with i in Hp by lia. congruence.
      * exists i, rl. split; [reflexivity | lia].
Qed.

Lemma rle_entry_within px Palette DataLen i :
  sentinel px DataLen -> DataLen <= INT_MAX -> 0 <= i < DataLen ->
  exists j e, rle_entry px Palette i = Ret (j, e) /\ j + 1 <= DataLen.
Proof.
  intros (p & q & Hp & Hq & Hpq) Hmax Hi. unfold rle_entry.
  pose proof (load_Ret_inv _ _ _ Hq) as [Hlen _].
  destruct (load_inside px i) as [Color Hc]; [lia|]. rewrite Hc. cbn [bind].
  destruct (run_scan_within px Color DataLen p q 255 Hp Hq Hpq Hmax i 0)
    as (i' & rl' & Hs & Hle); [lia|lia|].
  rewrite Hs. cbn [bind fst snd]. eexists _, _. split; [reflexivity | lia].
Qed.

Lemma rle_loop_exact px Palette DataLen (m : nat) :
  (0 < DataLen -> sentinel px DataLen) -> DataLen <= INT_MAX ->
  forall i Encoded,
    (Z.to_nat (DataLen - i) <= m)%nat -> 0 <= i <= DataLen ->
    exists runs,
      rle_loop px Palette DataLen i Encoded =
        Ret (Encoded ++ map (run_entry Palette) runs) /\
      Forall (fun rn : run => 1 <= snd rn <= 255) runs /\
      runs_pixels runs = firstn (Z.to_nat (DataLen - i)) (skipn (Z.to_nat i) px) /\
      run_total runs = DataLen - i.
Proof.
  intros Hsen Hmax.
  induction m as [|m IH]; intros i Encoded Hm Hi; rewrite rle_loop_eq.
  - destruct (Z.ltb_spec i DataLen); [lia|].
    exists []. rewrite app_nil_r. replace (DataLen - i) with 0 by lia.
    split; [reflexivity|]. split; [constructor|]. split; reflexivity.
  - destruct (Z.ltb_spec i DataLen) as [Hlt|Hge].
    + destruct (rle_entry_within px Palette DataLen i (Hsen ltac:(lia)) Hmax ltac:(lia))
        as (j & e & Ee & Hj1).
      rewrite Ee.
      apply rle_entry_spec in Ee; [|lia].
      destruct Ee as (Color & rl & Hl & Hrl & Hj & He & Hpx & _).
      rewrite Hj in *.
      destruct (IH (i + rl) (Encoded ++ [e])) as (runs & HOut & Hall & Hpxs & Htot);
        [lia|lia|].
      exists ((Color, rl) :: runs).
      split; [|split; [|split]].
      * rewrite HOut, <- app_assoc. cbn [map app]. rewrite He. reflexivity.
      * constructor; [cbn; lia | assumption].
      * cbn [runs_pixels flat_map]. fold (runs_pixels runs).
        replace (Z.to_nat (DataLen - i))
          with (Z.to_nat rl + Z.to_nat (DataLen - (i + rl)))%nat by lia.
        rewrite firstn_add, Hpx, skipn_skipn, Hpxs. unfold run_pixels. cbn [fst snd].
        do 3 f_equal. lia.
      * cbn [run_total fold_right snd]. fold (run_total runs). lia.
    + exists []. rewrite app_nil_r. replace (DataLen - i) with 0 by lia.
      split; [reflexivity|]. split; [constructor|]. split; reflexivity.
Qed.

(** *** Looking colours up *)

Lemma in_palette_from_spec c Palette :
  forall Index,
    if colour_in c Palette
    then exists k, in_palette_from c Palette Index = Index + Z.of_nat k /\
                   nth_error Palette k = Some c
    else in_palette_from c Palette Index = -1.
Proof.
  induction Palette as [|p l IH]; intros Index;
    cbn [colour_in existsb in_palette_from]; [reflexivity|].
  destruct (Z.eqb_spec (v p) (v c)) as [Ev|Ev]; cbn [orb].
  - apply v_inj in Ev. subst p. exists 0%nat. split; [lia | reflexivity].
  - specialize (IH (Index + 1)). unfold colour_in in IH.
    destruct (existsb _ l); [|exact IH].
    destruct IH as (k & Hk & Hn). exists (S k). split; [lia | exact Hn].
Qed.

Lemma entry_pixels_run_entry Palette c rl :
  colour_in c Palette = true -> Z.of_nat (length Palette) <= 256 -> 1 <= rl <= 255 ->
  entry_pixels Palette (run_entry Palette (c, rl)) = run_pixels (c, rl) /\
  u8 (pID (run_entry Palette (c, rl))) < Z.of_nat (length Palette).
Proof.
  intros Hin Hlen Hrl. unfold entry_pixels, run_entry, run_pixels, _in_palette.
  cbn [fst snd pID rle].
  pose proof (in_palette_from_spec c Palette 0) as Hs. rewrite Hin in Hs.
  destruct Hs as (k & -> & Hk).
  assert (k < length Palette)%nat by (apply nth_error_Some; congruence).
  rewrite !u8_uchar, !Z.mod_small by lia.
  split; [|lia].
  replace (Z.to_nat (0 + Z.of_nat k)) with k by lia.
  rewrite (nth_error_nth _ _ _ Hk). reflexivity.
Qed.

Lemma expand_runs Palette runs :
  Z.of_nat (length Palette) <= 256 ->
  Forall (fun rn : run => 1 <= snd rn <= 255) runs ->
  (forall c, In c (runs_pixels runs) -> colour_in c Palette = true) ->
  expand Palette (map (run_entry Palette) runs) = runs_pixels runs /\
  indices_valid Palette (map (run_entry Palette) runs).
Proof.
  intros Hlen Hall. induction Hall as [|[c rl] l Hrn Hl IH]; intros Hin.
  - split; [reflexivity | constructor].
  - cbn [snd] in Hrn.
    assert (Hc : colour_in c Palette = true).
    { apply Hin. cbn [runs_pixels flat_map]. apply in_or_app. left.
      unfold run_pixels. cbn [fst snd].
      replace (Z.to_nat rl) with (S (Z.to_nat (rl - 1))) by lia. left. reflexivity. }
    destruct (entry_pixels_run_entry Palette c rl Hc Hlen Hrn) as [He Hidx].
    destruct IH as [IHe IHv].
    { intros c' Hc'. apply Hin. cbn [runs_pixels flat_map]. apply in_or_app. right.
      exact Hc'. }
    split.
    + unfold expand in *. cbn [map flat_map]. rewrite He, IHe. reflexivity.
    + constructor; [right; exact Hidx | exact IHv].
Qed.

(** ** What [kif_encode] returns *)

Lemma kif_encode_Ret_inv malloc px Header len out :
  kif_encode malloc (Some px) (Some Header) (Some len) = Ret out ->
  exists Palette Encoded,
    _generate_palette px Header = Ret Palette /\
    rle_loop px Palette (Width Header * Height Header) 0 [] = Ret Encoded /\
    HeaderOut out =
      encoded_header Header (Z.of_nat (length Palette)) (Z.of_nat (length Encoded)) /\
    OutputBuffer out =
      header_bytes (HeaderOut out) ++ palette_bytes Palette ++ encoded_bytes Encoded /\
    OutputLength out = 16 + 4 * Z.of_nat (length Palette) + 2 * Z.of_nat (length Encoded) /\
    OutputLength out <= INT_MAX.
Proof.
  unfold kif_encode.
  destruct (_generate_palette px Header) as [Palette| |] eqn:Hp; cbn [bind];
    try discriminate.
  destruct (negb (malloc _)); [discriminate|].
  destruct (rle_loop px Palette _ 0 []) as [Encoded| |] eqn:He; cbn [bind];
    try discriminate.
  unfold sizeof_KIFHeader, sizeof_kif_rgba_t, sizeof_kif_rle_t.
  destruct (Z.ltb_spec INT_MAX
    (16 + 4 * Z.of_nat (length Palette) + Z.of_nat (length Encoded) * 2));
    [discriminate|].
  destruct (negb (malloc _)); [discriminate|].
  intros H'. apply Ret_inj in H'. subst out.
  exists Palette, Encoded. cbn [HeaderOut OutputBuffer OutputLength].
  split; [reflexivity|]. split; [exact He|].
  do 2 (split; [reflexivity|]). split; lia.
Qed.

Lemma kif_encode_returns malloc px Header len Palette Encoded :
  (forall n, malloc n = true) ->
  _generate_palette px Header = Ret Palette ->
  rle_loop px Palette (Width Header * Height Header) 0 [] = Ret Encoded ->
  16 + 4 * Z.of_nat (length Palette) + 2 * Z.of_nat (length Encoded) <= INT_MAX ->
  kif_encode malloc (Some px) (Some Header) (Some len) =
  Ret (mkEncoded
         (header_bytes (encoded_header Header (Z.of_nat (length Palette))
                          (Z.of_nat (length Encoded)))
          ++ palette_bytes Palette ++ encoded_bytes Encoded)
         (16 + 4 * Z.of_nat (length Palette) + 2 * Z.of_nat (length Encoded))
         (encoded_header Header (Z.of_nat (length Palette)) (Z.of_nat (length Encoded)))).
Proof.
  intros Hm Hp He Hsz. unfold kif_encode. rewrite Hp. cbn [bind].
  rewrite !Hm. cbn [negb]. rewrite He. cbn [bind].
  unfold sizeof_KIFHeader, sizeof_kif_rgba_t, sizeof_kif_rle_t.
  replace (Z.of_nat (length Encoded) * 2) with (2 * Z.of_nat (length Encoded)) by lia.
  destruct (Z.ltb_spec INT_MAX
    (16 + 4 * Z.of_nat (length Palette) + 2 * Z.of_nat (length Encoded))); [lia|].
  rewrite Hm. reflexivity.
Qed.

(** C10. Whenever [kif_encode] returns a buffer for a non-NULL pixel buffer
    and header, the number of run-length entries it emitted, which is the
    [RLEEntries] field it stored, is at least 1 when Width * Height > 0 and
    is never more than Width * Height. *)
Theorem kif_encode_entry_count malloc (px_data : list kif_rgba_t) (Header : KIFHeader)
    (len : Z) (out : encoded) :
  0 <= Width Header < 65536 -> 0 <= Height Header < 65536 ->
  kif_encode malloc (Some px_data) (Some Header) (Some len) = Ret out ->
  exists Palette Encoded,
    OutputBuffer out =
      header_bytes (HeaderOut out) ++ palette_bytes Palette ++ encoded_bytes Encoded /\
    RLEEntries (HeaderOut out) = Z.of_nat (length Encoded) /\
    (0 < Width Header * Height Header -> 1 <= Z.of_nat (length Encoded)) /\
    Z.of_nat (length Encoded) <= Width Header * Height Header.
Proof.
  intros HW HH Henc.
  apply kif_encode_Ret_inv in Henc.
  destruct Henc as (Palette & Encoded & Hp & He & Hh & Hb & Hl & Hmax).
  apply generate_palette_Ret in Hp. destruct Hp as [Hint _].
  apply (rle_loop_spec px_data Palette _ (Z.to_nat (Width Header * Height Header)))
    in He; [|lia|lia].
  destruct He as (runs & HOut & Hall & _ & Hne & Hlen).
  cbn [app] in HOut.
  assert (Hcount : length Encoded = length runs) by (rewrite HOut; apply length_map).
  exists Palette, Encoded.
  split; [exact Hb|]. split; [|split].
  - rewrite Hh. cbn [encoded_header RLEEntries]. unfold uint32.
    apply Z.mod_small. unfold INT_MAX in Hint. lia.
  - intros Hpos. destruct (Hne ltac:(lia)) as [Hnil _].
    rewrite Hcount. destruct runs; [contradiction | cbn [length]; lia].
  - rewrite Hcount. lia.
Qed.

(** The encoder computes the number of pixels in [int]. *)
Lemma kif_encode_size_overflow malloc px Header len :
  INT_MAX < Width Header * Height Header ->
  kif_encode malloc (Some px) (Some Header) (Some len) = Undefined.
Proof.
  intros Hbig. unfold kif_encode, _generate_palette.
  destruct (Z.ltb_spec INT_MAX (Width Header * Height Header)); [reflexivity | lia].
Qed.

(** ** Encoding, then decoding *)

Lemma image_length Data Header :
  Width Header * Height Header <= Z.of_nat (length Data) ->
  length (image Data Header) = Z.to_nat (Width Header * Height Header).
Proof.
  intros H. unfold image. rewrite length_firstn. lia.
Qed.

(** The encoder is exact when the word after the image differs from the last
    pixel: the entries stand for the image, run by run. *)
Lemma kif_encode_exact malloc px Header len :
  (forall n, malloc n = true) ->
  0 <= Width Header < 65536 -> 0 <= Height Header < 65536 ->
  Width Header * Height Header * 4 <= INT_MAX ->
  (0 < Width Header * Height Header -> sentinel px (Width Header * Height Header)) ->
  exists runs,
    let Palette := first_seen_palette (image px Header) in
    let Encoded := map (run_entry Palette) runs in
    kif_encode malloc (Some px) (Some Header) (Some len) =
      Ret (mkEncoded
             (header_bytes (encoded_header Header (Z.of_nat (length Palette))
                              (Z.of_nat (length Encoded)))
              ++ palette_bytes Palette ++ encoded_bytes Encoded)
             (16 + 4 * Z.of_nat (length Palette) + 2 * Z.of_nat (length Encoded))
             (encoded_header Header (Z.of_nat (length Palette))
                (Z.of_nat (length Encoded)))) /\
    Forall (fun rn : run => 1 <= snd rn <= 255) runs /\
    runs_pixels runs = image px Header /\
    run_total runs = Width Header * Height Header.
Proof.
  intros Hm HW HH Hint Hsen.
  set (DataLen := Width Header * Height Header) in *.
  assert (Hlen : DataLen <= Z.of_nat (length px)).
  { destruct (Z.le_gt_cases DataLen 0) as [|Hpos]; [lia|].
    destruct (Hsen ltac:(lia)) as (p & q & _ & Hq & _).
    apply load_Ret_inv in Hq. lia. }
  assert (Hnn : 0 <= DataLen) by (subst DataLen; lia).
  destruct (rle_loop_exact px (first_seen_palette (image px Header)) DataLen
              (Z.to_nat DataLen) Hsen ltac:(lia) 0 []) as (runs & Hloop & Hall & Hpx & Htot);
    [lia|lia|].
  exists runs. cbn zeta.
  rewrite Z.sub_0_r in Hpx, Htot. cbn [Z.to_nat skipn app] in Hpx, Hloop.
  pose proof (fold_first_seen_inv (image px Header) [black] palette_inv_initial)
    as (_ & _ & Hcap).
  fold (first_seen_palette (image px Header)) in Hcap.
  pose proof (run_total_nonneg runs Hall) as Hcount.
  split; [|split; [exact Hall | split; [exact Hpx | exact Htot]]].
  apply kif_encode_returns; try assumption.
  - apply generate_palette_returns; subst DataLen; lia.
  - rewrite length_map. unfold INT_MAX in *. lia.
Qed.

(** X15.  With a sentinel and at most 256 colours, decoding what [kif_encode]
    returns gives back the image, at 4 or 3 bytes per pixel. *)
Theorem roundtrip_with_sentinel malloc px Header len Header' bpp :
  (forall n, malloc n = true) ->
  0 <= Width Header < 65536 -> 0 <= Height Header < 65536 ->
  Width Header * Height Header * 4 <= INT_MAX ->
  (0 < Width Header * Height Header -> sentinel px (Width Header * Height Header)) ->
  distinct_colours (image px Header) <= 256 ->
  bpp = 24 \/ bpp = 32 ->
  exists out,
    kif_encode malloc (Some px) (Some Header) (Some len) = Ret out /\
    kif_decode malloc (Some (OutputBuffer out)) (Some Header') bpp =
      Ret (mkDecoded (image_bytes bpp (image px Header)) (HeaderOut out)).
Proof.
  intros Hm HW HH Hint Hsen Hcol Hbpp.
  destruct (kif_encode_exact malloc px Header len Hm HW HH Hint Hsen)
    as (runs & Henc & Hall & Hpx & Htot).
  cbn zeta in Henc.
  set (Palette := first_seen_palette (image px Header)) in *.
  set (Encoded := map (run_entry Palette) runs) in *.
  assert (HP : Z.of_nat (length Palette) <= 256).
  { pose proof (first_seen_palette_length (image px Header)). subst Palette. lia. }
  destruct (expand_runs Palette runs HP Hall) as [Hexp Hval].
  { intros c Hc. rewrite Hpx in Hc. apply first_seen_palette_complete; [|exact Hc].
    fold Palette. lia. }
  fold Encoded in Hexp, Hval.
  pose proof (run_total_nonneg runs Hall) as Hcount.
  assert (HE : Z.of_nat (length Encoded) <= Width Header * Height Header).
  { subst Encoded. rewrite length_map. lia. }
  eexists. split; [exact Henc|]. cbn [OutputBuffer HeaderOut].
  rewrite <- (app_nil_r (encoded_bytes Encoded)).
  unfold INT_MAX in *.
  rewrite kif_decode_serialized; try assumption.
  - rewrite Hexp, Hpx. reflexivity.
  - unfold header_in_range, encoded_header, uint16, uint32, kif1. cbn.
    rewrite (Z.mod_small (Z.of_nat (length Palette))) by lia.
    rewrite (Z.mod_small (Z.of_nat (length Encoded))) by lia.
    lia.
  - unfold encoded_header, uint16. cbn. rewrite Z.mod_small; lia.
  - unfold encoded_header, uint32. cbn. rewrite Z.mod_small; lia.
  - rewrite Hexp, Hpx. cbn [encoded_header Width Height].
    unfold image. rewrite length_firstn. lia.
  - unfold encoded_header, uint32, INT_MAX. cbn. rewrite Z.mod_small; lia.
Qed.

(** ** The run lengths of the encoder *)

Lemma rle_total_runs Palette runs :
  Forall (fun rn : run => 1 <= snd rn <= 255) runs ->
  rle_total (map (run_entry Palette) runs) = run_total runs /\
  Forall (fun e => 1 <= u8 (rle e) <= 255) (map (run_entry Palette) runs).
Proof.
  induction 1 as [|rn l Hrn Hl [IHt IHf]]; [split; [reflexivity | constructor]|].
  assert (Hu : u8 (rle (run_entry Palette rn)) = snd rn).
  { unfold run_entry. cbn [rle]. rewrite u8_uchar. apply Z.mod_small. lia. }
  split.
  - unfold rle_total, run_total in *. cbn [map fold_right]. rewrite Hu, IHt. reflexivity.
  - cbn [map]. constructor; [rewrite Hu; exact Hrn | exact IHf].
Qed.

(** X7.  Whenever [kif_encode] returns, every run-length byte is between 1 and 255
    and the run lengths add up to at least Width * Height; they add up to
    exactly Width * Height when a sentinel follows the image. *)
Theorem kif_encode_run_lengths malloc px Header len out :
  0 <= Width Header < 65536 -> 0 <= Height Header < 65536 ->
  kif_encode malloc (Some px) (Some Header) (Some len) = Ret out ->
  exists Palette Encoded,
    OutputBuffer out =
      header_bytes (HeaderOut out) ++ palette_bytes Palette ++ encoded_bytes Encoded /\
    Forall (fun e => 1 <= u8 (rle e) <= 255) Encoded /\
    Width Header * Height Header <= rle_total Encoded /\
    ((0 < Width Header * Height Header -> sentinel px (Width Header * Height Header)) ->
     rle_total Encoded = Width Header * Height Header).
Proof.
  intros HW HH Henc.
  apply kif_encode_Ret_inv in Henc.
  destruct Henc as (Palette & Encoded & Hp & He & Hh & Hb & Hl & Hmax).
  apply generate_palette_Ret in Hp. destruct Hp as [Hint _].
  pose proof He as He'.
  apply (rle_loop_spec px Palette _ (Z.to_nat (Width Header * Height Header)))
    in He; [|lia|lia].
  destruct He as (runs & HOut & Hall & _ & Hne & Hlen).
  cbn [app] in HOut.
  destruct (rle_total_runs Palette runs Hall) as [Ht Hf].
  exists Palette, Encoded. rewrite HOut.
  split; [rewrite <- HOut; exact Hb|]. split; [exact Hf|]. split.
  - rewrite Ht. destruct (Z.lt_ge_cases 0 (Width Header * Height Header)) as [Hpos|Hz].
    + destruct (Hne Hpos). lia.
    + pose proof (run_total_nonneg runs Hall). lia.
  - intros Hsen.
    destruct (rle_loop_exact px Palette (Width Header * Height Header)
                (Z.to_nat (Width Header * Height Header)) Hsen Hint 0 [])
      as (runs' & Hloop & Hall' & _ & Htot); [lia|lia|].
    rewrite He' in Hloop. apply Ret_inj in Hloop. cbn [app] in Hloop.
    rewrite <- HOut, Hloop.
    destruct (rle_total_runs Palette runs' Hall') as [Ht' _]. lia.
Qed.

(** X6.  Whenever [kif_encode] returns, the header it leaves has the fixed magic
    number, BPP 4, Compressed 0 and the number of entries emitted; the output
    is header, palette, entries, and its reported length counts them.  The
    [palEntries] field holds the number of colours modulo 65536. *)
Theorem kif_encode_header_fields malloc px Header len out :
  0 <= Width Header < 65536 -> 0 <= Height Header < 65536 ->
  kif_encode malloc (Some px) (Some Header) (Some len) = Ret out ->
  exists Palette Encoded,
    _generate_palette px Header = Ret Palette /\
    Magic (HeaderOut out) = 0x6B696631 /\ BPP (HeaderOut out) = 4 /\
    Compressed (HeaderOut out) = 0 /\
    palEntries (HeaderOut out) = Z.of_nat (length Palette) mod 65536 /\
    RLEEntries (HeaderOut out) = Z.of_nat (length Encoded) /\
    OutputLength out = 16 + 4 * Z.of_nat (length Palette) + 2 * Z.of_nat (length Encoded) /\
    OutputLength out = Z.of_nat (length (OutputBuffer out)) /\
    OutputBuffer out =
      header_bytes (HeaderOut out) ++ palette_bytes Palette ++ encoded_bytes Encoded.
Proof.
  intros HW HH Henc.
  apply kif_encode_Ret_inv in Henc.
  destruct Henc as (Palette & Encoded & Hp & He & Hh & Hb & Hl & Hmax).
  exists Palette, Encoded.
  split; [exact Hp|]. rewrite Hh at 1 2 3 4 5. cbn [encoded_header Magic BPP Compressed
    palEntries RLEEntries].
  do 4 (split; [reflexivity|]).
  split.
  { unfold uint32. apply Z.mod_small. unfold INT_MAX in Hmax. lia. }
  split; [exact Hl|]. split; [|exact Hb].
  rewrite Hl, Hb, !length_app, header_bytes_length, palette_bytes_length,
    encoded_bytes_length. lia.
Qed.

(** ** The 1 x 1 image *)

(** C8, at the failing input.  For the 1 x 1 image of the colour
    (10, 20, 30, 255) the encoder reads the word after the pixel.  When the
    buffer ends with the pixel the read is out of bounds; when the next word
    has the same value the single entry is (index 1, run 2) and not (1, 1),
    and decoding the output writes past the one-pixel allocation.  Only when
    the next word differs is the result the one the specification gives. *)
Theorem encode_1x1_reads_next_word :
  kif_encode always (Some [solid]) (Some header_1x1) (Some 0) = Undefined /\
  (exists out,
     kif_encode always (Some [solid; solid; black]) (Some header_1x1) (Some 0) = Ret out /\
     palEntries (HeaderOut out) = 2 /\ RLEEntries (HeaderOut out) = 1 /\
     OutputBuffer out =
       header_bytes (HeaderOut out) ++ palette_bytes [black; solid] ++
       encoded_bytes [mkRLE x01 x02] /\
     kif_decode always (Some (OutputBuffer out)) (Some header_1x1) 32 = Undefined) /\
  (exists out,
     kif_encode always (Some [solid; black]) (Some header_1x1) (Some 0) = Ret out /\
     palEntries (HeaderOut out) = 2 /\ RLEEntries (HeaderOut out) = 1 /\
     OutputBuffer out =
       header_bytes (HeaderOut out) ++ palette_bytes [black; solid] ++
       encoded_bytes [mkRLE x01 x01] /\
     kif_decode always (Some (OutputBuffer out)) (Some header_1x1) 32 =
       Ret (mkDecoded (rgba_bytes solid) (HeaderOut out))).
Proof.
  split; [vm_compute; reflexivity|].
  split; eexists; (split; [vm_compute; reflexivity|]); vm_compute; auto.
Qed.

(** ** A run that leaves the image *)

(** C2, at the failing input.  With Width = Height = 1 and a buffer whose
    second word repeats the pixel, the only entry emitted has run length 2:
    the run lengths add up to 2, not to Width * Height = 1. *)
Theorem encode_run_overruns_image :
  exists out,
    kif_encode always (Some [solid; solid; black]) (Some header_1x1) (Some 0) = Ret out /\
    OutputBuffer out =
      header_bytes (HeaderOut out) ++ palette_bytes [black; solid] ++
      encoded_bytes [mkRLE x01 x02] /\
    rle_total [mkRLE x01 x02] = 2 /\
    Width (HeaderOut out) * Height (HeaderOut out) = 1.
Proof.
  eexists. split; [vm_compute; reflexivity|]. vm_compute. auto.
Qed.

(** C1, at the failing input.  A 3 x 1 image of one colour in a buffer whose
    fourth word repeats that colour has 2 distinct colours (the reserved one
    included), yet decoding the encoder's output at depth 32 overruns the
    allocation, and at depth 24 returns four pixels instead of three. *)
Theorem roundtrip_fails_on_repeated_next_word :
  image solid_row header_3x1 = [solid; solid; solid] /\
  distinct_colours (image solid_row header_3x1) = 2 /\
  exists out,
    kif_encode always (Some solid_row) (Some header_3x1) (Some 0) = Ret out /\
    kif_decode always (Some (OutputBuffer out)) (Some header_3x1) 32 = Undefined /\
    kif_decode always (Some (OutputBuffer out)) (Some header_3x1) 24 =
      Ret (mkDecoded (image_bytes 24 [solid; solid; solid; solid]) (HeaderOut out)) /\
    image_bytes 24 [solid; solid; solid; solid] <>
      image_bytes 24 (image solid_row header_3x1).
Proof.
  split; [reflexivity|]. split; [vm_compute; reflexivity|].
  eexists. split; [vm_compute; reflexivity|].
  split; [vm_compute; reflexivity|]. split; [vm_compute; reflexivity|].
  vm_compute. discriminate.
Qed.

(** ** Images with many colours *)

Lemma v_colour_of z : 0 <= z < 4294967296 -> v (colour_of z) = z.
Proof.
  intros Hz. rewrite v_sum. unfold colour_of. cbn [r g b a].
  rewrite !u8_uchar, !Z.shiftr_div_pow2 by lia.
  change (2 ^ 8) with 256. change (2 ^ 16) with 65536. change (2 ^ 24) with 16777216.
  replace (z / 65536) with (z / 256 / 256) by (rewrite Z.div_div by lia; reflexivity).
  replace (z / 16777216) with (z / 256 / 256 / 256)
    by (rewrite !Z.div_div by lia; reflexivity).
  Z.div_mod_to_equations. lia.
Qed.

Lemma ramp_length n : 0 <= n -> Z.of_nat (length (ramp n)) = n.
Proof.
  intros Hn. unfold ramp. rewrite length_map, length_seq. lia.
Qed.

Lemma ramp_nth n k :
  (k < Z.to_nat n)%nat -> nth_error (ramp n) k = Some (colour_of (Z.of_nat k + 1)).
Proof.
  intros Hk. unfold ramp.
  rewrite nth_error_map, nth_error_seq.
  destruct (Nat.ltb_spec k (Z.to_nat n)); [|lia].
  cbn [option_map]. do 2 f_equal. lia.
Qed.

Lemma ramp_In n c :
  0 <= n < 4294967296 -> In c (ramp n) -> 1 <= v c <= n.
Proof.
  intros Hn Hin. unfold ramp in Hin. apply in_map_iff in Hin.
  destruct Hin as (k & <- & Hk). apply in_seq in Hk.
  rewrite v_colour_of by lia. lia.
Qed.

Lemma ramp_NoDup n : 0 <= n < 4294967296 -> NoDup (ramp n).
Proof.
  intros Hn. unfold ramp.
  apply NoDup_map_NoDup_ForallPairs; [|apply seq_NoDup].
  intros x y Hx Hy E. apply in_seq in Hx, Hy.
  apply (f_equal v) in E. rewrite !v_colour_of in E by lia. lia.
Qed.

Lemma black_ramp_NoDup n : 0 <= n < 4294967296 -> NoDup (black :: ramp n).
Proof.
  intros Hn. constructor; [|apply ramp_NoDup; exact Hn].
  intros Hin. apply (ramp_In n) in Hin; [|exact Hn]. rewrite v_black in Hin. lia.
Qed.

(** On pairwise distinct colours the palette is the first 65536 of them. *)
Lemma fold_first_seen_distinct l :
  forall Palette,
    NoDup (Palette ++ l) -> Z.of_nat (length Palette) <= 65536 ->
    fold_left first_seen_step l Palette = firstn (Z.to_nat 65536) (Palette ++ l).
Proof.
  induction l as [|c l IH]; intros Palette Hnd Hlen; cbn [fold_left].
  - rewrite app_nil_r, firstn_all2 by lia. reflexivity.
  - unfold first_seen_step at 2.
    assert (Hc : colour_in c Palette = false).
    { destruct (colour_in c Palette) eqn:E; [|reflexivity].
      apply colour_in_In in E. apply NoDup_remove_2 in Hnd.
      exfalso. apply Hnd. apply in_or_app. left. exact E. }
    rewrite Hc. cbn [negb andb].
    destruct (Z.ltb_spec (Z.of_nat (length Palette)) 65536) as [Hlt|Hge].
    + rewrite IH.
      * rewrite <- app_assoc. reflexivity.
      * rewrite <- app_assoc. exact Hnd.
      * rewrite length_app. cbn [length]. lia.
    + rewrite IH; [|apply NoDup_remove_1 in Hnd; exact Hnd | lia].
      rewrite !firstn_app.
      replace (Z.to_nat 65536 - length Palette)%nat with 0%nat by lia.
      reflexivity.
Qed.

(** On pairwise distinct pixels every run has length 1. *)
Lemma runs_of_distinct runs :
  Forall (fun rn : run => 1 <= snd rn <= 255) runs ->
  NoDup (runs_pixels runs) ->
  runs = map (fun c => (c, 1)) (runs_pixels runs).
Proof.
  induction 1 as [|[c rl] l Hrn Hl IH]; intros Hnd; [reflexivity|].
  cbn [snd] in Hrn. cbn [runs_pixels flat_map] in *. fold (runs_pixels l) in *.
  unfold run_pixels in *. cbn [fst snd] in *.
  assert (Hrl : rl = 1).
  { destruct (Z.eq_dec rl 1) as [|Hne]; [assumption|]. exfalso.
    replace (Z.to_nat rl) with (S (S (Z.to_nat (rl - 2)))) in Hnd by lia.
    cbn [repeat app] in Hnd. inversion Hnd as [|? ? Hnot _]. apply Hnot. left.
    reflexivity. }
  subst rl. change (Z.to_nat 1) with 1%nat in *. cbn [repeat app map] in *.
  f_equal. apply IH. inversion Hnd; assumption.
Qed.

Lemma encoded_bytes_nth Encoded :
  forall k, nth_error (encoded_bytes Encoded) (2 * k) = option_map pID (nth_error Encoded k).
Proof.
  unfold encoded_bytes. induction Encoded as [|e l IH]; intros k.
  - destruct k; reflexivity.
  - destruct k as [|k]; [reflexivity|].
    replace (2 * S k)%nat with (S (S (2 * k))) by lia.
    cbn [flat_map rle_bytes app nth_error]. apply IH.
Qed.

Lemma in_palette_absent c Palette :
  colour_in c Palette = false -> uchar (_in_palette c Palette) = xff.
Proof.
  intros H. unfold _in_palette.
  pose proof (in_palette_from_spec c Palette 0) as Hs. rewrite H in Hs.
  rewrite Hs. reflexivity.
Qed.

Lemma ramp_sentinel n :
  0 < n < 4294967296 -> sentinel (ramp n ++ [black]) n.
Proof.
  intros Hn. exists (colour_of n), black.
  pose proof (ramp_length n ltac:(lia)) as Hlen.
  split; [|split].
  - rewrite load_app_l by lia.
    replace (n - 1) with (Z.of_nat (Z.to_nat n - 1)) at 1 by lia.
    rewrite load_nth, ramp_nth by lia. do 2 f_equal. lia.
  - apply load_at. lia.
  - intros E. apply (f_equal v) in E. rewrite v_colour_of, v_black in E by lia. lia.
Qed.

Lemma ramp_image n Header :
  0 <= n -> Width Header * Height Header = n ->
  image (ramp n ++ [black]) Header = ramp n.
Proof.
  intros Hn HWH. unfold image. rewrite HWH.
  pose proof (ramp_length n Hn) as Hlen.
  rewrite firstn_app. replace (Z.to_nat n - length (ramp n))%nat with 0%nat by lia.
  cbn [firstn]. rewrite app_nil_r. apply firstn_all2. lia.
Qed.

(** What [kif_encode] returns on a ramp of [n] distinct colours followed by a
    black word: one entry of run length 1 per pixel. *)
Lemma kif_encode_ramp n Header len :
  0 < n -> n * 4 <= INT_MAX ->
  0 <= Width Header < 65536 -> 0 <= Height Header < 65536 ->
  Width Header * Height Header = n ->
  let Palette := firstn (Z.to_nat 65536) (black :: ramp n) in
  let Encoded := map (run_entry Palette) (map (fun c => (c, 1)) (ramp n)) in
  _generate_palette (ramp n ++ [black]) Header = Ret Palette /\
  kif_encode always (Some (ramp n ++ [black])) (Some Header) (Some len) =
    Ret (mkEncoded
           (header_bytes (encoded_header Header (Z.of_nat (length Palette)) n)
            ++ palette_bytes Palette ++ encoded_bytes Encoded)
           (16 + 4 * Z.of_nat (length Palette) + 2 * n)
           (encoded_header Header (Z.of_nat (length Palette)) n)).
Proof.
  intros Hn Hmax HW HH HWH. cbn zeta.
  assert (Hn32 : 0 <= n < 4294967296) by (unfold INT_MAX in Hmax; lia).
  assert (Hpal : first_seen_palette (image (ramp n ++ [black]) Header) =
                 firstn (Z.to_nat 65536) (black :: ramp n)).
  { rewrite ramp_image by lia. unfold first_seen_palette.
    rewrite fold_first_seen_distinct; [reflexivity | | cbn [length]; lia].
    apply black_ramp_NoDup. exact Hn32. }
  split.
  { rewrite generate_palette_returns.
    - rewrite Hpal. reflexivity.
    - unfold INT_MAX in *. lia.
    - rewrite length_app, Nat2Z.inj_add, ramp_length by lia. lia. }
  destruct (kif_encode_exact always (ramp n ++ [black]) Header len)
    as (runs & Henc & Hall & Hpx & Htot); try assumption.
  { intros ?; reflexivity. }
  { rewrite HWH. exact Hmax. }
  { intros _. rewrite HWH. apply ramp_sentinel. lia. }
  cbn zeta in Henc. rewrite Hpal in Henc.
  rewrite ramp_image in Hpx by lia.
  assert (Hruns : runs = map (fun c => (c, 1)) (ramp n)).
  { rewrite <- Hpx. apply runs_of_distinct; [exact Hall|].
    rewrite Hpx. apply ramp_NoDup. exact Hn32. }
  rewrite Henc, Hruns, !length_map, ramp_length by lia. reflexivity.
Qed.

Lemma ramp_palette_length n :
  0 <= n -> Z.of_nat (length (firstn (Z.to_nat 65536) (black :: ramp n))) = Z.min 65536 (n + 1).
Proof.
  intros Hn. pose proof (ramp_length n Hn).
  rewrite length_firstn. cbn [length]. lia.
Qed.

(** C6, at the failing input.  An image of 65535 distinct colours, none of
    them transparent black, fills the palette with 65536 entries; the 16-bit
    [palEntries] field of the header then holds 0, and the reported length
    (393230 bytes) is not 16 + 4 * palEntries + 2 * RLEEntries (131086). *)
Theorem encode_65536_colours_palEntries_zero :
  exists out Palette,
    kif_encode always (Some (ramp 65535 ++ [black])) (Some header_65535x1) (Some 0)
      = Ret out /\
    _generate_palette (ramp 65535 ++ [black]) header_65535x1 = Ret Palette /\
    Z.of_nat (length Palette) = 65536 /\
    palEntries (HeaderOut out) = 0 /\
    RLEEntries (HeaderOut out) = 65535 /\
    OutputLength out = 393230 /\
    16 + 4 * palEntries (HeaderOut out) + 2 * RLEEntries (HeaderOut out) = 131086.
Proof.
  destruct (kif_encode_ramp 65535 header_65535x1 0) as [Hpal Henc];
    try (unfold INT_MAX; cbn; lia).
  cbn zeta in Hpal, Henc.
  pose proof (ramp_palette_length 65535 ltac:(lia)) as Hlen.
  change (Z.min 65536 (65535 + 1)) with 65536 in Hlen.
  rewrite Hlen in Henc.
  eexists. eexists. split; [exact Henc|]. split; [exact Hpal|].
  split; [exact Hlen|]. cbn [HeaderOut OutputLength]. repeat split.
Qed.

(** C4, at the failing input.  In a 256 x 256 image of 65536 distinct
    colours, none of them transparent black, the colour of the last pixel
    finds the palette full and is dropped.  [_in_palette] answers -1 for it,
    and the index byte of its run-length entry is 255, not 0. *)
Theorem dropped_colour_gets_index_255 :
  exists out Palette,
    kif_encode always (Some (ramp 65536 ++ [black])) (Some header_256x256) (Some 0)
      = Ret out /\
    _generate_palette (ramp 65536 ++ [black]) header_256x256 = Ret Palette /\
    Z.of_nat (length Palette) = 65536 /\
    nth_error (ramp 65536 ++ [black]) (Z.to_nat 65535) = Some (colour_of 65536) /\
    colour_in (colour_of 65536) Palette = false /\
    _in_palette (colour_of 65536) Palette = -1 /\
    RLEEntries (HeaderOut out) = 65536 /\
    nth_error (OutputBuffer out) (Z.to_nat (16 + 4 * 65536 + 2 * 65535)) = Some xff.
Proof.
  destruct (kif_encode_ramp 65536 header_256x256 0) as [Hpal Henc];
    try (unfold INT_MAX; cbn; lia).
  cbn zeta in Hpal, Henc.
  pose proof (ramp_palette_length 65536 ltac:(lia)) as Hlen.
  change (Z.min 65536 (65536 + 1)) with 65536 in Hlen.
  pose proof (ramp_length 65536 ltac:(lia)) as Hrl.
  set (Palette := firstn (Z.to_nat 65536) (black :: ramp 65536)) in *.
  assert (Hnth : nth_error (ramp 65536) (Z.to_nat 65535) = Some (colour_of 65536)).
  { rewrite ramp_nth by lia. do 2 f_equal. }
  assert (Habs : colour_in (colour_of 65536) Palette = false).
  { destruct (colour_in (colour_of 65536) Palette) eqn:E; [|reflexivity]. exfalso.
    apply colour_in_In in E. subst Palette.
    assert (Hsplit : black :: ramp 65536 = (black :: ramp 65535) ++ [colour_of 65536]).
    { unfold ramp. change (Z.to_nat 65536) with (S (Z.to_nat 65535)).
      rewrite seq_S, map_app. cbn [map app]. do 3 f_equal. }
    rewrite Hsplit, firstn_app in E.
    pose proof (ramp_length 65535 ltac:(lia)) as Hrl'.
    replace (Z.to_nat 65536 - length (black :: ramp 65535))%nat with 0%nat in E
      by (cbn [length]; lia).
    cbn [firstn] in E. rewrite app_nil_r in E.
    rewrite firstn_all2 in E by (cbn [length]; lia).
    destruct E as [E|E].
    - apply (f_equal v) in E. rewrite v_colour_of, v_black in E by lia. lia.
    - apply (ramp_In 65535) in E; [|lia]. rewrite v_colour_of in E by lia. lia. }
  exists (mkEncoded
            (header_bytes (encoded_header header_256x256 (Z.of_nat (length Palette)) 65536)
             ++ palette_bytes Palette ++
             encoded_bytes (map (run_entry Palette) (map (fun c => (c, 1)) (ramp 65536))))
            (16 + 4 * Z.of_nat (length Palette) + 2 * 65536)
            (encoded_header header_256x256 (Z.of_nat (length Palette)) 65536)), Palette.
  split; [exact Henc|]. split; [exact Hpal|]. split; [exact Hlen|].
  split; [rewrite nth_error_app1 by lia; exact Hnth|].
  split; [exact Habs|].
  split.
  { unfold _in_palette. pose proof (in_palette_from_spec (colour_of 65536) Palette 0) as Hs.
    rewrite Habs in Hs. exact Hs. }
  split; [reflexivity|].
  cbn [OutputBuffer].
  rewrite app_assoc, nth_error_app2;
    rewrite length_app, header_bytes_length, palette_bytes_length; [|lia].
  replace (Z.to_nat (16 + 4 * 65536 + 2 * 65535) - (16 + 4 * length Palette))%nat
    with (2 * Z.to_nat 65535)%nat by lia.
  rewrite encoded_bytes_nth, !nth_error_map, Hnth. cbn [option_map].
  unfold run_entry. cbn [pID fst]. rewrite in_palette_absent by exact Habs. reflexivity.
Qed.

(** * Further properties of the codec *)

(** ** The palette and its lookup *)

Lemma in_palette_from_first Color Palette :
  forall Index,
    (in_palette_from Color Palette Index = -1 /\
     forall p, In p Palette -> v p <> v Color) \/
    (exists k, in_palette_from Color Palette Index = Index + Z.of_nat k /\
               nth_error Palette k = Some Color /\
               forall j, (j < k)%nat -> nth_error Palette j <> Some Color).
Proof.
  induction Palette as [|p l IH]; intros Index; cbn [in_palette_from].
  - left. split; [reflexivity | intros p []].
  - destruct (Z.eqb_spec (v p) (v Color)) as [Ev|Ev].
    + right. exists 0%nat. apply v_inj in Ev. subst p.
      split; [lia|]. split; [reflexivity|]. intros j Hj. lia.
    + destruct (IH (Index + 1)) as [[Hm Hall] | (k & Hk & Hn & Hfirst)].
      * left. split; [exact Hm|]. intros q [<-|Hq]; [exact Ev | apply Hall; exact Hq].
      * right. exists (S k). split; [lia|]. split; [exact Hn|].
        intros [|j] Hj; cbn [nth_error].
        -- intros E. inversion E. subst p. apply Ev. reflexivity.
        -- apply Hfirst. lia.
Qed.

(** X2.  [_in_palette] returns the index of the first palette entry that has the
    value of the colour, and -1 exactly when no entry has it. *)
Theorem in_palette_first_match (Color : kif_rgba_t) (Palette : list kif_rgba_t) :
  (_in_palette Color Palette = -1 /\ forall p, In p Palette -> v p <> v Color) \/
  (0 <= _in_palette Color Palette < Z.of_nat (length Palette) /\
   nth_error Palette (Z.to_nat (_in_palette Color Palette)) = Some Color /\
   forall j, (j < Z.to_nat (_in_palette Color Palette))%nat ->
     nth_error Palette j <> Some Color).
Proof.
  unfold _in_palette.
  destruct (in_palette_from_first Color Palette 0) as [H | (k & Hk & Hn & Hfirst)].
  - left. exact H.
  - right. rewrite Hk, Z.add_0_l, Nat2Z.id.
    assert (k < length Palette)%nat by (apply nth_error_Some; congruence).
    split; [lia|]. split; [exact Hn | exact Hfirst].
Qed.

(** X3.  The palette [_generate_palette] returns holds transparent black and
    colours of the image only; it holds every colour of the image unless it
    is full; and it has as many entries as the image has distinct colours
    (transparent black included) whenever these are at most 65536. *)
Theorem generate_palette_members (Data : list kif_rgba_t) (Header : KIFHeader)
    (Palette : list kif_rgba_t) :
  _generate_palette Data Header = Ret Palette ->
  (forall c, In c Palette -> c = black \/ In c (image Data Header)) /\
  (Z.of_nat (length Palette) < 65536 ->
     forall c, In c (image Data Header) -> In c Palette) /\
  Z.of_nat (length Palette) <= distinct_colours (image Data Header) /\
  (distinct_colours (image Data Header) <= 65536 ->
     Z.of_nat (length Palette) = distinct_colours (image Data Header)).
Proof.
  intros Hgen. apply generate_palette_Ret in Hgen. destruct Hgen as [_ ->].
  set (pixels := image Data Header).
  pose proof (fold_first_seen_grows pixels [black]) as (_ & Hkeep & Hincl & Hall).
  fold (first_seen_palette pixels) in Hkeep, Hincl, Hall.
  pose proof (first_seen_palette_length pixels) as Hle.
  assert (Hcomplete : Z.of_nat (length (first_seen_palette pixels)) < 65536 ->
                      forall c, In c pixels -> In c (first_seen_palette pixels)).
  { intros Hlt c Hc. apply colour_in_In. apply Hall; assumption. }
  split; [|split; [exact Hcomplete | split; [exact Hle|]]].
  - intros c Hc. apply Hincl in Hc. destruct Hc as [[<-|[]]|Hc]; auto.
  - intros Hd.
    destruct (Z.lt_ge_cases (Z.of_nat (length (first_seen_palette pixels))) 65536)
      as [Hlt|Hge]; [|lia].
    apply Z.le_antisymm; [exact Hle|].
    unfold distinct_colours. apply inj_le. apply NoDup_incl_length.
    + apply NoDup_nodup.
    + intros c Hc. apply nodup_In in Hc. destruct Hc as [<-|Hc].
      * apply colour_in_In. apply Hkeep. reflexivity.
      * apply Hcomplete; assumption.
Qed.

(** X4.  Lookup after generation: in a palette that is not full, [_in_palette]
    finds every colour of the image, at the index where the palette holds
    it. *)
Theorem in_palette_finds_image_colours (Data : list kif_rgba_t) (Header : KIFHeader)
    (Palette : list kif_rgba_t) (c : kif_rgba_t) :
  _generate_palette Data Header = Ret Palette ->
  Z.of_nat (length Palette) < 65536 ->
  In c (image Data Header) ->
  0 <= _in_palette c Palette < Z.of_nat (length Palette) /\
  nth_error Palette (Z.to_nat (_in_palette c Palette)) = Some c.
Proof.
  intros Hgen Hlt Hc. apply generate_palette_Ret in Hgen. destruct Hgen as [_ ->].
  pose proof (first_seen_palette_complete (image Data Header) c Hlt Hc) as Hin.
  unfold _in_palette.
  pose proof (in_palette_from_spec c (first_seen_palette (image Data Header)) 0) as Hs.
  rewrite Hin in Hs. destruct Hs as (k & Hk & Hn).
  rewrite Hk, Z.add_0_l, Nat2Z.id.
  assert (k < length (first_seen_palette (image Data Header)))%nat
    by (apply nth_error_Some; congruence).
  split; [lia | exact Hn].
Qed.

(** ** The encoder *)

Lemma palette_loop_not_Null Data n :
  forall Pos Palette, palette_loop Data n Pos Palette <> Null.
Proof.
  induction n as [|n IH]; intros Pos Palette; cbn [palette_loop]; [discriminate|].
  destruct (load Data Pos) as [c| |] eqn:E; cbn [bind];
    [ apply IH | exfalso; exact (load_not_Null _ _ E) | discriminate ].
Qed.

Lemma generate_palette_not_Null Data Header : _generate_palette Data Header <> Null.
Proof.
  unfold _generate_palette. destruct (INT_MAX <? _); [discriminate|].
  apply palette_loop_not_Null.
Qed.

Lemma rle_loop_not_Null px Palette DataLen (m : nat) :
  forall i Encoded,
    (Z.to_nat (DataLen - i) <= m)%nat ->
    rle_loop px Palette DataLen i Encoded <> Null.
Proof.
  induction m as [|m IH]; intros i Encoded Hm; rewrite rle_loop_eq.
  - destruct (Z.ltb_spec i DataLen); [lia | discriminate].
  - destruct (Z.ltb_spec i DataLen); [|discriminate].
    destruct (rle_entry px Palette i) as [[j e]| |] eqn:Ee; try discriminate.
    apply rle_entry_advances in Ee. apply IH. lia.
Qed.

(** X5.  [kif_encode] returns NULL exactly when one of its three pointers is NULL,
    or when the palette has been built and the allocation of the entry array
    fails. *)
Theorem kif_encode_fails_iff malloc (Data : option (list kif_rgba_t))
    (Header : option KIFHeader) (OutputLength : option Z) :
  kif_encode malloc Data Header OutputLength = Null <->
  Data = None \/ Header = None \/ OutputLength = None \/
  exists px h Palette,
    Data = Some px /\ Header = Some h /\
    _generate_palette px h = Ret Palette /\
    malloc (Width h * Height h * 2) = false.
Proof.
  destruct Data as [px|]; [|split; auto].
  destruct Header as [h|]; [|split; auto].
  destruct OutputLength as [len|]; [|split; auto].
  unfold kif_encode, sizeof_kif_rle_t. split.
  - intros HN. right; right; right.
    destruct (_generate_palette px h) as [Palette| |] eqn:Eg; cbn [bind] in HN;
      [ | exfalso; exact (generate_palette_not_Null _ _ Eg) | discriminate ].
    destruct (malloc (Width h * Height h * 2)) eqn:Em; cbn [negb] in HN.
    + exfalso.
      destruct (rle_loop px Palette (Width h * Height h) 0 []) as [Encoded| |] eqn:El;
        cbn [bind] in HN;
        [ | exact (rle_loop_not_Null px Palette _ _ 0 [] (Nat.le_refl _) El) | discriminate ].
      destruct (INT_MAX <? _); [discriminate|].
      destruct (negb (malloc _)); discriminate.
    + exists px, h, Palette. auto.
  - intros [H|[H|[H|(px' & h' & Palette & Hd & Hh & Hg & Hm)]]]; try discriminate.
    inversion Hd; inversion Hh; subst px' h'.
    rewrite Hg. cbn [bind]. rewrite Hm. reflexivity.
Qed.

Lemma rle_loop_exact_buffer px Palette DataLen (m : nat) :
  Z.of_nat (length px) = DataLen ->
  forall i Encoded Out,
    (Z.to_nat (DataLen - i) <= m)%nat -> 0 <= i < DataLen ->
    rle_loop px Palette DataLen i Encoded = Ret Out ->
    255 <= DataLen /\
    exists Out' e, Out = Out' ++ [e] /\ rle e = xff /\
      skipn (Z.to_nat (DataLen - 255)) px = repeat (nth (Z.to_nat (DataLen - 1)) px black) 255.
Proof.
  intros Hlen. induction m as [|m IH]; intros i Encoded Out Hm Hi H; [lia|].
  rewrite rle_loop_eq in H. destruct (Z.ltb_spec i DataLen); [|lia].
  destruct (rle_entry px Palette i) as [[j e]| |] eqn:Ee; try discriminate.
  apply rle_entry_spec in Ee; [|lia].
  destruct Ee as (Color & rl & Hl & Hrl & Hj & He & Hpx & Hnext).
  rewrite Hj in H.
  assert (Hfit : i + rl <= DataLen).
  { apply (f_equal (@length _)) in Hpx.
    rewrite length_firstn, length_skipn, repeat_length in Hpx. lia. }
  destruct (Z.eq_dec (i + rl) DataLen) as [Hend|Hmore].
  - assert (Hcap : rl = 255).
    { destruct (Z.eq_dec rl 255) as [|Hne]; [assumption|]. exfalso.
      destruct (Hnext ltac:(lia)) as (p & Hp & _).
      rewrite load_outside in Hp by lia. discriminate. }
    subst rl. split; [lia|].
    rewrite rle_loop_eq in H. destruct (Z.ltb_spec (i + 255) DataLen); [lia|].
    apply Ret_inj in H. subst Out.
    exists Encoded, e. split; [reflexivity|]. split; [subst e; reflexivity|].
    replace (DataLen - 255) with i by lia.
    rewrite <- (firstn_all2 (n := Z.to_nat 255) (skipn (Z.to_nat i) px))
      by (rewrite length_skipn; lia).
    rewrite Hpx. f_equal.
    assert (Hlast : nth_error (firstn (Z.to_nat 255) (skipn (Z.to_nat i) px)) 254
                    = Some (nth (Z.to_nat (DataLen - 1)) px black)).
    { rewrite nth_error_firstn. cbn [Nat.ltb Nat.leb]. 
      rewrite nth_error_skipn.
      replace (Z.to_nat i + 254)%nat with (Z.to_nat (DataLen - 1)) by lia.
      apply nth_error_nth'. lia. }
    rewrite Hpx, nth_error_repeat in Hlast by lia. congruence.
  - apply (IH (i + rl) (Encoded ++ [e]) Out); [lia | lia | exact H].
Qed.

(** X9.  On a buffer that ends with the image, [kif_encode] returns only if its
    last run stops at the cap of 255 pixels: the image then has at least 255
    pixels, its last 255 pixels are equal and the last entry has run length
    255.  In every other case the call returns no buffer. *)
Theorem kif_encode_exact_buffer malloc (px_data : list kif_rgba_t) (Header : KIFHeader)
    (len : Z) (out : encoded) :
  Z.of_nat (length px_data) = Width Header * Height Header ->
  0 < Width Header * Height Header ->
  kif_encode malloc (Some px_data) (Some Header) (Some len) = Ret out ->
  255 <= Width Header * Height Header /\
  (exists Palette Encoded e,
     OutputBuffer out =
       header_bytes (HeaderOut out) ++ palette_bytes Palette ++
       encoded_bytes (Encoded ++ [e]) /\
     rle e = xff) /\
  skipn (Z.to_nat (Width Header * Height Header - 255)) px_data =
    repeat (nth (Z.to_nat (Width Header * Height Header - 1)) px_data black) 255.
Proof.
  intros Hlen Hpos Henc.
  apply kif_encode_Ret_inv in Henc.
  destruct Henc as (Palette & Encoded & _ & He & _ & Hb & _ & _).
  apply (rle_loop_exact_buffer px_data Palette _
           (Z.to_nat (Width Header * Height Header)) Hlen) in He; [|lia|lia].
  destruct He as (H255 & Out' & e & -> & Hrle & Hlast).
  split; [exact H255|]. split; [|exact Hlast].
  exists Palette, Out', e. split; [exact Hb | exact Hrle].
Qed.

Lemma rle_loop_greedy px Palette DataLen (m : nat) :
  forall i Encoded Out,
    (Z.to_nat (DataLen - i) <= m)%nat -> 0 <= i ->
    rle_loop px Palette DataLen i Encoded = Ret Out ->
    exists runs,
      Out = Encoded ++ map (run_entry Palette) runs /\
      Forall (fun rn : run => 1 <= snd rn <= 255) runs /\
      runs_pixels runs = firstn (Z.to_nat (run_total runs)) (skipn (Z.to_nat i) px) /\
      greedy runs /\
      (forall rn rest, runs = rn :: rest -> load px i = Ret (fst rn)).
Proof.
  induction m as [|m IH]; intros i Encoded Out Hm Hi H; rewrite rle_loop_eq in H.
  - destruct (Z.ltb_spec i DataLen); [lia|]. apply Ret_inj in H. subst Out.
    exists []. rewrite app_nil_r.
    split; [reflexivity|]. split; [constructor|]. split; [reflexivity|].
    split; [exact I | intros rn rest E; discriminate E].
  - destruct (Z.ltb_spec i DataLen) as [Hlt|Hge].
    + destruct (rle_entry px Palette i) as [[j e]| |] eqn:Ee; try discriminate.
      apply rle_entry_spec in Ee; [|assumption].
      destruct Ee as (Color & rl & Hl & Hrl & Hj & He & Hpx & Hnext).
      rewrite Hj in H. apply IH in H; [|lia|lia].
      destruct H as (runs & HOut & Hall & Hpxs & Hgr & Hhead).
      exists ((Color, rl) :: runs).
      assert (Htot : 0 <= run_total runs)
        by (pose proof (run_total_nonneg runs Hall); lia).
      split; [|split; [|split; [|split]]].
      * rewrite HOut, <- app_assoc. cbn [map app]. rewrite He. reflexivity.
      * constructor; [cbn; lia | assumption].
      * cbn [runs_pixels flat_map run_total fold_right fst snd].
        fold (runs_pixels runs). fold (run_total runs).
        replace (Z.to_nat (rl + run_total runs))
          with (Z.to_nat rl + Z.to_nat (run_total runs))%nat by lia.
        rewrite firstn_add, Hpx, skipn_skipn, Hpxs. unfold run_pixels. cbn [fst snd].
        do 3 f_equal. lia.
      * destruct runs as [|rn' rest]; [exact I|].
        cbn [greedy fst snd]. split; [|exact Hgr].
        destruct (Z.eq_dec rl 255) as [|Hne]; [left; assumption | right].
        destruct (Hnext ltac:(lia)) as (p & Hp & Hdiff).
        rewrite (Hhead rn' rest eq_refl) in Hp. apply Ret_inj in Hp. congruence.
      * intros rn rest E. inversion E. exact Hl.
    + apply Ret_inj in H. subst Out. exists []. rewrite app_nil_r.
      split; [reflexivity|]. split; [constructor|]. split; [reflexivity|].
      split; [exact I | intros rn rest E; discriminate E].
Qed.

(** X8.  The entries [kif_encode] emits stand for consecutive runs of equal
    pixels of the buffer, from the first pixel on: each run has between 1 and
    255 pixels, and is followed by a run of another colour unless it has
    255 pixels (a longer run of one colour is split into runs of 255). *)
Theorem kif_encode_greedy_runs malloc (px_data : list kif_rgba_t) (Header : KIFHeader)
    (len : Z) (out : encoded) :
  kif_encode malloc (Some px_data) (Some Header) (Some len) = Ret out ->
  exists Palette runs,
    _generate_palette px_data Header = Ret Palette /\
    OutputBuffer out =
      header_bytes (HeaderOut out) ++ palette_bytes Palette ++
      encoded_bytes (map (run_entry Palette) runs) /\
    Forall (fun rn : run => 1 <= snd rn <= 255) runs /\
    runs_pixels runs = firstn (Z.to_nat (run_total runs)) px_data /\
    greedy runs.
Proof.
  intros Henc.
  apply kif_encode_Ret_inv in Henc.
  destruct Henc as (Palette & Encoded & Hp & He & _ & Hb & _ & _).
  apply (rle_loop_greedy px_data Palette _ (Z.to_nat (Width Header * Height Header - 0)))
    in He; [|lia|lia].
  destruct He as (runs & -> & Hall & Hpx & Hgr & _).
  exists Palette, runs. cbn [app Z.to_nat skipn] in *.
  split; [exact Hp|]. split; [exact Hb|]. split; [exact Hall|].
  split; [exact Hpx | exact Hgr].
Qed.

(** ** Encoding then decoding, for any number of colours *)

Lemma map_repeat {A B} (f : A -> B) (x : A) n : map f (repeat x n) = repeat (f x) n.
Proof.
  induction n as [|n IH]; [reflexivity|]. cbn [repeat map]. rewrite IH. reflexivity.
Qed.

Lemma in_palette_present c Palette :
  colour_in c Palette = true ->
  0 <= _in_palette c Palette < Z.of_nat (length Palette) /\
  nth_error Palette (Z.to_nat (_in_palette c Palette)) = Some c.
Proof.
  intros Hin. unfold _in_palette.
  pose proof (in_palette_from_spec c Palette 0) as Hs. rewrite Hin in Hs.
  destruct Hs as (k & -> & Hk).
  assert (k < length Palette)%nat by (apply nth_error_Some; congruence).
  rewrite Z.add_0_l, Nat2Z.id. split; [lia | exact Hk].
Qed.

Lemma expand_runs_alias Palette runs :
  Forall (fun rn : run => 1 <= snd rn <= 255) runs ->
  (forall c, In c (runs_pixels runs) -> colour_in c Palette = true) ->
  expand Palette (map (run_entry Palette) runs) =
    map (palette_alias Palette) (runs_pixels runs) /\
  indices_valid Palette (map (run_entry Palette) runs).
Proof.
  intros Hall. induction Hall as [|[c rl] l Hrn Hl IH]; intros Hin.
  - split; [reflexivity | constructor].
  - cbn [snd] in Hrn.
    assert (Hc : colour_in c Palette = true).
    { apply Hin. cbn [runs_pixels flat_map]. apply in_or_app. left.
      unfold run_pixels. cbn [fst snd].
      replace (Z.to_nat rl) with (S (Z.to_nat (rl - 1))) by lia. left. reflexivity. }
    destruct (in_palette_present c Palette Hc) as [Hidx _].
    destruct IH as [IHe IHv].
    { intros c' Hc'. apply Hin. cbn [runs_pixels flat_map]. apply in_or_app. right.
      exact Hc'. }
    assert (Hmod : 0 <= _in_palette c Palette mod 256 <= _in_palette c Palette).
    { split; [apply Z.mod_pos_bound; lia | apply Z.mod_le; lia]. }
    split.
    + unfold expand in *. cbn [map flat_map runs_pixels]. rewrite map_app, IHe.
      f_equal. unfold entry_pixels, run_entry, run_pixels, palette_alias.
      cbn [pID rle fst snd]. rewrite !u8_uchar, map_repeat.
      rewrite (Z.mod_small rl) by lia. reflexivity.
    + constructor; [|exact IHv]. right. unfold run_entry. cbn [pID fst].
      rewrite u8_uchar. lia.
Qed.

Lemma palette_alias_same Palette c :
  colour_in c Palette = true -> _in_palette c Palette < 256 ->
  palette_alias Palette c = c.
Proof.
  intros Hin Hlt. destruct (in_palette_present c Palette Hin) as [Hidx Hn].
  unfold palette_alias. rewrite Z.mod_small by lia.
  apply nth_error_nth. exact Hn.
Qed.

Lemma palette_alias_differs Palette c :
  NoDup Palette -> colour_in c Palette = true -> 256 <= _in_palette c Palette ->
  palette_alias Palette c <> c.
Proof.
  intros Hnd Hin Hge. destruct (in_palette_present c Palette Hin) as [Hidx Hn].
  unfold palette_alias. intros E.
  assert (Hmod : 0 <= _in_palette c Palette mod 256 < 256)
    by (apply Z.mod_pos_bound; lia).
  apply (nth_error_nth _ _ black) in Hn. rewrite <- Hn in E at 2.
  apply (proj1 (NoDup_nth Palette black) Hnd) in E; lia.
Qed.

(** Under a sentinel and a palette that is not full, decoding the output of
    [kif_encode] gives every pixel the palette entry at its index modulo
    256. *)
Lemma encode_then_decode malloc px Header len Header' bpp :
  (forall n, malloc n = true) ->
  0 <= Width Header < 65536 -> 0 <= Height Header < 65536 ->
  Width Header * Height Header * 4 <= INT_MAX ->
  (0 < Width Header * Height Header -> sentinel px (Width Header * Height Header)) ->
  Z.of_nat (length (first_seen_palette (image px Header))) < 65536 ->
  bpp = 24 \/ bpp = 32 ->
  exists out,
    kif_encode malloc (Some px) (Some Header) (Some len) = Ret out /\
    Z.of_nat (length (OutputBuffer out)) = OutputLength out /\
    0 < OutputLength out <= INT_MAX /\
    kif_decode malloc (Some (OutputBuffer out)) (Some Header') bpp =
      Ret (mkDecoded
             (image_bytes bpp
                (map (palette_alias (first_seen_palette (image px Header)))
                   (image px Header)))
             (HeaderOut out)).
Proof.
  intros Hm HW HH Hint Hsen Hcol Hbpp.
  destruct (kif_encode_exact malloc px Header len Hm HW HH Hint Hsen)
    as (runs & Henc & Hall & Hpx & Htot).
  cbn zeta in Henc.
  set (Palette := first_seen_palette (image px Header)) in *.
  set (Encoded := map (run_entry Palette) runs) in *.
  destruct (expand_runs_alias Palette runs Hall) as [Hexp Hval].
  { intros c Hc. rewrite Hpx in Hc. apply first_seen_palette_complete; assumption. }
  fold Encoded in Hexp, Hval.
  pose proof (run_total_nonneg runs Hall) as Hcount.
  assert (HE : Z.of_nat (length Encoded) <= Width Header * Height Header).
  { subst Encoded. rewrite length_map. lia. }
  eexists. split; [exact Henc|]. cbn [OutputBuffer HeaderOut OutputLength].
  unfold INT_MAX in *.
  split; [|split].
  { rewrite !length_app, header_bytes_length, palette_bytes_length,
      encoded_bytes_length. lia. }
  { lia. }
  rewrite <- (app_nil_r (encoded_bytes Encoded)).
  rewrite kif_decode_serialized; try assumption.
  - rewrite Hexp, Hpx. reflexivity.
  - unfold header_in_range, encoded_header, uint16, uint32, kif1. cbn.
    rewrite (Z.mod_small (Z.of_nat (length Palette))) by lia.
    rewrite (Z.mod_small (Z.of_nat (length Encoded))) by lia.
    lia.
  - unfold encoded_header, uint16. cbn. rewrite Z.mod_small; lia.
  - unfold encoded_header, uint32. cbn. rewrite Z.mod_small; lia.
  - rewrite Hexp, Hpx, length_map. cbn [encoded_header Width Height].
    unfold image. rewrite length_firstn. lia.
  - unfold encoded_header, uint32, INT_MAX. cbn. rewrite Z.mod_small; lia.
Qed.

(** X16.  The round trip with any number of colours below the palette's capacity:
    when the word after the image differs from its last pixel, decoding the
    output of [kif_encode] returns, for each pixel, the palette entry at the
    pixel's palette index modulo 256.  A pixel comes back unchanged exactly
    when its colour is among the first 256 entries of the palette. *)
Theorem roundtrip_wraps_palette_index malloc (px_data : list kif_rgba_t)
    (Header : KIFHeader) (len : Z) (Header' : KIFHeader) (OutputBPP : Z) :
  (forall n, malloc n = true) ->
  0 <= Width Header < 65536 -> 0 <= Height Header < 65536 ->
  Width Header * Height Header * 4 <= INT_MAX ->
  (0 < Width Header * Height Header ->
     sentinel px_data (Width Header * Height Header)) ->
  distinct_colours (image px_data Header) < 65536 ->
  OutputBPP = 24 \/ OutputBPP = 32 ->
  exists out Palette,
    kif_encode malloc (Some px_data) (Some Header) (Some len) = Ret out /\
    _generate_palette px_data Header = Ret Palette /\
    kif_decode malloc (Some (OutputBuffer out)) (Some Header') OutputBPP =
      Ret (mkDecoded
             (image_bytes OutputBPP (map (palette_alias Palette) (image px_data Header)))
             (HeaderOut out)) /\
    (forall c, In c (image px_data Header) ->
       (palette_alias Palette c = c <-> _in_palette c Palette < 256)).
Proof.
  intros Hm HW HH Hint Hsen Hcol Hbpp.
  pose proof (first_seen_palette_length (image px_data Header)) as Hlen.
  destruct (encode_then_decode malloc px_data Header len Header' OutputBPP
              Hm HW HH Hint Hsen ltac:(lia) Hbpp) as (out & Henc & _ & _ & Hdec).
  exists out, (first_seen_palette (image px_data Header)).
  split; [exact Henc|]. split.
  { apply kif_encode_Ret_inv in Henc. destruct Henc as (P & E & Hp & _).
    rewrite Hp. f_equal. apply generate_palette_Ret in Hp. apply Hp. }
  split; [exact Hdec|].
  intros c Hc.
  assert (Hin : colour_in c (first_seen_palette (image px_data Header)) = true)
    by (apply first_seen_palette_complete; [lia | exact Hc]).
  pose proof (fold_first_seen_inv (image px_data Header) [black] palette_inv_initial)
    as (_ & Hnd & _).
  apply NoDup_map_inv in Hnd. fold (first_seen_palette (image px_data Header)) in Hnd.
  split.
  - intros Heq.
    destruct (Z.lt_ge_cases (_in_palette c (first_seen_palette (image px_data Header))) 256)
      as [Hlt|Hge]; [exact Hlt|].
    exfalso. exact (palette_alias_differs _ c Hnd Hin Hge Heq).
  - apply palette_alias_same. exact Hin.
Qed.

(** ** The decoder *)

Lemma lor_bytes32 x0 x1 x2 x3 :
  0 <= x0 < 256 -> 0 <= x1 < 256 -> 0 <= x2 < 256 -> 0 <= x3 < 256 ->
  Z.lor (Z.lor (Z.lor (Z.shiftl x3 24) (Z.shiftl x2 16)) (Z.shiftl x1 8)) x0 =
  x0 + x1 * 256 + x2 * 65536 + x3 * 16777216.
Proof.
  intros H0 H1 H2 H3. rewrite !Z.shiftl_mul_pow2 by lia.
  change (2 ^ 8) with 256. change (2 ^ 16) with 65536. change (2 ^ 24) with 16777216.
  replace (x3 * 16777216) with ((x3 * 256) * 2 ^ 16) by lia.
  replace (x2 * 65536) with (x2 * 2 ^ 16) by lia.
  rewrite <- !Z.shiftl_mul_pow2, <- Z.shiftl_lor by lia.
  rewrite Z.shiftl_mul_pow2 by lia.
  replace (x3 * 256) with (x3 * 2 ^ 8) by lia.
  rewrite (lor_mul_add x3 x2 8) by lia.
  replace ((x3 * 2 ^ 8 + x2) * 2 ^ 16) with (((x3 * 2 ^ 8 + x2) * 256) * 2 ^ 8) by lia.
  replace (x1 * 256) with (x1 * 2 ^ 8) by lia.
  rewrite <- !Z.shiftl_mul_pow2, <- Z.shiftl_lor by lia.
  rewrite !Z.shiftl_mul_pow2 by lia.
  replace ((x3 * 2 ^ 8 + x2) * 256) with ((x3 * 2 ^ 8 + x2) * 2 ^ 8) by lia.
  rewrite (lor_mul_add _ x1 8) by lia.
  rewrite (lor_mul_add _ x0 8) by lia.
  change (2 ^ 8) with 256. lia.
Qed.

Lemma lor_bytes16 x0 x1 :
  0 <= x0 < 256 -> 0 <= x1 < 256 ->
  Z.lor (Z.shiftl x1 8) x0 = x0 + x1 * 256.
Proof.
  intros H0 H1. rewrite Z.shiftl_mul_pow2 by lia.
  rewrite lor_mul_add by lia. change (2 ^ 8) with 256. lia.
Qed.

(** X1.  [_read16bit] and [_read32bit] read little-endian: the byte at the lowest
    offset is the least significant.  They read outside of a buffer that
    ends before their last byte. *)
Theorem readers_little_endian (pre rest : list byte) (b0 b1 b2 b3 : byte) :
  _read16bit (pre ++ b0 :: b1 :: rest) (Z.of_nat (length pre)) =
    Ret (u8 b0 + 256 * u8 b1) /\
  _read32bit (pre ++ b0 :: b1 :: b2 :: b3 :: rest) (Z.of_nat (length pre)) =
    Ret (u8 b0 + 256 * u8 b1 + 65536 * u8 b2 + 16777216 * u8 b3) /\
  _read16bit (pre ++ [b0]) (Z.of_nat (length pre)) = Undefined /\
  _read32bit (pre ++ [b0; b1; b2]) (Z.of_nat (length pre)) = Undefined.
Proof.
  pose proof (u8_range b0). pose proof (u8_range b1).
  pose proof (u8_range b2). pose proof (u8_range b3).
  unfold _read16bit, _read32bit. split; [|split; [|split]].
  - rewrite (load_app_off pre _ _ 1), (load_app_off pre _ _ 0) by lia.
    cbn [nth_error bind]. rewrite lor_bytes16 by assumption.
    unfold uint16. rewrite Z.mod_small by lia. f_equal. lia.
  - rewrite (load_app_off pre _ _ 3), (load_app_off pre _ _ 2),
      (load_app_off pre _ _ 1), (load_app_off pre _ _ 0) by lia.
    cbn [nth_error bind]. rewrite lor_bytes32 by assumption.
    unfold uint32. rewrite Z.mod_small by lia. f_equal. lia.
  - rewrite (load_outside _ (Z.of_nat (length pre) + 1))
      by (rewrite length_app; cbn [length]; lia).
    reflexivity.
  - rewrite (load_outside _ (Z.of_nat (length pre) + 3))
      by (rewrite length_app; cbn [length]; lia).
    reflexivity.
Qed.

Lemma le32_read b0 b1 b2 b3 :
  le32 (uint32 (Z.lor (Z.lor (Z.lor (Z.shiftl (u8 b3) 24) (Z.shiftl (u8 b2) 16))
                             (Z.shiftl (u8 b1) 8)) (u8 b0))) = [b0; b1; b2; b3].
Proof.
  pose proof (u8_range b0). pose proof (u8_range b1).
  pose proof (u8_range b2). pose proof (u8_range b3).
  rewrite lor_bytes32 by assumption. unfold uint32, le32.
  rewrite Z.mod_small by lia.
  set (V := u8 b0 + u8 b1 * 256 + u8 b2 * 65536 + u8 b3 * 16777216).
  assert (E0 : uchar V = b0).
  { apply u8_inj. rewrite u8_uchar. subst V. Z.div_mod_to_equations. lia. }
  assert (E1 : uchar (Z.shiftr V 8) = b1).
  { apply u8_inj. rewrite u8_uchar, Z.shiftr_div_pow2 by lia. change (2 ^ 8) with 256.
    subst V. Z.div_mod_to_equations. lia. }
  assert (E2 : uchar (Z.shiftr V 16) = b2).
  { apply u8_inj. rewrite u8_uchar, Z.shiftr_div_pow2 by lia.
    change (2 ^ 16) with 65536. subst V. Z.div_mod_to_equations. lia. }
  assert (E3 : uchar (Z.shiftr V 24) = b3).
  { apply u8_inj. rewrite u8_uchar, Z.shiftr_div_pow2 by lia.
    change (2 ^ 24) with 16777216. subst V. Z.div_mod_to_equations. lia. }
  rewrite E0, E1, E2, E3. reflexivity.
Qed.

Lemma le16_read b0 b1 :
  le16 (uint16 (Z.lor (Z.shiftl (u8 b1) 8) (u8 b0))) = [b0; b1].
Proof.
  pose proof (u8_range b0). pose proof (u8_range b1).
  rewrite lor_bytes16 by assumption. unfold uint16, le16.
  rewrite Z.mod_small by lia.
  set (V := u8 b0 + u8 b1 * 256).
  assert (E0 : uchar V = b0).
  { apply u8_inj. rewrite u8_uchar. subst V. Z.div_mod_to_equations. lia. }
  assert (E1 : uchar (Z.shiftr V 8) = b1).
  { apply u8_inj. rewrite u8_uchar, Z.shiftr_div_pow2 by lia. change (2 ^ 8) with 256.
    subst V. Z.div_mod_to_equations. lia. }
  rewrite E0, E1. reflexivity.
Qed.

Lemma read_header_bytes d h :
  read_header d = Ret h -> exists rest, d = header_bytes h ++ rest.
Proof.
  intros Hh. pose proof (read_header_Ret_inv d h Hh) as [Hlen _].
  do 16 (destruct d as [|? d]; [cbn [length] in Hlen; lia|]).
  exists d. revert Hh.
  unfold read_header, _read32bit, _read16bit.
  repeat match goal with
  | |- context [load (?x0 :: ?l) ?k] =>
      let k' := eval cbv in k in
      let n := eval cbv in (Z.to_nat k') in
      change (load (x0 :: l) k) with (load (x0 :: l) (Z.of_nat n));
      rewrite (load_nth (x0 :: l) n); cbn [nth_error bind]
  end.
  intros H. apply Ret_inj in H. subst h.
  unfold header_bytes. cbn [Magic BPP Compressed palEntries Width Height RLEEntries].
  rewrite !le32_read, !le16_read, !uchar_u8. reflexivity.
Qed.

Lemma skipn_load4 {A} (d : list A) k x0 x1 x2 x3 :
  load d k = Ret x0 -> load d (k + 1) = Ret x1 ->
  load d (k + 2) = Ret x2 -> load d (k + 3) = Ret x3 ->
  skipn (Z.to_nat k) d = x0 :: x1 :: x2 :: x3 :: skipn (Z.to_nat (k + 4)) d.
Proof.
  intros H0 H1 H2 H3.
  rewrite (load_skipn _ _ _ H0), (load_skipn _ _ _ H1).
  replace (k + 1 + 1) with (k + 2) by lia. rewrite (load_skipn _ _ _ H2).
  replace (k + 2 + 1) with (k + 3) by lia. rewrite (load_skipn _ _ _ H3).
  replace (k + 3 + 1) with (k + 4) by lia. reflexivity.
Qed.

Lemma read_palette_Ret_inv d n :
  forall i Palette, 0 <= i ->
    read_palette d n i = Ret Palette ->
    length Palette = n /\
    firstn (4 * n) (skipn (Z.to_nat (16 + 4 * i)) d) = palette_bytes Palette.
Proof.
  induction n as [|n IH]; intros i Palette Hi H; cbn [read_palette] in H.
  - apply Ret_inj in H. subst Palette. split; reflexivity.
  - unfold sizeof_KIFHeader in H.
    destruct (load d (16 + i * 4)) as [x0| |] eqn:E0; cbn [bind] in H; try discriminate.
    destruct (load d (16 + i * 4 + 1)) as [x1| |] eqn:E1; cbn [bind] in H;
      try discriminate.
    destruct (load d (16 + i * 4 + 2)) as [x2| |] eqn:E2; cbn [bind] in H;
      try discriminate.
    destruct (load d (16 + i * 4 + 3)) as [x3| |] eqn:E3; cbn [bind] in H;
      try discriminate.
    destruct (read_palette d n (i + 1)) as [rest| |] eqn:Er; cbn [bind] in H;
      try discriminate.
    apply Ret_inj in H. subst Palette.
    apply IH in Er; [|lia]. destruct Er as [Hlen Hbytes].
    split; [cbn [length]; lia|].
    replace (16 + 4 * i) with (16 + i * 4) by lia.
    rewrite (skipn_load4 d (16 + i * 4) x0 x1 x2 x3 E0 E1 E2 E3).
    replace (4 * S n)%nat with (S (S (S (S (4 * n))))) by lia.
    cbn [firstn]. unfold palette_bytes in *. cbn [flat_map rgba_bytes app r g b a].
    replace (16 + i * 4 + 4) with (16 + 4 * (i + 1)) by lia.
    rewrite Hbytes. reflexivity.
Qed.

Lemma store_Ret_inv ok cap Decoded x D' :
  store ok cap Decoded x = Ret D' ->
  D' = Decoded ++ [x] /\ ok = true /\ Z.of_nat (length D') <= cap.
Proof.
  unfold store. destruct ok; cbn [andb]; [|discriminate].
  destruct (Z.ltb_spec (Z.of_nat (length Decoded)) cap); [|discriminate].
  intros H'. apply Ret_inj in H'. subst D'.
  rewrite length_app. cbn [length]. split; [reflexivity|]. split; [reflexivity | lia].
Qed.

Lemma emit_run_Ret_inv Palette bpp ok cap index n :
  forall Decoded D',
    emit_run Palette bpp ok cap index n Decoded = Ret D' ->
    D' = Decoded ++
         image_bytes bpp (repeat (nth (Z.to_nat index) Palette black) n) /\
    ((0 < n)%nat ->
       0 <= index < Z.of_nat (length Palette) /\ ok = true /\
       Z.of_nat (length D') <= cap).
Proof.
  induction n as [|n IH]; intros Decoded D' H; cbn [emit_run] in H.
  - apply Ret_inj in H. subst D'. cbn [repeat image_bytes flat_map].
    rewrite app_nil_r. split; [reflexivity | lia].
  - destruct (load Palette index) as [c| |] eqn:El; cbn [bind] in H; try discriminate.
    pose proof (load_Ret_inv _ _ _ El) as [Hidx Hn].
    destruct (store ok cap Decoded (r c)) as [D1| |] eqn:E1; cbn [bind] in H;
      try discriminate.
    destruct (store ok cap D1 (g c)) as [D2| |] eqn:E2; cbn [bind] in H;
      try discriminate.
    destruct (store ok cap D2 (b c)) as [D3| |] eqn:E3; cbn [bind] in H;
      try discriminate.
    apply store_Ret_inv in E1, E2, E3.
    destruct E1 as (-> & Hok & L1), E2 as (-> & _ & L2), E3 as (-> & _ & L3).
    assert (Hc : nth (Z.to_nat index) Palette black = c)
      by (apply nth_error_nth; exact Hn).
    cbn [repeat]. unfold image_bytes in *. cbn [flat_map]. rewrite Hc.
    unfold pixel_bytes at 1.
    destruct (bpp =? 32) eqn:Eb.
    + destruct (store ok cap _ (a c)) as [D4| |] eqn:E4; cbn [bind] in H;
        try discriminate.
      apply store_Ret_inv in E4. destruct E4 as (-> & _ & L4).
      pose proof (IH _ _ H) as [HD' Hrest].
      split.
      * rewrite HD', Hc, <- !app_assoc. reflexivity.
      * intros _. split; [exact Hidx|]. split; [exact Hok|].
        destruct n as [|n]; [|apply Hrest; lia].
        cbn [emit_run] in H. apply Ret_inj in H. subst D'. exact L4.
    + cbn [bind] in H.
      pose proof (IH _ _ H) as [HD' Hrest].
      split.
      * rewrite HD', Hc, <- !app_assoc. reflexivity.
      * intros _. split; [exact Hidx|]. split; [exact Hok|].
        destruct n as [|n]; [|apply Hrest; lia].
        cbn [emit_run] in H. apply Ret_inj in H. subst D'. exact L3.
Qed.

Lemma decode_runs_Ret_inv d Palette pal bpp ok cap n :
  0 <= pal ->
  forall i Decoded D',
    0 <= i -> Z.of_nat (length Decoded) <= cap ->
    decode_runs d Palette pal bpp ok cap n i Decoded = Ret D' ->
    exists Encoded,
      length Encoded = n /\
      firstn (2 * n) (skipn (Z.to_nat (16 + 4 * pal + 2 * i)) d) = encoded_bytes Encoded /\
      indices_valid Palette Encoded /\
      D' = Decoded ++ image_bytes bpp (expand Palette Encoded) /\
      Z.of_nat (length D') <= cap /\
      (D' <> Decoded -> ok = true) /\
      ((0 < n)%nat -> (i + Z.of_nat n - 1) * 2 <= INT_MAX).
Proof.
  intros Hpal. induction n as [|n IH]; intros i Decoded D' Hi Hcap H;
    cbn [decode_runs] in H.
  - apply Ret_inj in H. subst D'. exists []. cbn [expand flat_map image_bytes].
    rewrite app_nil_r.
    split; [reflexivity|]. split; [reflexivity|]. split; [constructor|].
    split; [reflexivity|]. split; [exact Hcap|]. split; [congruence | lia].
  - unfold sizeof_KIFHeader in H.
    destruct (Z.ltb_spec INT_MAX (i * 2)) as [|Hi2]; [discriminate|].
    destruct (load d (16 + pal * 4 + i * 2)) as [x0| |] eqn:E0; cbn [bind] in H;
      try discriminate.
    destruct (load d (16 + pal * 4 + i * 2 + 1)) as [x1| |] eqn:E1; cbn [bind] in H;
      try discriminate.
    destruct (emit_run Palette bpp ok cap (u8 x0) (Z.to_nat (u8 x1)) Decoded)
      as [D1| |] eqn:Ee; cbn [bind] in H; try discriminate.
    apply emit_run_Ret_inv in Ee. destruct Ee as [HD1 Hrun].
    assert (Hcap1 : Z.of_nat (length D1) <= cap).
    { destruct (Z.to_nat (u8 x1)) as [|k] eqn:Ek.
      - subst D1. cbn [repeat image_bytes flat_map]. rewrite app_nil_r. exact Hcap.
      - apply Hrun. lia. }
    apply IH in H; [|lia|exact Hcap1].
    destruct H as (Encoded & Hlen & Hbytes & Hval & HD' & Hcap' & Hok & Hmax).
    exists (mkRLE x0 x1 :: Encoded).
    split; [cbn [length]; lia|]. split; [|split; [|split; [|split; [|split]]]].
    + replace (16 + 4 * pal + 2 * i) with (16 + pal * 4 + i * 2) by lia.
      rewrite (load_skipn _ _ _ E0), (load_skipn _ _ _ E1).
      replace (2 * S n)%nat with (S (S (2 * n))) by lia.
      cbn [firstn]. unfold encoded_bytes in *. cbn [flat_map rle_bytes app pID rle].
      replace (16 + pal * 4 + i * 2 + 1 + 1) with (16 + 4 * pal + 2 * (i + 1)) by lia.
      rewrite Hbytes. reflexivity.
    + constructor; [|exact Hval]. cbn [pID rle].
      pose proof (u8_range x1).
      destruct (Z.eq_dec (u8 x1) 0) as [|Hnz]; [left; assumption | right].
      apply Hrun. lia.
    + rewrite HD', HD1. unfold expand. cbn [flat_map]. rewrite image_bytes_app.
      unfold entry_pixels. cbn [pID rle]. rewrite <- app_assoc. reflexivity.
    + exact Hcap'.
    + intros Hne.
      destruct (Z.to_nat (u8 x1)) as [|k] eqn:Ek.
      * apply Hok. subst D1. cbn [repeat image_bytes flat_map] in *.
        rewrite app_nil_r in *. exact Hne.
      * apply Hrun. lia.
    + intros _. destruct n as [|n]; [lia|]. specialize (Hmax ltac:(lia)). lia.
Qed.

Lemma kif_decode_of_layout malloc h Palette Encoded rest Header bpp :
  bpp = 24 \/ bpp = 32 ->
  header_in_range h ->
  Z.of_nat (length Palette) = palEntries h ->
  Z.of_nat (length Encoded) = RLEEntries h ->
  indices_valid Palette Encoded ->
  Z.of_nat (length (image_bytes bpp (expand Palette Encoded))) <= Width h * Height h * 4 ->
  Width h * Height h * 4 <= INT_MAX ->
  (RLEEntries h - 1) * 2 <= INT_MAX ->
  malloc (palEntries h * 4) = true \/ palEntries h = 0 ->
  malloc (Width h * Height h * 4) = true ->
  kif_decode malloc
    (Some (header_bytes h ++ palette_bytes Palette ++ encoded_bytes Encoded ++ rest))
    (Some Header) bpp
  = Ret (mkDecoded (image_bytes bpp (expand Palette Encoded)) h).
Proof.
  intros Hbpp Hr Hp He Hv Hpx Hcap Hrle Hmp Hmd. unfold kif_decode.
  assert (Hg : negb (bpp =? 24) && negb (bpp =? 32) = false)
    by (destruct Hbpp; subst; reflexivity).
  rewrite Hg, read_header_header_bytes by assumption. cbn [bind].
  unfold sizeof_kif_rgba_t.
  assert (Hgp : negb (malloc (palEntries h * 4)) && (0 <? palEntries h) = false).
  { destruct Hmp as [-> | ->]; [reflexivity|]. apply andb_false_r. }
  rewrite Hgp.
  replace (Z.to_nat (palEntries h)) with (length Palette) by lia.
  rewrite read_palette_palette_bytes by (rewrite ?header_bytes_length; lia).
  cbn [bind].
  destruct (Z.ltb_spec INT_MAX (Width h * Height h * 4)); [lia|].
  replace (Z.to_nat (RLEEntries h)) with (length Encoded) by lia.
  rewrite (app_assoc (header_bytes h)), Hmd.
  rewrite decode_runs_encoded_bytes;
    [ reflexivity | lia
    | rewrite length_app, header_bytes_length, palette_bytes_length; lia
    | lia | assumption | cbn [length]; lia ].
Qed.

(** X10.  The decoder on a file laid out as header, palette, entries: when the
    counts are those of the header, every entry with a run names an existing
    palette entry, the expansion fits in the Width * Height * 4 bytes that
    the decoder allocates and the allocations succeed, [kif_decode] returns
    the header of the file and, entry by entry, run-length copies of the
    palette colour, at 3 or 4 bytes per pixel. *)
Theorem kif_decode_expands_entries malloc (h : KIFHeader) (Palette : list kif_rgba_t)
    (Encoded : list kif_rle_t) (rest : list byte) (Header : KIFHeader) (OutputBPP : Z) :
  OutputBPP = 24 \/ OutputBPP = 32 ->
  header_in_range h ->
  Z.of_nat (length Palette) = palEntries h ->
  Z.of_nat (length Encoded) = RLEEntries h ->
  indices_valid Palette Encoded ->
  Z.of_nat (length (image_bytes OutputBPP (expand Palette Encoded)))
    <= Width h * Height h * 4 ->
  Width h * Height h * 4 <= INT_MAX ->
  (RLEEntries h - 1) * 2 <= INT_MAX ->
  malloc (palEntries h * 4) = true \/ palEntries h = 0 ->
  malloc (Width h * Height h * 4) = true ->
  kif_decode malloc
    (Some (header_bytes h ++ palette_bytes Palette ++ encoded_bytes Encoded ++ rest))
    (Some Header) OutputBPP
  = Ret (mkDecoded (image_bytes OutputBPP (expand Palette Encoded)) h).
Proof.
  apply kif_decode_of_layout.
Qed.

Lemma kif_decode_layout_of_Ret malloc d Header bpp out :
  kif_decode malloc (Some d) Header bpp = Ret out ->
  Header <> None /\ (bpp = 24 \/ bpp = 32) /\
  exists Palette Encoded rest,
    d = header_bytes (HeaderRead out) ++ palette_bytes Palette ++
        encoded_bytes Encoded ++ rest /\
    header_in_range (HeaderRead out) /\
    Z.of_nat (length Palette) = palEntries (HeaderRead out) /\
    Z.of_nat (length Encoded) = RLEEntries (HeaderRead out) /\
    indices_valid Palette Encoded /\
    Pixels out = image_bytes bpp (expand Palette Encoded) /\
    Z.of_nat (length (Pixels out)) <=
      Width (HeaderRead out) * Height (HeaderRead out) * 4 /\
    Width (HeaderRead out) * Height (HeaderRead out) * 4 <= INT_MAX /\
    (RLEEntries (HeaderRead out) - 1) * 2 <= INT_MAX /\
    (malloc (palEntries (HeaderRead out) * 4) = true \/ palEntries (HeaderRead out) = 0) /\
    malloc (Width (HeaderRead out) * Height (HeaderRead out) * 4) = true.
Proof.
  unfold kif_decode. destruct Header as [h0|]; [|discriminate].
  destruct (Z.eqb_spec bpp 24) as [E24|N24]; cbn [negb andb];
    [|destruct (Z.eqb_spec bpp 32) as [E32|N32]; cbn [negb]; [|discriminate]].
  all: intros H; split; [discriminate|]; split; [auto|].
  all: destruct (read_header d) as [h| |] eqn:Eh; cbn [bind] in H; try discriminate.
  all: pose proof (read_header_Ret_inv d h Eh) as [_ Hr].
  all: pose proof Hr as (_ & _ & _ & HP & HW & HH & HR).
  all: apply read_header_bytes in Eh; destruct Eh as [rest0 Hd].
  all: unfold sizeof_kif_rgba_t in H.
  all: destruct (malloc (palEntries h * 4)) eqn:Emp; cbn [negb andb] in H.
  all: try (destruct (Z.ltb_spec 0 (palEntries h)) as [Hpos|Hzero]; [discriminate|]).
  all: destruct (read_palette d (Z.to_nat (palEntries h)) 0) as [Palette| |] eqn:Ep;
    cbn [bind] in H; try discriminate.
  all: apply read_palette_Ret_inv in Ep; [|lia]; destruct Ep as [HlenP HbP].
  all: destruct (Z.ltb_spec INT_MAX (Width h * Height h * 4)) as [|Hcap];
    [discriminate|].
  all: destruct (decode_runs d Palette (palEntries h) bpp _ _ _ 0 []) as [Decoded| |]
    eqn:Ed; cbn [bind] in H; try discriminate.
  all: destruct (malloc (Width h * Height h * 4)) eqn:Emd; [|discriminate].
  all: apply Ret_inj in H; subst out; cbn [HeaderRead Pixels].
  all: apply decode_runs_Ret_inv in Ed; [|lia|lia|cbn [length]; lia].
  all: destruct Ed as (Encoded & HlenE & HbE & Hval & HD & HcapD & _ & Hmax).
  all: exists Palette, Encoded,
         (skipn (2 * Z.to_nat (RLEEntries h)) (skipn (4 * Z.to_nat (palEntries h)) rest0)).
  all: assert (Hskip : skipn 16 d = rest0)
    by (rewrite Hd; reflexivity).
  all: split.
  all: try (rewrite Hd at 1; f_equal;
    rewrite <- (firstn_skipn (4 * Z.to_nat (palEntries h)) rest0) at 1; f_equal;
    [ rewrite <- HbP, <- Hskip; reflexivity
    | rewrite <- (firstn_skipn (2 * Z.to_nat (RLEEntries h))
                    (skipn (4 * Z.to_nat (palEntries h)) rest0)) at 1; f_equal;
      rewrite <- HbE, <- Hskip, skipn_skipn; do 2 f_equal; lia ]).
  all: split; [exact Hr|].
  all: split; [lia|]. all: split; [lia|]. all: split; [exact Hval|].
  all: split; [exact HD|]. all: split; [exact HcapD|]. all: split; [exact Hcap|].
  all: split; [destruct (Z.to_nat (RLEEntries h)) eqn:En;
               [unfold INT_MAX; lia | specialize (Hmax ltac:(lia)); lia]|].
  all: split; [first [left; exact Emp | right; lia] | exact Emd].
Qed.

(** X11.  Whenever [kif_decode] returns a buffer, the input starts with a header,
    as many palette entries and as many run-length entries as the header
    counts; every entry with a run names an existing palette entry; the
    pixels returned are the run-length copies of the palette colours, entry
    by entry; and they fit in the Width * Height * 4 bytes allocated. *)
Theorem kif_decode_sound malloc (d : list byte) (Header : option KIFHeader)
    (OutputBPP : Z) (out : decoded) :
  kif_decode malloc (Some d) Header OutputBPP = Ret out ->
  (OutputBPP = 24 \/ OutputBPP = 32) /\
  exists Palette Encoded rest,
    d = header_bytes (HeaderRead out) ++ palette_bytes Palette ++
        encoded_bytes Encoded ++ rest /\
    header_in_range (HeaderRead out) /\
    Z.of_nat (length Palette) = palEntries (HeaderRead out) /\
    Z.of_nat (length Encoded) = RLEEntries (HeaderRead out) /\
    indices_valid Palette Encoded /\
    Pixels out = image_bytes OutputBPP (expand Palette Encoded) /\
    Z.of_nat (length (Pixels out)) <=
      Width (HeaderRead out) * Height (HeaderRead out) * 4.
Proof.
  intros H. apply kif_decode_layout_of_Ret in H.
  destruct H as (_ & Hbpp & Palette & Encoded & rest & Hd & Hr & Hp & He & Hv & Hpx & Hcap & _).
  split; [exact Hbpp|]. exists Palette, Encoded, rest.
  repeat (split; [assumption|]). exact Hcap.
Qed.

(** X12.  Bytes after the run-length entries are not read: a successful decode
    returns the same result when anything is appended to the input. *)
Theorem kif_decode_ignores_trailing_bytes malloc (d extra : list byte)
    (Header : option KIFHeader) (OutputBPP : Z) (out : decoded) :
  kif_decode malloc (Some d) Header OutputBPP = Ret out ->
  kif_decode malloc (Some (d ++ extra)) Header OutputBPP = Ret out.
Proof.
  intros H. apply kif_decode_layout_of_Ret in H.
  destruct H as (HH & Hbpp & Palette & Encoded & rest & Hd & Hr & Hp & He & Hv & Hpx
                 & Hcap & Hint & Hrle & Hmp & Hmd).
  destruct Header as [h0|]; [|contradiction].
  rewrite Hd, <- !app_assoc.
  rewrite (kif_decode_of_layout malloc (HeaderRead out) Palette Encoded (rest ++ extra)
             h0 OutputBPP); try assumption.
  - rewrite <- Hpx. destruct out; reflexivity.
  - rewrite <- Hpx. exact Hcap.
Qed.

Lemma image_bytes_24_le_32 pixels :
  (length (image_bytes 24 pixels) <= length (image_bytes 32 pixels))%nat.
Proof.
  unfold image_bytes. induction pixels as [|c l IH]; [reflexivity|].
  cbn [flat_map]. rewrite !length_app. cbn. lia.
Qed.

(** X13.  The two output depths: whenever decoding at depth 32 returns pixels,
    decoding the same input at depth 24 returns the same pixels without
    their alpha bytes, and the same header. *)
Theorem kif_decode_depth_24_strips_alpha malloc (d : list byte)
    (Header : option KIFHeader) (out : decoded) :
  kif_decode malloc (Some d) Header 32 = Ret out ->
  exists pixels,
    Pixels out = flat_map rgba_bytes pixels /\
    kif_decode malloc (Some d) Header 24 =
      Ret (mkDecoded (flat_map rgb_bytes pixels) (HeaderRead out)).
Proof.
  intros H. apply kif_decode_layout_of_Ret in H.
  destruct H as (HH & _ & Palette & Encoded & rest & Hd & Hr & Hp & He & Hv & Hpx
                 & Hcap & Hint & Hrle & Hmp & Hmd).
  destruct Header as [h0|]; [|contradiction].
  exists (expand Palette Encoded). split; [exact Hpx|].
  rewrite Hd.
  rewrite (kif_decode_of_layout malloc (HeaderRead out) Palette Encoded rest h0 24);
    try assumption.
  - reflexivity.
  - left; reflexivity.
  - pose proof (image_bytes_24_le_32 (expand Palette Encoded)).
    rewrite Hpx in Hcap. lia.
Qed.

(** ** The file helpers *)

Lemma int_of_long_small z : 0 <= z <= INT_MAX -> int_of_long z = z.
Proof.
  unfold int_of_long, INT_MAX. intros Hz. rewrite Z.mod_small; lia.
Qed.

Lemma fs_store_same fs Filename content :
  fs_store fs Filename content Filename = Some content.
Proof.
  unfold fs_store. rewrite String.eqb_refl. reflexivity.
Qed.

Lemma fs_store_other fs Filename content name :
  name <> Filename -> fs_store fs Filename content name = fs name.
Proof.
  intros Hne. unfold fs_store.
  destruct (String.eqb_spec name Filename); [contradiction | reflexivity].
Qed.

Lemma kif_encode_Some_inv malloc Data Header len out :
  kif_encode malloc Data Header (Some len) = Ret out ->
  exists px h, Data = Some px /\ Header = Some h.
Proof.
  destruct Data as [px|]; [|discriminate].
  destruct Header as [h|]; [|destruct px; discriminate].
  intros _. exists px, h. split; reflexivity.
Qed.

Lemma kif_encode_buffer_length malloc Data Header len out :
  kif_encode malloc Data Header (Some len) = Ret out ->
  OutputLength out = Z.of_nat (length (OutputBuffer out)) /\
  16 <= OutputLength out <= INT_MAX.
Proof.
  intros Henc. destruct (kif_encode_Some_inv _ _ _ _ _ Henc) as (px & h & -> & ->).
  apply kif_encode_Ret_inv in Henc.
  destruct Henc as (Palette & Encoded & _ & _ & _ & Hb & Hl & Hmax).
  split.
  - rewrite Hl, Hb, !length_app, header_bytes_length, palette_bytes_length,
      encoded_bytes_length. lia.
  - lia.
Qed.

(** X17.  What [kif_write] leaves behind.  No file other than [Filename] changes.
    The call returns 0 exactly when the file cannot be opened or [kif_encode]
    returns NULL; in the first case the files are untouched, in the second
    the file has already been emptied.  Otherwise the value returned is the
    length of the encoder's output, at least 16, and the file holds exactly
    that output. *)
Theorem kif_write_result malloc fopen_wb (fs : file_system) (Filename : String.string)
    (Data : option (list kif_rgba_t)) (Header : option KIFHeader) (w : written) :
  kif_write malloc fopen_wb fs Filename Data Header = Ret w ->
  (forall name, name <> Filename -> FilesAfter w name = fs name) /\
  (Returned w = 0 <->
     fopen_wb Filename = false \/ kif_encode malloc Data Header (Some 0) = Null) /\
  (fopen_wb Filename = false -> FilesAfter w = fs) /\
  (fopen_wb Filename = true -> kif_encode malloc Data Header (Some 0) = Null ->
     FilesAfter w Filename = Some []) /\
  (Returned w <> 0 ->
     exists out,
       kif_encode malloc Data Header (Some 0) = Ret out /\
       FilesAfter w Filename = Some (OutputBuffer out) /\
       Returned w = Z.of_nat (length (OutputBuffer out)) /\
       16 <= Returned w <= INT_MAX).
Proof.
  unfold kif_write. destruct (fopen_wb Filename) eqn:Eo; cbn [negb].
  - destruct (kif_encode malloc Data Header (Some 0)) as [out| |] eqn:Ee;
      [ | | discriminate ]; intros Hw; apply Ret_inj in Hw; subst w;
      cbn [Returned FilesAfter].
    + destruct (kif_encode_buffer_length _ _ _ _ _ Ee) as [Hlen Hrange].
      assert (Hall : firstn (Z.to_nat (OutputLength out)) (OutputBuffer out) =
                     OutputBuffer out).
      { apply firstn_all2. lia. }
      rewrite Hall.
      split; [intros name Hne; rewrite !fs_store_other by exact Hne; reflexivity|].
      split; [split; [lia | intros [H|H]; discriminate]|].
      split; [discriminate|]. split; [discriminate|].
      intros _. exists out. split; [reflexivity|].
      split; [apply fs_store_same|]. split; [exact Hlen | exact Hrange].
    + split; [intros name Hne; apply fs_store_other; exact Hne|].
      split; [split; [right; reflexivity | reflexivity]|].
      split; [discriminate|]. split; [intros _ _; apply fs_store_same|].
      intros H; contradiction H; reflexivity.
  - intros Hw; apply Ret_inj in Hw; subst w; cbn [Returned FilesAfter].
    split; [reflexivity|].
    split; [split; [left; reflexivity | reflexivity]|].
    split; [reflexivity|]. split; [discriminate|].
    intros H; contradiction H; reflexivity.
Qed.

(** X18.  The round trip through a file: when the file opens, allocations succeed,
    the word after the image differs from its last pixel and the image has at
    most 256 colours (the reserved one included), [kif_read] on the file that
    [kif_write] wrote returns the image, at 3 or 4 bytes per pixel, and the
    image's dimensions. *)
Theorem kif_write_then_kif_read malloc fopen_wb (fs : file_system)
    (Filename : String.string) (px_data : list kif_rgba_t) (Header Header' : KIFHeader)
    (OutputBPP : Z) :
  (forall n, malloc n = true) ->
  fopen_wb Filename = true ->
  0 <= Width Header < 65536 -> 0 <= Height Header < 65536 ->
  Width Header * Height Header * 4 <= INT_MAX ->
  (0 < Width Header * Height Header ->
     sentinel px_data (Width Header * Height Header)) ->
  distinct_colours (image px_data Header) <= 256 ->
  OutputBPP = 24 \/ OutputBPP = 32 ->
  exists w out,
    kif_write malloc fopen_wb fs Filename (Some px_data) (Some Header) = Ret w /\
    16 <= Returned w /\
    kif_read malloc (FilesAfter w) Filename (Some Header') OutputBPP = Ret out /\
    Pixels out = image_bytes OutputBPP (image px_data Header) /\
    Width (HeaderRead out) = Width Header /\
    Height (HeaderRead out) = Height Header.
Proof.
  intros Hm Hopen HW HH Hint Hsen Hcol Hbpp.
  pose proof (first_seen_palette_length (image px_data Header)) as Hlen.
  destruct (encode_then_decode malloc px_data Header 0 Header' OutputBPP
              Hm HW HH Hint Hsen ltac:(lia) Hbpp) as (out & Henc & Hbuf & Hpos & Hdec).
  assert (Hsame : map (palette_alias (first_seen_palette (image px_data Header)))
                    (image px_data Header) = image px_data Header).
  { transitivity (map (fun c : kif_rgba_t => c) (image px_data Header));
      [|apply map_id].
    apply map_ext_in. intros c Hc.
    assert (Hin : colour_in c (first_seen_palette (image px_data Header)) = true)
      by (apply first_seen_palette_complete; [lia | exact Hc]).
    apply palette_alias_same; [exact Hin|].
    destruct (in_palette_present c _ Hin) as [Hidx _]. lia. }
  rewrite Hsame in Hdec.
  destruct (kif_encode_buffer_length _ _ _ _ _ Henc) as [_ Hrange].
  pose proof Henc as Hinv. apply kif_encode_Ret_inv in Hinv.
  destruct Hinv as (Palette & Encoded & _ & _ & Hh & _).
  unfold kif_write. rewrite Hopen, Henc. cbn [negb].
  eexists. eexists. split; [reflexivity|]. cbn [Returned FilesAfter].
  split; [lia|].
  unfold kif_read. rewrite fs_store_same.
  assert (Hall : firstn (Z.to_nat (OutputLength out)) (OutputBuffer out) =
                 OutputBuffer out) by (apply firstn_all2; lia).
  rewrite Hall, Hbuf, int_of_long_small by lia.
  destruct (Z.leb_spec (OutputLength out) 0); [lia|].
  rewrite Hm. cbn [negb]. rewrite Hall.
  split; [exact Hdec|]. cbn [Pixels HeaderRead]. rewrite Hh.
  split; [reflexivity|]. split; reflexivity.
Qed.

Lemma kif_decode_valid_not_Null malloc d Header bpp :
  (forall n, malloc n = true) -> bpp = 24 \/ bpp = 32 ->
  kif_decode malloc (Some d) (Some Header) bpp <> Null.
Proof.
  intros Hm Hbpp HN. unfold kif_decode in HN.
  assert (Hg : negb (bpp =? 24) && negb (bpp =? 32) = false)
    by (destruct Hbpp; subst; reflexivity).
  rewrite Hg in HN.
  destruct (read_header d) as [h| |] eqn:Eh; cbn [bind] in HN;
    [ | exact (read_header_not_Null _ Eh) | discriminate ].
  rewrite !Hm in HN; cbn [negb andb] in HN.
  destruct (read_palette d _ 0) as [Palette| |] eqn:Ep; cbn [bind] in HN;
    [ | exact (read_palette_not_Null _ _ _ Ep) | discriminate ].
  destruct (INT_MAX <? _); [discriminate|].
  destruct (decode_runs _ _ _ _ _ _ _ _ _) as [Decoded| |] eqn:Ed;
    cbn [bind] in HN;
    [ discriminate | exact (decode_runs_not_Null _ _ _ _ _ _ _ _ _ Ed) | discriminate ].
Qed.

(** X19.  Provided allocations succeed and the file, if any, is no longer than
    [INT_MAX] bytes, [kif_read] returns NULL exactly when the file cannot be
    opened, the file is empty, the header pointer is NULL, or the requested
    depth is neither 24 nor 32.  In particular no content of a file makes
    [kif_read] return NULL. *)
Theorem kif_read_fails_iff malloc (fs : file_system) (Filename : String.string)
    (Header : option KIFHeader) (OutputBPP : Z) :
  (forall n, malloc n = true) ->
  (forall content, fs Filename = Some content ->
     Z.of_nat (length content) <= INT_MAX) ->
  (kif_read malloc fs Filename Header OutputBPP = Null <->
     fs Filename = None \/ fs Filename = Some [] \/ Header = None \/
     (OutputBPP <> 24 /\ OutputBPP <> 32)).
Proof.
  intros Hm Hsize. unfold kif_read.
  destruct (fs Filename) as [content|] eqn:Ef; [|split; auto].
  specialize (Hsize content eq_refl).
  rewrite int_of_long_small by lia.
  destruct content as [|x content].
  { cbn. split; auto. }
  destruct (Z.leb_spec (Z.of_nat (length (x :: content))) 0) as [Hle|_];
    [cbn [length] in Hle; lia|].
  rewrite Hm. cbn [negb].
  rewrite firstn_all2 by lia.
  split.
  - intros HN. right; right.
    destruct Header as [h0|]; [|left; reflexivity]. right.
    destruct (Z.eq_dec OutputBPP 24) as [E24|N24];
      [exfalso; exact (kif_decode_valid_not_Null malloc _ h0 _ Hm (or_introl E24) HN)|].
    destruct (Z.eq_dec OutputBPP 32) as [E32|N32];
      [exfalso; exact (kif_decode_valid_not_Null malloc _ h0 _ Hm (or_intror E32) HN)|].
    split; assumption.
  - intros [H|[H|[->|[H24 H32]]]]; try discriminate.
    + reflexivity.
    + unfold kif_decode. destruct Header; [|reflexivity].
      destruct (Z.eqb_spec OutputBPP 24); [contradiction|].
      destruct (Z.eqb_spec OutputBPP 32); [contradiction|]. reflexivity.
Qed.

Lemma kif_decode_short_undefined malloc d Header bpp :
  bpp = 24 \/ bpp = 32 ->
  (Z.of_nat (length d) < 16 \/
   exists h, read_header d = Ret h /\
     Z.of_nat (length d) < 16 + 4 * palEntries h + 2 * RLEEntries h) ->
  kif_decode malloc (Some d) (Some Header) bpp = Undefined.
Proof.
  intros Hbpp Hshort. unfold kif_decode.
  assert (Hg : negb (bpp =? 24) && negb (bpp =? 32) = false)
    by (destruct Hbpp; subst; reflexivity).
  rewrite Hg. clear Hg.
  destruct Hshort as [Hs | (h & Hh & Hs)].
  - rewrite read_header_short by assumption. reflexivity.
  - rewrite Hh. cbn [bind].
    apply read_header_Ret_inv in Hh. destruct Hh as [H16 Hr].
    destruct Hr as (_ & _ & _ & Hp & _ & _ & Hn).
    destruct (negb (malloc _) && _); [reflexivity|].
    destruct (Z.lt_ge_cases (Z.of_nat (length d)) (16 + 4 * palEntries h)) as [Hlt|Hge].
    + rewrite read_palette_short by lia. reflexivity.
    + destruct (read_palette d (Z.to_nat (palEntries h)) 0) as [Palette| |] eqn:E;
        cbn [bind]; [ | exfalso; exact (read_palette_not_Null _ _ _ E) | reflexivity ].
      destruct (INT_MAX <? Width h * Height h * 4); [reflexivity|].
      rewrite decode_runs_short by lia. reflexivity.
Qed.

(** X20.  A truncated file: [kif_read] allocates exactly the size of the file and
    does not compare it with what the header declares.  On a file that is
    not empty but shorter than a header, or shorter than the header, palette
    and entries its header counts, a call with valid arguments reads past
    the end of that allocation. *)
Theorem kif_read_truncated_file_undefined malloc (fs : file_system)
    (Filename : String.string) (content : list byte) (Header : KIFHeader)
    (OutputBPP : Z) :
  fs Filename = Some content ->
  0 < Z.of_nat (length content) <= INT_MAX ->
  malloc (Z.of_nat (length content)) = true ->
  OutputBPP = 24 \/ OutputBPP = 32 ->
  (Z.of_nat (length content) < 16 \/
   exists h, read_header content = Ret h /\
     Z.of_nat (length content) < 16 + 4 * palEntries h + 2 * RLEEntries h) ->
  kif_read malloc fs Filename (Some Header) OutputBPP = Undefined.
Proof.
  intros Hf Hlen Hm Hbpp Hshort. unfold kif_read. rewrite Hf.
  rewrite int_of_long_small by lia.
  destruct (Z.leb_spec (Z.of_nat (length content)) 0); [lia|].
  rewrite Hm. cbn [negb]. rewrite firstn_all2 by lia.
  apply kif_decode_short_undefined; assumption.
Qed.

(** ** When [kif_decode] returns NULL *)

(** C7, as the code has it.  [kif_decode] returns NULL when the input
    buffer is NULL, the header pointer is NULL, or the requested depth is
    neither 24 nor 32; in particular a depth of 16 fails.  These are not the
    only failures: the result is the pointer that [malloc] gave for the pixel
    buffer, which the code does not check, so a call with valid arguments
    returns NULL only when that allocation of Width * Height * 4 bytes
    failed.  On a well-formed file whose Width * Height * 4 fits in [int],
    with valid arguments and the two allocations successful, it returns
    Width x Height pixels of [OutputBPP / 8] bytes each, together with the
    header of the file. *)
Theorem kif_decode_fails_on_bad_arguments_or_allocation malloc
    (Data : option (list byte)) (Header : option KIFHeader) (OutputBPP : Z) :
  (Data = None \/ Header = None \/ (OutputBPP <> 24 /\ OutputBPP <> 32) ->
     kif_decode malloc Data Header OutputBPP = Null) /\
  (kif_decode malloc Data Header OutputBPP = Null ->
     Data = None \/ Header = None \/ (OutputBPP <> 24 /\ OutputBPP <> 32) \/
     exists d h, Data = Some d /\ read_header d = Ret h /\
       malloc (Width h * Height h * 4) = false) /\
  kif_decode malloc Data Header 16 = Null /\
  (forall d h, Data = Some d -> Header <> None -> well_formed_file d ->
     read_header d = Ret h -> Width h * Height h * 4 <= INT_MAX ->
     OutputBPP = 24 \/ OutputBPP = 32 ->
     malloc (palEntries h * 4) = true \/ palEntries h = 0 ->
     malloc (Width h * Height h * 4) = true ->
     exists out,
       kif_decode malloc Data Header OutputBPP = Ret out /\
       HeaderRead out = h /\
       Z.of_nat (length (Pixels out)) = Width h * Height h * (OutputBPP / 8)).
Proof.
  split; [|split; [|split]].
  - intros [->|[->|[H24 H32]]].
    + reflexivity.
    + destruct Data; reflexivity.
    + unfold kif_decode. destruct Data; [|reflexivity]. destruct Header; [|reflexivity].
      destruct (Z.eqb_spec OutputBPP 24); [contradiction|].
      destruct (Z.eqb_spec OutputBPP 32); [contradiction|]. reflexivity.
  - intros HN. destruct Data as [d|]; [|auto]. destruct Header as [h0|]; [|auto].
    right; right. unfold kif_decode in HN.
    destruct (negb (OutputBPP =? 24) && negb (OutputBPP =? 32)) eqn:Eg.
    + left. apply andb_prop in Eg. destruct Eg as [E24 E32].
      apply negb_true_iff in E24, E32.
      split; [apply Z.eqb_neq; exact E24 | apply Z.eqb_neq; exact E32].
    + right.
      destruct (read_header d) as [h| |] eqn:Eh; cbn [bind] in HN;
        [ | exfalso; exact (read_header_not_Null _ Eh) | discriminate ].
      destruct (negb (malloc _) && _); [discriminate|].
      destruct (read_palette d _ 0) as [Palette| |] eqn:Ep; cbn [bind] in HN;
        [ | exfalso; exact (read_palette_not_Null _ _ _ Ep) | discriminate ].
      destruct (INT_MAX <? _); [discriminate|].
      destruct (decode_runs _ _ _ _ _ _ _ _ _) as [Decoded| |] eqn:Ed;
        cbn [bind] in HN;
        [ | exfalso; exact (decode_runs_not_Null _ _ _ _ _ _ _ _ _ Ed) | discriminate ].
      destruct (malloc (Width h * Height h * 4)) eqn:Em; [discriminate|].
      exists d, h. split; [reflexivity|]. split; [exact Eh | exact Em].
  - unfold kif_decode. destruct Data; [|reflexivity]. destruct Header; reflexivity.
  - intros d h' -> HH Hwf Hh' Hcap Hbpp Hmp Hmd. destruct Header as [h0|]; [|contradiction].
    destruct Hwf as (h & Palette & Encoded & rest & -> & Hr & Hp & He & Hv & Hpx).
    rewrite read_header_header_bytes in Hh' by assumption.
    apply Ret_inj in Hh'. subst h'.
    pose proof (expand_length Palette Encoded) as Hlen.
    assert (Hcount : Z.of_nat (length Encoded) <= rle_total Encoded).
    { apply rle_total_ge_length. eapply Forall_impl; [|exact Hv].
      intros e [H1 _]. exact H1. }
    pose proof (image_bytes_length OutputBPP (expand Palette Encoded) Hbpp) as Hbytes.
    exists (mkDecoded (image_bytes OutputBPP (expand Palette Encoded)) h).
    split; [|split].
    + apply kif_decode_of_layout; try assumption.
      * eapply Forall_impl; [|exact Hv]. intros e [_ H2]. right. exact H2.
      * rewrite Hbytes, Hlen, Hpx. destruct Hbpp; subst OutputBPP.
        -- change (24 / 8) with 3. pose proof Hr as (_ & _ & _ & _ & HW & HH' & _). nia.
        -- change (32 / 8) with 4. lia.
      * pose proof Hr as (_ & _ & _ & _ & HW & HH' & _). unfold INT_MAX in *. lia.
    + reflexivity.
    + cbn [Pixels]. rewrite Hbytes. lia.
Qed.

(** ** Concrete inputs *)

(** C5 as the specification states it fails: a 16-byte buffer whose header declares
    26 bytes does not make [kif_decode] fail; the decoder reads past its end. *)
Lemma kif_decode_short_buffer_does_not_fail :
  Z.of_nat (length short_file) <
    16 + 4 * palEntries header_solid + 2 * RLEEntries header_solid /\
  read_header short_file = Ret header_solid /\
  kif_decode always (Some short_file) (Some header_1x1) 32 = Undefined /\
  kif_decode always (Some short_file) (Some header_1x1) 32 <> Null.
Proof.
  split; [vm_compute; reflexivity|]. split; [vm_compute; reflexivity|].
  split; [vm_compute; reflexivity|]. vm_compute. discriminate.
Qed.

Lemma kif_decode_short_buffer_undefined_witness :
  (32 = 24 \/ 32 = 32) /\
  (Z.of_nat (length short_file) < 16 \/
   exists h, read_header short_file = Ret h /\
     Z.of_nat (length short_file) < 16 + 4 * palEntries h + 2 * RLEEntries h) /\
  kif_decode always (Some short_file) (Some header_1x1) 32 = Undefined.
Proof.
  assert (H1 : 32 = 24 \/ 32 = 32) by (right; reflexivity).
  assert (H2 : Z.of_nat (length short_file) < 16 \/
               exists h, read_header short_file = Ret h /\
                 Z.of_nat (length short_file) < 16 + 4 * palEntries h + 2 * RLEEntries h).
  { right. exists header_solid. split; [vm_compute; reflexivity | vm_compute; reflexivity]. }
  split; [exact H1|]. split; [exact H2|].
  exact (kif_decode_short_buffer_undefined always short_file header_1x1 32 H1 H2).
Defined.

Lemma kif_decode_ignores_magic_witness :
  length sample_file = length sample_file_other_magic /\
  skipn 4 sample_file = skipn 4 sample_file_other_magic /\
  decode_agree (kif_decode always (Some sample_file) (Some header_1x1) 32)
               (kif_decode always (Some sample_file_other_magic) (Some header_1x1) 32) /\
  (forall x1, kif_decode always (Some sample_file) (Some header_1x1) 32 = Ret x1 ->
     _read32bit sample_file 0 = Ret (Magic (HeaderRead x1))).
Proof.
  assert (H1 : length sample_file = length sample_file_other_magic) by reflexivity.
  assert (H2 : skipn 4 sample_file = skipn 4 sample_file_other_magic) by reflexivity.
  split; [exact H1|]. split; [exact H2|].
  exact (kif_decode_ignores_magic always sample_file sample_file_other_magic
           (Some header_1x1) 32 H1 H2).
Defined.

Lemma sample_file_well_formed : well_formed_file sample_file.
Proof.
  exists header_solid, [black; solid], [mkRLE x01 x01], [].
  split; [reflexivity|]. split; [vm_compute; intuition discriminate|].
  split; [reflexivity|]. split; [reflexivity|].
  split; [|reflexivity].
  repeat constructor; vm_compute; discriminate.
Qed.

(** C7 as the specification states it fails: with a buffer, a header pointer
    and a depth of 32, [kif_decode] returns NULL on the well-formed file of
    the 0 x 0 image when [malloc] gives NULL for its 0-byte pixel buffer; and
    it returns NULL on a header without entries when memory has run out. *)
Lemma kif_decode_null_with_valid_arguments :
  well_formed_file empty_file /\
  Some empty_file <> None /\ Some header_1x1 <> None /\ (32 = 24 \/ 32 = 32) /\
  kif_decode no_empty_block (Some empty_file) (Some header_1x1) 32 = Null /\
  kif_decode out_of_memory (Some header_only_file) (Some header_1x1) 24 = Null.
Proof.
  split.
  { exists header_0x0, [black], [], [].
    split; [reflexivity|]. split; [vm_compute; intuition discriminate|].
    split; [reflexivity|]. split; [reflexivity|].
    split; [constructor | reflexivity]. }
  split; [discriminate|]. split; [discriminate|].
  split; [right; reflexivity|].
  split; vm_compute; reflexivity.
Qed.

Lemma kif_decode_fails_on_bad_arguments_or_allocation_witness :
  well_formed_file sample_file /\
  read_header sample_file = Ret header_solid /\
  Width header_solid * Height header_solid * 4 <= INT_MAX /\
  (always (palEntries header_solid * 4) = true \/ palEntries header_solid = 0) /\
  always (Width header_solid * Height header_solid * 4) = true /\
  kif_decode always (Some sample_file) (Some header_1x1) 16 = Null /\
  exists out,
    kif_decode always (Some sample_file) (Some header_1x1) 32 = Ret out /\
    HeaderRead out = header_solid /\
    Z.of_nat (length (Pixels out)) =
      Width header_solid * Height header_solid * (32 / 8).
Proof.
  assert (H2 : read_header sample_file = Ret header_solid) by (vm_compute; reflexivity).
  assert (H3 : Width header_solid * Height header_solid * 4 <= INT_MAX)
    by (vm_compute; discriminate).
  assert (H4 : always (palEntries header_solid * 4) = true \/ palEntries header_solid = 0)
    by (left; reflexivity).
  assert (H5 : always (Width header_solid * Height header_solid * 4) = true)
    by reflexivity.
  assert (H6 : Some header_1x1 <> None) by discriminate.
  assert (H7 : 32 = 24 \/ 32 = 32) by (right; reflexivity).
  split; [exact sample_file_well_formed|]. split; [exact H2|]. split; [exact H3|].
  split; [exact H4|]. split; [exact H5|].
  destruct (kif_decode_fails_on_bad_arguments_or_allocation always (Some sample_file)
              (Some header_1x1) 32) as (_ & _ & H16 & Hret).
  split; [exact H16|].
  exact (Hret sample_file header_solid eq_refl H6 sample_file_well_formed H2 H3 H7 H4 H5).
Defined.

Lemma generate_palette_first_seen_witness :
  Width header_1x1 * Height header_1x1 <= INT_MAX /\
  Width header_1x1 * Height header_1x1 <= Z.of_nat (length [solid; solid; black]) /\
  exists Palette,
    _generate_palette [solid; solid; black] header_1x1 = Ret Palette /\
    nth_error Palette 0 = Some black /\
    NoDup (map v Palette) /\
    Z.of_nat (length Palette) <= 65536 /\
    Palette = first_seen_palette (image [solid; solid; black] header_1x1) /\
    (forall k c, nth_error (image [solid; solid; black] header_1x1) k = Some c ->
       let before :=
         first_seen_palette (firstn k (image [solid; solid; black] header_1x1)) in
       let after :=
         first_seen_palette (firstn (S k) (image [solid; solid; black] header_1x1)) in
       (~ In c before -> Z.of_nat (length before) < 65536 -> after = before ++ [c]) /\
       (In c before \/ 65536 <= Z.of_nat (length before) -> after = before)).
Proof.
  assert (H1 : Width header_1x1 * Height header_1x1 <= INT_MAX)
    by (unfold INT_MAX; simpl; lia).
  assert (H2 : Width header_1x1 * Height header_1x1 <=
               Z.of_nat (length [solid; solid; black])) by (simpl; lia).
  split; [exact H1|]. split; [exact H2|].
  exact (generate_palette_first_seen [solid; solid; black] header_1x1 H1 H2).
Defined.

Lemma kif_encode_entry_count_witness :
  0 <= Width header_1x1 < 65536 /\ 0 <= Height header_1x1 < 65536 /\
  kif_encode always (Some [solid; black]) (Some header_1x1) (Some 0) = Ret encoded_solid /\
  exists Palette Encoded,
    OutputBuffer encoded_solid =
      header_bytes (HeaderOut encoded_solid) ++ palette_bytes Palette ++
      encoded_bytes Encoded /\
    RLEEntries (HeaderOut encoded_solid) = Z.of_nat (length Encoded) /\
    (0 < Width header_1x1 * Height header_1x1 -> 1 <= Z.of_nat (length Encoded)) /\
    Z.of_nat (length Encoded) <= Width header_1x1 * Height header_1x1.
Proof.
  assert (H1 : 0 <= Width header_1x1 < 65536) by (simpl; lia).
  assert (H2 : 0 <= Height header_1x1 < 65536) by (simpl; lia).
  assert (H3 : kif_encode always (Some [solid; black]) (Some header_1x1) (Some 0)
               = Ret encoded_solid) by (vm_compute; reflexivity).
  split; [exact H1|]. split; [exact H2|]. split; [exact H3|].
  exact (kif_encode_entry_count always [solid; black] header_1x1 0 encoded_solid H1 H2 H3).
Defined.

(** ** Concrete inputs for the properties beyond the specification *)

Lemma generate_palette_members_witness :
  _generate_palette checker header_2x2 = Ret checker_palette /\
  (forall c, In c checker_palette -> c = black \/ In c (image checker header_2x2)) /\
  (Z.of_nat (length checker_palette) < 65536 ->
     forall c, In c (image checker header_2x2) -> In c checker_palette) /\
  Z.of_nat (length checker_palette) <= distinct_colours (image checker header_2x2) /\
  (distinct_colours (image checker header_2x2) <= 65536 ->
     Z.of_nat (length checker_palette) = distinct_colours (image checker header_2x2)).
Proof.
  assert (H : _generate_palette checker header_2x2 = Ret checker_palette)
    by (vm_compute; reflexivity).
  split; [exact H|].
  exact (generate_palette_members checker header_2x2 checker_palette H).
Defined.

Lemma in_palette_finds_image_colours_witness :
  _generate_palette checker header_2x2 = Ret checker_palette /\
  Z.of_nat (length checker_palette) < 65536 /\
  In (colour_of 255) (image checker header_2x2) /\
  0 <= _in_palette (colour_of 255) checker_palette < Z.of_nat (length checker_palette) /\
  nth_error checker_palette (Z.to_nat (_in_palette (colour_of 255) checker_palette)) =
    Some (colour_of 255).
Proof.
  assert (H1 : _generate_palette checker header_2x2 = Ret checker_palette)
    by (vm_compute; reflexivity).
  assert (H2 : Z.of_nat (length checker_palette) < 65536) by (vm_compute; reflexivity).
  assert (H3 : In (colour_of 255) (image checker header_2x2))
    by (right; left; reflexivity).
  split; [exact H1|]. split; [exact H2|]. split; [exact H3|].
  exact (in_palette_finds_image_colours checker header_2x2 checker_palette
           (colour_of 255) H1 H2 H3).
Defined.

Lemma kif_encode_exact_buffer_witness :
  Z.of_nat (length solid_255) = Width header_255x1 * Height header_255x1 /\
  0 < Width header_255x1 * Height header_255x1 /\
  kif_encode always (Some solid_255) (Some header_255x1) (Some 0) = Ret encoded_255 /\
  255 <= Width header_255x1 * Height header_255x1 /\
  (exists Palette Encoded e,
     OutputBuffer encoded_255 =
       header_bytes (HeaderOut encoded_255) ++ palette_bytes Palette ++
       encoded_bytes (Encoded ++ [e]) /\
     rle e = xff) /\
  skipn (Z.to_nat (Width header_255x1 * Height header_255x1 - 255)) solid_255 =
    repeat (nth (Z.to_nat (Width header_255x1 * Height header_255x1 - 1)) solid_255 black)
      255.
Proof.
  assert (H1 : Z.of_nat (length solid_255) = Width header_255x1 * Height header_255x1)
    by (vm_compute; reflexivity).
  assert (H2 : 0 < Width header_255x1 * Height header_255x1) by (vm_compute; reflexivity).
  assert (H3 : kif_encode always (Some solid_255) (Some header_255x1) (Some 0) =
               Ret encoded_255) by (vm_compute; reflexivity).
  split; [exact H1|]. split; [exact H2|]. split; [exact H3|].
  exact (kif_encode_exact_buffer always solid_255 header_255x1 0 encoded_255 H1 H2 H3).
Defined.

Lemma kif_encode_greedy_runs_witness :
  kif_encode always (Some checker) (Some header_2x2) (Some 0) = Ret encoded_checker /\
  exists Palette runs,
    _generate_palette checker header_2x2 = Ret Palette /\
    OutputBuffer encoded_checker =
      header_bytes (HeaderOut encoded_checker) ++ palette_bytes Palette ++
      encoded_bytes (map (run_entry Palette) runs) /\
    Forall (fun rn : run => 1 <= snd rn <= 255) runs /\
    runs_pixels runs = firstn (Z.to_nat (run_total runs)) checker /\
    greedy runs.
Proof.
  assert (H : kif_encode always (Some checker) (Some header_2x2) (Some 0) =
              Ret encoded_checker) by (vm_compute; reflexivity).
  split; [exact H|].
  exact (kif_encode_greedy_runs always checker header_2x2 0 encoded_checker H).
Defined.

Lemma kif_encode_run_lengths_witness :
  0 <= Width header_2x2 < 65536 /\ 0 <= Height header_2x2 < 65536 /\
  kif_encode always (Some checker) (Some header_2x2) (Some 0) = Ret encoded_checker /\
  exists Palette Encoded,
    OutputBuffer encoded_checker =
      header_bytes (HeaderOut encoded_checker) ++ palette_bytes Palette ++
      encoded_bytes Encoded /\
    Forall (fun e => 1 <= u8 (rle e) <= 255) Encoded /\
    Width header_2x2 * Height header_2x2 <= rle_total Encoded /\
    ((0 < Width header_2x2 * Height header_2x2 ->
        sentinel checker (Width header_2x2 * Height header_2x2)) ->
     rle_total Encoded = Width header_2x2 * Height header_2x2).
Proof.
  assert (H1 : 0 <= Width header_2x2 < 65536) by (cbn; lia).
  assert (H2 : 0 <= Height header_2x2 < 65536) by (cbn; lia).
  assert (H3 : kif_encode always (Some checker) (Some header_2x2) (Some 0) =
               Ret encoded_checker) by (vm_compute; reflexivity).
  split; [exact H1|]. split; [exact H2|]. split; [exact H3|].
  exact (kif_encode_run_lengths always checker header_2x2 0 encoded_checker H1 H2 H3).
Defined.

Lemma kif_encode_header_fields_witness :
  0 <= Width header_1x1 < 65536 /\ 0 <= Height header_1x1 < 65536 /\
  kif_encode always (Some [solid; black]) (Some header_1x1) (Some 0) = Ret encoded_solid /\
  exists Palette Encoded,
    _generate_palette [solid; black] header_1x1 = Ret Palette /\
    Magic (HeaderOut encoded_solid) = 0x6B696631 /\ BPP (HeaderOut encoded_solid) = 4 /\
    Compressed (HeaderOut encoded_solid) = 0 /\
    palEntries (HeaderOut encoded_solid) = Z.of_nat (length Palette) mod 65536 /\
    RLEEntries (HeaderOut encoded_solid) = Z.of_nat (length Encoded) /\
    OutputLength encoded_solid =
      16 + 4 * Z.of_nat (length Palette) + 2 * Z.of_nat (length Encoded) /\
    OutputLength encoded_solid = Z.of_nat (length (OutputBuffer encoded_solid)) /\
    OutputBuffer encoded_solid =
      header_bytes (HeaderOut encoded_solid) ++ palette_bytes Palette ++
      encoded_bytes Encoded.
Proof.
  assert (H1 : 0 <= Width header_1x1 < 65536) by (cbn; lia).
  assert (H2 : 0 <= Height header_1x1 < 65536) by (cbn; lia).
  assert (H3 : kif_encode always (Some [solid; black]) (Some header_1x1) (Some 0) =
               Ret encoded_solid) by (vm_compute; reflexivity).
  split; [exact H1|]. split; [exact H2|]. split; [exact H3|].
  exact (kif_encode_header_fields always [solid; black] header_1x1 0 encoded_solid
           H1 H2 H3).
Defined.

Lemma checker_sentinel :
  0 < Width header_2x2 * Height header_2x2 ->
  sentinel checker (Width header_2x2 * Height header_2x2).
Proof.
  intros _. exists solid, black.
  split; [reflexivity|]. split; [reflexivity | discriminate].
Qed.

Lemma roundtrip_with_sentinel_witness :
  (forall n, always n = true) /\
  0 <= Width header_2x2 < 65536 /\ 0 <= Height header_2x2 < 65536 /\
  Width header_2x2 * Height header_2x2 * 4 <= INT_MAX /\
  (0 < Width header_2x2 * Height header_2x2 ->
     sentinel checker (Width header_2x2 * Height header_2x2)) /\
  distinct_colours (image checker header_2x2) <= 256 /\
  (32 = 24 \/ 32 = 32) /\
  exists out,
    kif_encode always (Some checker) (Some header_2x2) (Some 0) = Ret out /\
    kif_decode always (Some (OutputBuffer out)) (Some header_1x1) 32 =
      Ret (mkDecoded (image_bytes 32 (image checker header_2x2)) (HeaderOut out)).
Proof.
  assert (H0 : forall n, always n = true) by (intros n; reflexivity).
  assert (H1 : 0 <= Width header_2x2 < 65536) by (cbn; lia).
  assert (H2 : 0 <= Height header_2x2 < 65536) by (cbn; lia).
  assert (H3 : Width header_2x2 * Height header_2x2 * 4 <= INT_MAX)
    by (vm_compute; discriminate).
  assert (H5 : distinct_colours (image checker header_2x2) <= 256)
    by (vm_compute; discriminate).
  assert (H6 : 32 = 24 \/ 32 = 32) by (right; reflexivity).
  split; [exact H0|]. split; [exact H1|]. split; [exact H2|]. split; [exact H3|].
  split; [exact checker_sentinel|]. split; [exact H5|]. split; [exact H6|].
  exact (roundtrip_with_sentinel always checker header_2x2 0 header_1x1 32
           H0 H1 H2 H3 checker_sentinel H5 H6).
Defined.

Lemma ramp_300_sentinel :
  0 < Width header_300x1 * Height header_300x1 ->
  sentinel ramp_300 (Width header_300x1 * Height header_300x1).
Proof.
  intros _. exists (colour_of 300), black.
  split; [vm_compute; reflexivity|]. split; [vm_compute; reflexivity|].
  vm_compute. discriminate.
Qed.

Lemma roundtrip_wraps_palette_index_witness :
  (forall n, always n = true) /\
  0 <= Width header_300x1 < 65536 /\ 0 <= Height header_300x1 < 65536 /\
  Width header_300x1 * Height header_300x1 * 4 <= INT_MAX /\
  (0 < Width header_300x1 * Height header_300x1 ->
     sentinel ramp_300 (Width header_300x1 * Height header_300x1)) /\
  distinct_colours (image ramp_300 header_300x1) < 65536 /\
  (24 = 24 \/ 24 = 32) /\
  exists out Palette,
    kif_encode always (Some ramp_300) (Some header_300x1) (Some 0) = Ret out /\
    _generate_palette ramp_300 header_300x1 = Ret Palette /\
    kif_decode always (Some (OutputBuffer out)) (Some header_1x1) 24 =
      Ret (mkDecoded
             (image_bytes 24 (map (palette_alias Palette) (image ramp_300 header_300x1)))
             (HeaderOut out)) /\
    (forall c, In c (image ramp_300 header_300x1) ->
       (palette_alias Palette c = c <-> _in_palette c Palette < 256)).
Proof.
  assert (H0 : forall n, always n = true) by (intros n; reflexivity).
  assert (H1 : 0 <= Width header_300x1 < 65536) by (cbn; lia).
  assert (H2 : 0 <= Height header_300x1 < 65536) by (cbn; lia).
  assert (H3 : Width header_300x1 * Height header_300x1 * 4 <= INT_MAX)
    by (vm_compute; discriminate).
  assert (H5 : distinct_colours (image ramp_300 header_300x1) < 65536)
    by (vm_compute; reflexivity).
  assert (H6 : 24 = 24 \/ 24 = 32) by (left; reflexivity).
  split; [exact H0|]. split; [exact H1|]. split; [exact H2|]. split; [exact H3|].
  split; [exact ramp_300_sentinel|]. split; [exact H5|]. split; [exact H6|].
  exact (roundtrip_wraps_palette_index always ramp_300 header_300x1 0 header_1x1 24
           H0 H1 H2 H3 ramp_300_sentinel H5 H6).
Defined.

Lemma sample_indices_valid : indices_valid [black; solid] [mkRLE x01 x01].
Proof.
  constructor; [right; vm_compute; reflexivity | constructor].
Qed.

Lemma kif_decode_expands_entries_witness :
  (32 = 24 \/ 32 = 32) /\
  header_in_range header_solid /\
  Z.of_nat (length [black; solid]) = palEntries header_solid /\
  Z.of_nat (length [mkRLE x01 x01]) = RLEEntries header_solid /\
  indices_valid [black; solid] [mkRLE x01 x01] /\
  Z.of_nat (length (image_bytes 32 (expand [black; solid] [mkRLE x01 x01])))
    <= Width header_solid * Height header_solid * 4 /\
  Width header_solid * Height header_solid * 4 <= INT_MAX /\
  (RLEEntries header_solid - 1) * 2 <= INT_MAX /\
  (always (palEntries header_solid * 4) = true \/ palEntries header_solid = 0) /\
  always (Width header_solid * Height header_solid * 4) = true /\
  kif_decode always
    (Some (header_bytes header_solid ++ palette_bytes [black; solid] ++
           encoded_bytes [mkRLE x01 x01] ++ [x00; xff]))
    (Some header_1x1) 32
  = Ret (mkDecoded (image_bytes 32 (expand [black; solid] [mkRLE x01 x01])) header_solid).
Proof.
  assert (H1 : 32 = 24 \/ 32 = 32) by (right; reflexivity).
  assert (H2 : header_in_range header_solid) by (vm_compute; intuition discriminate).
  assert (H3 : Z.of_nat (length [black; solid]) = palEntries header_solid)
    by reflexivity.
  assert (H4 : Z.of_nat (length [mkRLE x01 x01]) = RLEEntries header_solid)
    by reflexivity.
  assert (H6 : Z.of_nat (length (image_bytes 32 (expand [black; solid] [mkRLE x01 x01])))
               <= Width header_solid * Height header_solid * 4)
    by (vm_compute; discriminate).
  assert (H7 : Width header_solid * Height header_solid * 4 <= INT_MAX)
    by (vm_compute; discriminate).
  assert (H8 : (RLEEntries header_solid - 1) * 2 <= INT_MAX)
    by (vm_compute; discriminate).
  assert (H9 : always (palEntries header_solid * 4) = true \/ palEntries header_solid = 0)
    by (left; reflexivity).
  assert (H10 : always (Width header_solid * Height header_solid * 4) = true)
    by reflexivity.
  split; [exact H1|]. split; [exact H2|]. split; [exact H3|]. split; [exact H4|].
  split; [exact sample_indices_valid|]. split; [exact H6|]. split; [exact H7|].
  split; [exact H8|]. split; [exact H9|]. split; [exact H10|].
  exact (kif_decode_expands_entries always header_solid [black; solid] [mkRLE x01 x01]
           [x00; xff] header_1x1 32 H1 H2 H3 H4 sample_indices_valid H6 H7 H8 H9 H10).
Defined.

Lemma kif_decode_sound_witness :
  kif_decode always (Some sample_file) (Some header_1x1) 32 = Ret decoded_solid /\
  (32 = 24 \/ 32 = 32) /\
  exists Palette Encoded rest,
    sample_file = header_bytes (HeaderRead decoded_solid) ++ palette_bytes Palette ++
        encoded_bytes Encoded ++ rest /\
    header_in_range (HeaderRead decoded_solid) /\
    Z.of_nat (length Palette) = palEntries (HeaderRead decoded_solid) /\
    Z.of_nat (length Encoded) = RLEEntries (HeaderRead decoded_solid) /\
    indices_valid Palette Encoded /\
    Pixels decoded_solid = image_bytes 32 (expand Palette Encoded) /\
    Z.of_nat (length (Pixels decoded_solid)) <=
      Width (HeaderRead decoded_solid) * Height (HeaderRead decoded_solid) * 4.
Proof.
  assert (H : kif_decode always (Some sample_file) (Some header_1x1) 32 =
              Ret decoded_solid) by (vm_compute; reflexivity).
  split; [exact H|].
  exact (kif_decode_sound always sample_file (Some header_1x1) 32 decoded_solid H).
Defined.

Lemma kif_decode_ignores_trailing_bytes_witness :
  kif_decode always (Some sample_file) (Some header_1x1) 32 = Ret decoded_solid /\
  kif_decode always (Some (sample_file ++ [x00; xff])) (Some header_1x1) 32 =
    Ret decoded_solid.
Proof.
  assert (H : kif_decode always (Some sample_file) (Some header_1x1) 32 =
              Ret decoded_solid) by (vm_compute; reflexivity).
  split; [exact H|].
  exact (kif_decode_ignores_trailing_bytes always sample_file [x00; xff]
           (Some header_1x1) 32 decoded_solid H).
Defined.

Lemma kif_decode_depth_24_strips_alpha_witness :
  kif_decode always (Some sample_file) (Some header_1x1) 32 = Ret decoded_solid /\
  exists pixels,
    Pixels decoded_solid = flat_map rgba_bytes pixels /\
    kif_decode always (Some sample_file) (Some header_1x1) 24 =
      Ret (mkDecoded (flat_map rgb_bytes pixels) (HeaderRead decoded_solid)).
Proof.
  assert (H : kif_decode always (Some sample_file) (Some header_1x1) 32 =
              Ret decoded_solid) by (vm_compute; reflexivity).
  split; [exact H|].
  exact (kif_decode_depth_24_strips_alpha always sample_file (Some header_1x1)
           decoded_solid H).
Defined.

Lemma kif_decode_size_overflow_witness :
  (32 = 24 \/ 32 = 32) /\
  read_header huge_file = Ret (mkHeader kif1 4 0 0 32768 32768 0) /\
  INT_MAX < Width (mkHeader kif1 4 0 0 32768 32768 0) *
            Height (mkHeader kif1 4 0 0 32768 32768 0) * 4 /\
  kif_decode always (Some huge_file) (Some header_1x1) 32 = Undefined.
Proof.
  assert (H1 : 32 = 24 \/ 32 = 32) by (right; reflexivity).
  assert (H2 : read_header huge_file = Ret (mkHeader kif1 4 0 0 32768 32768 0))
    by (vm_compute; reflexivity).
  assert (H3 : INT_MAX < Width (mkHeader kif1 4 0 0 32768 32768 0) *
                         Height (mkHeader kif1 4 0 0 32768 32768 0) * 4)
    by (vm_compute; reflexivity).
  split; [exact H1|]. split; [exact H2|]. split; [exact H3|].
  exact (kif_decode_size_overflow always huge_file header_1x1 32
           (mkHeader kif1 4 0 0 32768 32768 0) H1 H2 H3).
Defined.

Lemma kif_write_result_witness :
  kif_write always opens no_files icon_kif (Some [solid; black]) (Some header_1x1) =
    Ret written_solid /\
  (forall name, name <> icon_kif -> FilesAfter written_solid name = no_files name) /\
  (Returned written_solid = 0 <->
     opens icon_kif = false \/
     kif_encode always (Some [solid; black]) (Some header_1x1) (Some 0) = Null) /\
  (opens icon_kif = false -> FilesAfter written_solid = no_files) /\
  (opens icon_kif = true ->
     kif_encode always (Some [solid; black]) (Some header_1x1) (Some 0) = Null ->
     FilesAfter written_solid icon_kif = Some []) /\
  (Returned written_solid <> 0 ->
     exists out,
       kif_encode always (Some [solid; black]) (Some header_1x1) (Some 0) = Ret out /\
       FilesAfter written_solid icon_kif = Some (OutputBuffer out) /\
       Returned written_solid = Z.of_nat (length (OutputBuffer out)) /\
       16 <= Returned written_solid <= INT_MAX).
Proof.
  assert (H : kif_write always opens no_files icon_kif (Some [solid; black])
                (Some header_1x1) = Ret written_solid) by (vm_compute; reflexivity).
  split; [exact H|].
  exact (kif_write_result always opens no_files icon_kif (Some [solid; black])
           (Some header_1x1) written_solid H).
Defined.

Lemma kif_write_then_kif_read_witness :
  (forall n, always n = true) /\
  opens icon_kif = true /\
  0 <= Width header_2x2 < 65536 /\ 0 <= Height header_2x2 < 65536 /\
  Width header_2x2 * Height header_2x2 * 4 <= INT_MAX /\
  (0 < Width header_2x2 * Height header_2x2 ->
     sentinel checker (Width header_2x2 * Height header_2x2)) /\
  distinct_colours (image checker header_2x2) <= 256 /\
  (24 = 24 \/ 24 = 32) /\
  exists w out,
    kif_write always opens no_files icon_kif (Some checker) (Some header_2x2) = Ret w /\
    16 <= Returned w /\
    kif_read always (FilesAfter w) icon_kif (Some header_1x1) 24 = Ret out /\
    Pixels out = image_bytes 24 (image checker header_2x2) /\
    Width (HeaderRead out) = Width header_2x2 /\
    Height (HeaderRead out) = Height header_2x2.
Proof.
  assert (H0 : forall n, always n = true) by (intros n; reflexivity).
  assert (Ho : opens icon_kif = true) by reflexivity.
  assert (H1 : 0 <= Width header_2x2 < 65536) by (cbn; lia).
  assert (H2 : 0 <= Height header_2x2 < 65536) by (cbn; lia).
  assert (H3 : Width header_2x2 * Height header_2x2 * 4 <= INT_MAX)
    by (vm_compute; discriminate).
  assert (H5 : distinct_colours (image checker header_2x2) <= 256)
    by (vm_compute; discriminate).
  assert (H6 : 24 = 24 \/ 24 = 32) by (left; reflexivity).
  split; [exact H0|]. split; [exact Ho|]. split; [exact H1|]. split; [exact H2|].
  split; [exact H3|]. split; [exact checker_sentinel|]. split; [exact H5|].
  split; [exact H6|].
  exact (kif_write_then_kif_read always opens no_files icon_kif checker header_2x2
           header_1x1 24 H0 Ho H1 H2 H3 checker_sentinel H5 H6).
Defined.

Lemma stored_file_size (content : list byte) :
  Z.of_nat (length content) <= INT_MAX ->
  forall c, fs_store no_files icon_kif content icon_kif = Some c ->
    Z.of_nat (length c) <= INT_MAX.
Proof.
  intros Hle c Hc. rewrite fs_store_same in Hc. inversion Hc. subst c. exact Hle.
Qed.

Lemma kif_read_fails_iff_witness :
  (forall n, always n = true) /\
  (forall content, fs_store no_files icon_kif sample_file icon_kif = Some content ->
     Z.of_nat (length content) <= INT_MAX) /\
  (kif_read always (fs_store no_files icon_kif sample_file) icon_kif
     (Some header_1x1) 16 = Null <->
     fs_store no_files icon_kif sample_file icon_kif = None \/
     fs_store no_files icon_kif sample_file icon_kif = Some [] \/
     Some header_1x1 = None \/
     (16 <> 24 /\ 16 <> 32)).
Proof.
  assert (H0 : forall n, always n = true) by (intros n; reflexivity).
  assert (H1 : forall content,
             fs_store no_files icon_kif sample_file icon_kif = Some content ->
             Z.of_nat (length content) <= INT_MAX)
    by (apply stored_file_size; vm_compute; discriminate).
  split; [exact H0|]. split; [exact H1|].
  exact (kif_read_fails_iff always (fs_store no_files icon_kif sample_file) icon_kif
           (Some header_1x1) 16 H0 H1).
Defined.

Lemma kif_read_truncated_file_undefined_witness :
  fs_store no_files icon_kif short_file icon_kif = Some short_file /\
  0 < Z.of_nat (length short_file) <= INT_MAX /\
  always (Z.of_nat (length short_file)) = true /\
  (32 = 24 \/ 32 = 32) /\
  (Z.of_nat (length short_file) < 16 \/
   exists h, read_header short_file = Ret h /\
     Z.of_nat (length short_file) < 16 + 4 * palEntries h + 2 * RLEEntries h) /\
  kif_read always (fs_store no_files icon_kif short_file) icon_kif
    (Some header_1x1) 32 = Undefined.
Proof.
  assert (H1 : fs_store no_files icon_kif short_file icon_kif = Some short_file)
    by reflexivity.
  assert (H2 : 0 < Z.of_nat (length short_file) <= INT_MAX)
    by (split; [vm_compute; reflexivity | vm_compute; discriminate]).
  assert (H3 : always (Z.of_nat (length short_file)) = true) by reflexivity.
  assert (H4 : 32 = 24 \/ 32 = 32) by (right; reflexivity).
  assert (H5 : Z.of_nat (length short_file) < 16 \/
               exists h, read_header short_file = Ret h /\
                 Z.of_nat (length short_file) < 16 + 4 * palEntries h + 2 * RLEEntries h).
  { right. exists header_solid. split; [vm_compute; reflexivity | vm_compute; reflexivity]. }
  split; [exact H1|]. split; [exact H2|]. split; [exact H3|]. split; [exact H4|].
  split; [exact H5|].
  exact (kif_read_truncated_file_undefined always (fs_store no_files icon_kif short_file)
           icon_kif short_file header_1x1 32 H1 H2 H3 H4 H5).
Defined.
